(** * web-qr-galore: the secure delivery pipeline

    A shallow embedding of

    - [src/services/websocket.ts]: the descriptor parser
      [SecureWebSocketService.parseQRData] and the channel manager
      [SecureWebSocketService] (connect, reconnect, disconnect and the
      handlers it installs on its socket);
    - [src/services/crypto.ts]: [CryptoService] (the two decryption
      strategies, the archive filter, the extension tables, base64);
    - the page component [Index] (the orchestrator's handlers).

    Strings are sequences of 8-bit code units ([string]): an ASCII string is
    itself, any other text is its UTF-8 encoding. *)

From Stdlib Require Import ZArith NArith List String Ascii Bool Lia.
From Stdlib.Strings Require Import Byte.
From stdpp Require Import base option list strings gmap pretty.

Local Open Scope string_scope.
Local Open Scope list_scope.

(** ** JavaScript completions

    A JavaScript computation either completes normally with a value or
    throws.  [try { .. } catch { .. }] is [try_catch]. *)

Inductive JSError : Type :=
  | SyntaxError (message : string)
  | TypeError (message : string)
  | RangeError (message : string)
  | Error (message : string)
  | NotAnError.

(** [error instanceof Error ? error.message : fallback] *)
Definition message_or (e : JSError) (fallback : string) : string :=
  match e with
  | SyntaxError m | TypeError m | RangeError m | Error m => m
  | NotAnError => fallback
  end.

Inductive Completion (A : Type) : Type :=
  | Normal (a : A)
  | Throw (e : JSError).
Arguments Normal {A} a.
Arguments Throw {A} e.

Definition cbind {A B} (c : Completion A) (k : A -> Completion B) : Completion B :=
  match c with
  | Normal a => k a
  | Throw e => Throw e
  end.

Notation "'let*' x := c 'in' k" := (cbind c (fun x => k))
  (at level 10, x name, c at level 100, k at level 200).

Definition try_catch {A} (body : Completion A) (handler : JSError -> Completion A)
  : Completion A :=
  match body with
  | Normal a => Normal a
  | Throw e => handler e
  end.

(** Closed statements about concrete runs are settled by evaluation. *)
Ltac by_evaluation :=
  cbv zeta;
  repeat match goal with |- _ /\ _ => split end;
  vm_compute; first [reflexivity | discriminate].

(** ** String primitives of the host language *)

Module JSString.

(** [s.startsWith(p)] *)
Fixpoint startsWith (s p : string) : bool :=
  match p, s with
  | EmptyString, _ => true
  | String a p', String b s' => if Ascii.eqb a b then startsWith s' p' else false
  | String _ _, EmptyString => false
  end.

(** A string of the program is modelled by the bytes of its UTF-8
    encoding, a surrogate that has no partner by the three bytes of its
    own code point.  The host language counts a string in UTF-16 code
    units: the byte that starts a sequence of one, two or three bytes
    stands for one code unit, the byte that starts a sequence of four for
    two, a continuation byte for none. *)
Definition is_continuation (c : ascii) : bool :=
  let n := nat_of_ascii c in (128 <=? n)%nat && (n <? 192)%nat.

Definition units (c : ascii) : nat :=
  let n := nat_of_ascii c in
  if (n <? 128)%nat then 1%nat
  else if (n <? 192)%nat then 0%nat
  else if (n <? 240)%nat then 1%nat
  else 2%nat.

(** [s.length] *)
Fixpoint length_units (s : string) : nat :=
  match s with
  | EmptyString => 0%nat
  | String c r => (units c + length_units r)%nat
  end.

(** One byte of [s.toLowerCase()] outside the sequences below: the letters
    A-Z are mapped to a-z, every other byte is kept. *)
Definition lower_ascii (c : ascii) : ascii :=
  let n := nat_of_ascii c in
  if (65 <=? n)%nat && (n <=? 90)%nat then ascii_of_nat (n + 32) else c.

(** [s.toLowerCase()].  The letters A-Z become a-z.  U+0130 (bytes 196
    176) becomes the two code points U+0069 U+0307 (bytes 105 204 135),
    the one lower-case mapping that lengthens a string; the Kelvin sign
    U+212A (bytes 226 132 170) becomes the letter k, the one other code
    point outside ASCII whose lower-case form has an ASCII letter.  Every
    other sequence is kept: the lower-case form of a letter outside ASCII
    is then a code point outside ASCII with as many code units, which no
    comparison of this program tells from the letter itself. *)
Fixpoint toLowerCase (s : string) : string :=
  match s with
  | EmptyString => EmptyString
  | String c r =>
      if Ascii.eqb c "196"%char then
        match r with
        | String c1 r1 =>
            if Ascii.eqb c1 "176"%char
            then String "105"%char (String "204"%char (String "135"%char (toLowerCase r1)))
            else String c (toLowerCase r)
        | EmptyString => String c EmptyString
        end
      else if Ascii.eqb c "226"%char then
        match r with
        | String c1 (String c2 r2) =>
            if Ascii.eqb c1 "132"%char && Ascii.eqb c2 "170"%char
            then String "107"%char (toLowerCase r2)
            else String c (toLowerCase r)
        | _ => String c (toLowerCase r)
        end
      else String (lower_ascii c) (toLowerCase r)
  end.

(** The string holds U+0130. *)
Fixpoint has_U0130 (s : string) : bool :=
  match s with
  | EmptyString => false
  | String c r =>
      (Ascii.eqb c "196"%char
       && match r with String c1 _ => Ascii.eqb c1 "176"%char | EmptyString => false end)
      || has_U0130 r
  end.

(** The string holds a surrogate (bytes 237, then 160 to 191): it has no
    UTF-8 encoding. *)
Fixpoint has_surrogate (s : string) : bool :=
  match s with
  | EmptyString => false
  | String c r =>
      (Ascii.eqb c "237"%char
       && match r with
          | String c1 _ => (160 <=? nat_of_ascii c1)%nat && (nat_of_ascii c1 <=? 191)%nat
          | EmptyString => false
          end)
      || has_surrogate r
  end.

(** [s.lastIndexOf(c)] for a one-character needle of ASCII: the largest
    index that holds [c], counted in code units, or -1. *)
Fixpoint lastIndexOf (s : string) (c : ascii) : Z :=
  match s with
  | EmptyString => (-1)%Z
  | String a r =>
      let i := lastIndexOf r c in
      if (0 <=? i)%Z then (i + Z.of_nat (units a))%Z
      else if Ascii.eqb a c then 0%Z else (-1)%Z
  end.

(** The first [n] bytes taken off. *)
Fixpoint drop (n : nat) (s : string) : string :=
  match n, s with
  | O, _ => s
  | S n', String _ r => drop n' r
  | S _, EmptyString => EmptyString
  end.

(** The first [n] code units taken off.  The bytes of a sequence go with
    the byte that starts it.  Taking one code unit off a sequence of four
    bytes leaves the second surrogate of the pair, whose own three bytes
    are 237, then 176 with the low four bits of the third byte, then the
    fourth byte. *)
Fixpoint drop_units (n : nat) (s : string) : string :=
  match s with
  | EmptyString => EmptyString
  | String c r =>
      if is_continuation c then drop_units n r
      else
        match n with
        | O => s
        | S n' =>
            if (units c <=? n)%nat then drop_units (n - units c) r
            else
              match r with
              | String _ (String c2 (String c3 r3)) =>
                  String "237"%char
                    (String (ascii_of_nat (176 + nat_of_ascii c2 mod 16)) (String c3 r3))
              | _ => drop_units n' r
              end
        end
  end.

(** [s.substring(start)]: a negative start counts as 0, a start past the
    end gives the empty string. *)
Definition substring (s : string) (start : Z) : string :=
  drop_units (Z.to_nat (Z.max 0 start)) s.

(** Readable literals: every apostrophe of [s] becomes a double quote. *)
Fixpoint js (s : string) : string :=
  match s with
  | EmptyString => EmptyString
  | String c r =>
      String (if Ascii.eqb c "039"%char then "034"%char else c) (js r)
  end.

End JSString.

(** ** JSON values and [JSON.parse] *)

Module JSON.

(** A number literal is kept exactly: [mant * 10 ^ exp10], negated when
    [neg]. *)
Record JNum : Type := mkJNum { neg : bool; mant : N; exp10 : Z }.

(** An object is its list of own properties in insertion order; the parser
    keeps the keys unique (a repeated key overwrites the value). *)
#[warnings="-register-all"] Inductive value : Type :=
  | JNull
  | JBool (b : bool)
  | JNumber (n : JNum)
  | JString (s : string)
  | JArray (items : list value)
  | JObject (fields : list (string * value)).

(** [o[k] = v] on a property list. *)
Fixpoint set_field (fs : list (string * value)) (k : string) (v : value)
  : list (string * value) :=
  match fs with
  | [] => [(k, v)]
  | (k', v') :: r =>
      if String.eqb k' k then (k', v) :: r else (k', v') :: set_field r k v
  end.

Fixpoint get_field (fs : list (string * value)) (k : string) : option value :=
  match fs with
  | [] => None
  | (k', v') :: r => if String.eqb k' k then Some v' else get_field r k
  end.

Definition is_ws (c : ascii) : bool :=
  let n := nat_of_ascii c in
  (n =? 32)%nat || (n =? 9)%nat || (n =? 10)%nat || (n =? 13)%nat.

Fixpoint skip_ws (s : string) : string :=
  match s with
  | String c r => if is_ws c then skip_ws r else s
  | EmptyString => s
  end.

Definition digit_of (c : ascii) : option N :=
  let n := N_of_ascii c in
  if (48 <=? n)%N && (n <=? 57)%N then Some (n - 48)%N else None.

Definition hex_of (c : ascii) : option N :=
  let n := N_of_ascii c in
  if (48 <=? n)%N && (n <=? 57)%N then Some (n - 48)%N
  else if (65 <=? n)%N && (n <=? 70)%N then Some (n - 55)%N
  else if (97 <=? n)%N && (n <=? 102)%N then Some (n - 87)%N
  else None.

(** The UTF-8 code units of a code point below 0x10000 (what one \uXXXX
    escape denotes). *)
Definition utf8_of (cp : N) : string :=
  if (cp <? 128)%N then String (ascii_of_N cp) EmptyString
  else if (cp <? 2048)%N then
    String (ascii_of_N (192 + cp / 64))
      (String (ascii_of_N (128 + cp mod 64)) EmptyString)
  else
    String (ascii_of_N (224 + cp / 4096))
      (String (ascii_of_N (128 + (cp / 64) mod 64))
         (String (ascii_of_N (128 + cp mod 64)) EmptyString)).

(** The characters of a string literal after its opening quote, up to and
    including the closing quote. *)
Fixpoint parse_chars (s : string) (acc : string) : option (string * string) :=
  match s with
  | EmptyString => None
  | String c r =>
      if Ascii.eqb c "034"%char then Some (acc, r)
      else if Ascii.eqb c "\"%char then
        match r with
        | String e r' =>
            let lit (x : ascii) := parse_chars r' (acc ++ String x EmptyString) in
            if Ascii.eqb e "034"%char then lit "034"%char
            else if Ascii.eqb e "\"%char then lit "\"%char
            else if Ascii.eqb e "/"%char then lit "/"%char
            else if Ascii.eqb e "b"%char then lit "008"%char
            else if Ascii.eqb e "f"%char then lit "012"%char
            else if Ascii.eqb e "n"%char then lit "010"%char
            else if Ascii.eqb e "r"%char then lit "013"%char
            else if Ascii.eqb e "t"%char then lit "009"%char
            else if Ascii.eqb e "u"%char then
              match r' with
              | String h1 (String h2 (String h3 (String h4 r''))) =>
                  match hex_of h1, hex_of h2, hex_of h3, hex_of h4 with
                  | Some a, Some b, Some c', Some d =>
                      parse_chars r''
                        (acc ++ utf8_of (((a * 16 + b) * 16 + c') * 16 + d)%N)
                  | _, _, _, _ => None
                  end
              | _ => None
              end
            else None
        | EmptyString => None
        end
      else if (nat_of_ascii c <? 32)%nat then None
      else parse_chars r (acc ++ String c EmptyString)
  end.

(** A maximal run of digits: its value, its length, the rest. *)
Fixpoint parse_digits (s : string) (acc : N) (len : nat) : N * nat * string :=
  match s with
  | String c r =>
      match digit_of c with
      | Some d => parse_digits r (acc * 10 + d)%N (S len)
      | None => (acc, len, s)
      end
  | EmptyString => (acc, len, s)
  end.

(** [s] without its first character when that is [c]. *)
Definition after_char (c : ascii) (s : string) : option string :=
  match s with
  | String a r => if Ascii.eqb a c then Some r else None
  | EmptyString => None
  end.

Definition parse_exponent (s : string) : option (Z * string) :=
  match s with
  | String c r =>
      if Ascii.eqb c "e"%char || Ascii.eqb c "E"%char then
        let '(sgn, r1) :=
          match after_char "+" r, after_char "-" r with
          | Some r', _ => (1%Z, r')
          | None, Some r' => ((-1)%Z, r')
          | None, None => (1%Z, r)
          end in
        match parse_digits r1 0%N 0 with
        | (_, O, _) => None
        | (e, S _, r2) => Some ((sgn * Z.of_N e)%Z, r2)
        end
      else Some (0%Z, s)
  | EmptyString => Some (0%Z, s)
  end.

(** A number literal: an optional minus sign; an integer part that is 0 or
    starts with a digit 1-9; an optional fraction (a dot and one or more
    digits); an optional exponent (e or E, an optional sign, one or more
    digits). *)
Definition parse_number (s : string) : option (JNum * string) :=
  let '(ng, s1) :=
    match after_char "-" s with
    | Some r => (true, r)
    | None => (false, s)
    end in
  match s1 with
  | EmptyString => None
  | String c0 _ =>
      match parse_digits s1 0%N 0 with
      | (_, O, _) => None
      | (ip, S k, s2) =>
          if Ascii.eqb c0 "0"%char && negb (k =? 0)%nat then None
          else
            let frac :=
              match after_char "." s2 with
              | Some r =>
                  match parse_digits r ip 0 with
                  | (_, O, _) => None
                  | (m, S j, s3) => Some (m, Z.of_nat (S j), s3)
                  end
              | None => Some (ip, 0%Z, s2)
              end in
            match frac with
            | None => None
            | Some (m, fl, s3) =>
                match parse_exponent s3 with
                | None => None
                | Some (e, s4) => Some (mkJNum ng m (e - fl), s4)
                end
            end
      end
  end.

Definition expect (lit : string) (v : value) (s : string) : option (value * string) :=
  if JSString.startsWith s lit
  then Some (v, JSString.drop (String.length lit) s) else None.

(** Recursive descent over values, array elements and object members.
    Every call spends one unit of [fuel]; a text never needs more than its
    length. *)
Fixpoint parse_value (fuel : nat) (s : string) : option (value * string) :=
  match fuel with
  | O => None
  | S f =>
      match skip_ws s with
      | EmptyString => None
      | String c r as s' =>
          if Ascii.eqb c "{"%char then
            match after_char "}" (skip_ws r) with
            | Some r' => Some (JObject [], skip_ws r')
            | None => parse_members f (skip_ws r) []
            end
          else if Ascii.eqb c "["%char then
            match after_char "]" (skip_ws r) with
            | Some r' => Some (JArray [], skip_ws r')
            | None => parse_elements f (skip_ws r) []
            end
          else if Ascii.eqb c "034"%char then
            match parse_chars r EmptyString with
            | Some (str, r') => Some (JString str, skip_ws r')
            | None => None
            end
          else if Ascii.eqb c "t"%char then
            option_map (fun p => (fst p, skip_ws (snd p))) (expect "true" (JBool true) s')
          else if Ascii.eqb c "f"%char then
            option_map (fun p => (fst p, skip_ws (snd p))) (expect "false" (JBool false) s')
          else if Ascii.eqb c "n"%char then
            option_map (fun p => (fst p, skip_ws (snd p))) (expect "null" JNull s')
          else
            match parse_number s' with
            | Some (n, r') => Some (JNumber n, skip_ws r')
            | None => None
            end
      end
  end
with parse_elements (fuel : nat) (s : string) (acc : list value)
  : option (value * string) :=
  match fuel with
  | O => None
  | S f =>
      match parse_value f s with
      | Some (v, rest) =>
          match after_char "," rest, after_char "]" rest with
          | Some r, _ => parse_elements f r (acc ++ [v])
          | None, Some r => Some (JArray (acc ++ [v]), skip_ws r)
          | None, None => None
          end
      | None => None
      end
  end
with parse_members (fuel : nat) (s : string) (acc : list (string * value))
  : option (value * string) :=
  match fuel with
  | O => None
  | S f =>
      match after_char "034" (skip_ws s) with
      | Some r =>
          match parse_chars r EmptyString with
          | Some (k, r1) =>
              match after_char ":" (skip_ws r1) with
              | Some r2 =>
                  match parse_value f r2 with
                  | Some (v, rest) =>
                      match after_char "," rest, after_char "}" rest with
                      | Some r3, _ => parse_members f r3 (set_field acc k v)
                      | None, Some r3 =>
                          Some (JObject (set_field acc k v), skip_ws r3)
                      | None, None => None
                      end
                  | None => None
                  end
              | None => None
              end
          | None => None
          end
      | None => None
      end
  end.

(** [JSON.parse(text)]: one value surrounded by white space, or a
    SyntaxError (whose message is the engine's; nothing reads it).  The
    fuel is more than any text needs. *)
Definition parse (text : string) : Completion value :=
  match parse_value (2 * String.length text + 4) text with
  | Some (v, EmptyString) => Normal v
  | _ => Throw (SyntaxError "Unexpected token")
  end.

(** ToBoolean of a number literal: false exactly when the double it rounds
    to is zero, that is when its magnitude is at most 2^-1075. *)
Definition num_truthy (n : JNum) : bool :=
  if (0 <=? exp10 n)%Z then negb (mant n =? 0)%N
  else (10 ^ (- exp10 n) <? Z.of_N (mant n) * 2 ^ 1075)%Z.

(** ToBoolean of the result of a property read ([None] is undefined). *)
Definition truthy (v : option value) : bool :=
  match v with
  | None => false
  | Some JNull => false
  | Some (JBool b) => b
  | Some (JNumber n) => num_truthy n
  | Some (JString s) => negb (String.eqb s EmptyString)
  | Some (JArray _) => true
  | Some (JObject _) => true
  end.

(** [v.k] for a key [k] that no prototype defines (such as url): a
    TypeError on null, the own property of an object, undefined on every
    other value. *)
Definition get (v : value) (k : string) : Completion (option value) :=
  match v with
  | JNull => Throw (TypeError "Cannot read properties of null")
  | JObject fs => Normal (get_field fs k)
  | _ => Normal None
  end.

End JSON.

(** ** The connection descriptor parser ([websocket.ts], [parseQRData]) *)

Module Descriptor.
Import JSString JSON.

(** The object literal [{ url: qrData }]. *)
Definition bare_url (qrData : string) : value :=
  JObject [("url", JString qrData)].

(** The [try] block: [Normal (Some v)] is [return v], [Normal None] leaves
    the block without returning. *)
Definition parseQRData_try (qrData : string) : Completion (option value) :=
  let* parsed := JSON.parse qrData in
  let* url := JSON.get parsed "url" in
  Normal (if truthy url then Some parsed else None).

(** [qrData.startsWith('ws://') || qrData.startsWith('wss://')] *)
Definition ws_prefixed (qrData : string) : bool :=
  startsWith qrData "ws://" || startsWith qrData "wss://".

(** The [catch] block; it ignores the fault it caught. *)
Definition parseQRData_catch (qrData : string) (_ : JSError)
  : Completion (option value) :=
  Normal (if ws_prefixed qrData then Some (bare_url qrData) else None).

(** The whole body as a completion.  Leaving the [try] statement without a
    return reaches [return null], which is [None]. *)
Definition parseQRData_body (qrData : string) : Completion (option value) :=
  try_catch (parseQRData_try qrData) (parseQRData_catch qrData).

(** [SecureWebSocketService.parseQRData]: [None] is [null]. *)
Definition parseQRData (qrData : string) : option value :=
  match parseQRData_body qrData with
  | Normal r => r
  | Throw _ => None
  end.

(** A descriptor object with the field [name] holding the address and an
    optional [key] field. *)
Definition descriptor (name : string) (address : string) (key : option string) : value :=
  JObject ((name, JString address) ::
           match key with Some k => [("key", JString k)] | None => [] end).

(** The [url] property of a parsed value when reading it does not throw,
    undefined otherwise. *)
Definition url_of (parsed : value) : option value :=
  match JSON.get parsed "url" with
  | Normal v => v
  | Throw _ => None
  end.

(** A parsed text is an object. *)
Definition is_object (c : Completion value) : bool :=
  match c with
  | Normal (JObject _) => true
  | _ => false
  end.

End Descriptor.

(** ** 32-bit integers of the host language

    The bit operators work on 32-bit integers: [|], [&] and [<<] give a
    signed result, [>>>] reads its left operand as unsigned. *)

Module Int32.
Local Open Scope Z_scope.

Definition to_uint32 (x : Z) : Z := x mod 2 ^ 32.
Definition to_int32 (x : Z) : Z := (x + 2 ^ 31) mod 2 ^ 32 - 2 ^ 31.

(** [a << n] *)
Definition shl (a n : Z) : Z := to_int32 (Z.shiftl (to_int32 a) (n mod 32)).
(** [a | b] *)
Definition or (a b : Z) : Z := to_int32 (Z.lor (to_int32 a) (to_int32 b)).
(** [a & b] *)
Definition and (a b : Z) : Z := to_int32 (Z.land (to_int32 a) (to_int32 b)).
(** [a >>> n] *)
Definition ushr (a n : Z) : Z := Z.shiftr (to_uint32 a) (n mod 32).

End Int32.

(** ** The decryption engine and the archive extractor ([crypto.ts]) *)

Module Crypto.
Import JSString.
Local Open Scope Z_scope.

(** An [ArrayBuffer] or [Uint8Array] is its list of bytes. *)
Abbreviation bytes := (list byte).

Definition Z_of_byte (b : byte) : Z := Z.of_N (Byte.to_N b).

(** Storing a number into a [Uint8Array] keeps its low 8 bits. *)
Definition byte_of_Z (z : Z) : byte :=
  match Byte.of_N (Z.to_N (z mod 256)) with
  | Some b => b
  | None => x00
  end.

(** The code units of a string as bytes (its UTF-8 encoding). *)
Definition bytes_of_string (s : string) : bytes :=
  map byte_of_ascii (list_ascii_of_string s).

(** [CryptoJS.lib.WordArray]: 32-bit words and the number of significant
    bytes. *)
Record WordArray : Type := mkWordArray { words : list Z; sigBytes : Z }.

(** One word of four bytes, most significant first, built as the library
    does: [word |= byte << (24 - (i % 4) * 8)] for i = 0, 1, 2, 3. *)
Definition word_of_bytes (b0 b1 b2 b3 : Z) : Z :=
  Int32.or (Int32.or (Int32.or (Int32.or 0 (Int32.shl b0 24)) (Int32.shl b1 16))
              (Int32.shl b2 8)) (Int32.shl b3 0).

(** Modelled from the spec: all byte-to-word packing is big-endian over
    4-byte words, which is what the library's [WordArray.create] does with
    bytes; a last incomplete word is filled with zero bits. *)
Fixpoint pack (bs : bytes) : list Z :=
  match bs with
  | [] => []
  | [b0] => [word_of_bytes (Z_of_byte b0) 0 0 0]
  | [b0; b1] => [word_of_bytes (Z_of_byte b0) (Z_of_byte b1) 0 0]
  | [b0; b1; b2] => [word_of_bytes (Z_of_byte b0) (Z_of_byte b1) (Z_of_byte b2) 0]
  | b0 :: b1 :: b2 :: b3 :: r =>
      word_of_bytes (Z_of_byte b0) (Z_of_byte b1) (Z_of_byte b2) (Z_of_byte b3)
        :: pack r
  end.

(** [WordArray.create(typedArray)] and [WordArray.create(arrayBuffer)] *)
Definition WordArray_of_bytes (bs : bytes) : WordArray :=
  mkWordArray (pack bs) (Z.of_nat (length bs)).

(** [WordArray.create(words)]: every word is significant. *)
Definition WordArray_of_words (ws : list Z) : WordArray :=
  mkWordArray ws (4 * Z.of_nat (length ws)).

(** [CryptoJS.enc.Utf8.parse(s)], for a string that has a UTF-8 encoding.
    On a string with a surrogate that has no partner the library throws
    instead ([JSString.has_surrogate] tells which strings these are). *)
Definition Utf8_parse (s : string) : WordArray :=
  WordArray_of_bytes (bytes_of_string s).

(** The cipher library.  [AES_decrypt ciphertext key iv] is
    [CryptoJS.AES.decrypt({ciphertext}, key, {iv, mode: CBC, padding: Pkcs7})],
    which returns a word array or throws; [PBKDF2 passphrase salt keySize
    iterations] is [CryptoJS.PBKDF2(passphrase, salt, {keySize, iterations})]. *)
Class CryptoJS : Type := {
  AES_decrypt : WordArray -> WordArray -> WordArray -> Completion WordArray;
  PBKDF2 : string -> WordArray -> Z -> Z -> WordArray
}.

(** One entry of a loaded archive: the directory flag and the outcome of
    [file.async('arraybuffer')]. *)
Record ZipObject : Type := mkZipObject {
  dir : bool;
  async_arraybuffer : Completion bytes
}.

(** The archive library.  [loadAsync data] is the awaited
    [new JSZip().loadAsync(data)]: the entries of [zipData.files] in the
    order [Object.entries] lists them, or a rejection. *)
Class JSZip : Type := {
  loadAsync : bytes -> Completion (list (string * ZipObject))
}.

(** [(word >>> (24 - byteIndex * 8)) & 0xff] *)
Definition byte_of_word (word byteIndex : Z) : Z :=
  Int32.and (Int32.ushr word (24 - byteIndex * 8)) 255.

(** [new Uint8Array(n)]: a negative length is a RangeError. *)
Definition new_Uint8Array (n : Z) : Completion nat :=
  if n <? 0 then Throw (RangeError "Invalid typed array length")
  else Normal (Z.to_nat n).

(** The conversion loop at the end of both strategies:
    [bytes[i] = (words[i / 4] >>> (24 - (i % 4) * 8)) & 0xff] for every
    [i] below [sigBytes]; a word that is not there reads as undefined,
    which the shift turns into 0. *)
Definition to_ArrayBuffer (decrypted : WordArray) : Completion bytes :=
  let* len := new_Uint8Array (sigBytes decrypted) in
  Normal (map (fun i : nat =>
                 byte_of_Z (byte_of_word
                              (nth (Z.to_nat (Z.of_nat i / 4)) (words decrypted) 0)
                              (Z.of_nat i mod 4)))
              (seq 0 len)).

(** A string argument is truthy when it is given and not empty. *)
Definition given (s : option string) : bool :=
  match s with
  | Some EmptyString | None => false
  | Some _ => true
  end.

(** [data.slice(from)] and [data.slice(0, to)] on an [ArrayBuffer] *)
Definition slice_from (from : nat) (data : bytes) : bytes := skipn from data.
Definition slice_to (to : nat) (data : bytes) : bytes := firstn to data.

(** [CryptoService.isImageFile] *)
Definition imageExtensions : list string :=
  [".jpg"; ".jpeg"; ".png"; ".gif"; ".bmp"; ".webp"; ".svg"].

Definition file_ext (filename : string) : string :=
  substring (toLowerCase filename) (lastIndexOf filename "."%char).

Definition isImageFile (filename : string) : bool :=
  existsb (String.eqb (file_ext filename)) imageExtensions.

(** Modelled from the spec: the allow-list as the specification words it.
    The extension of a file name is the text after its last dot, and it is
    compared without regard to case. *)
Fixpoint extension (filename : string) : option string :=
  match filename with
  | EmptyString => None
  | String c r =>
      match extension r with
      | Some e => Some e
      | None => if Ascii.eqb c "."%char then Some r else None
      end
  end.

Definition allowList : list string :=
  ["jpg"; "jpeg"; "png"; "gif"; "bmp"; "webp"; "svg"].

Definition has_image_extension (filename : string) : bool :=
  match extension filename with
  | Some e => existsb (String.eqb (toLowerCase e)) allowList
  | None => false
  end.

(** [CryptoService.getMimeType]; it is called on accepted names only. *)
Definition mimeTypes : list (string * string) :=
  [(".jpg", "image/jpeg"); (".jpeg", "image/jpeg"); (".png", "image/png");
   (".gif", "image/gif"); (".bmp", "image/bmp"); (".webp", "image/webp");
   (".svg", "image/svg+xml")].

Fixpoint assoc (table : list (string * string)) (k : string) : option string :=
  match table with
  | [] => None
  | (k', v) :: r => if String.eqb k' k then Some v else assoc r k
  end.

Definition getMimeType (filename : string) : string :=
  match assoc mimeTypes (file_ext filename) with
  | Some m => if String.eqb m EmptyString then "image/jpeg" else m
  | None => "image/jpeg"
  end.

(** [CryptoService.arrayBufferToBase64]: [btoa] of the bytes. *)
Definition base64_alphabet : string :=
  "ABCDEFGHIJKLMNOPQRSTUVWXYZabcdefghijklmnopqrstuvwxyz0123456789+/".

Definition base64_char (n : Z) : string :=
  match String.get (Z.to_nat n) base64_alphabet with
  | Some c => String c EmptyString
  | None => EmptyString
  end.

Fixpoint arrayBufferToBase64 (buffer : bytes) : string :=
  match buffer with
  | [] => EmptyString
  | [b0] =>
      let x := Z_of_byte b0 in
      (base64_char (x / 4) ++ base64_char (x mod 4 * 16) ++ "==")%string
  | [b0; b1] =>
      let x := Z_of_byte b0 in
      let y := Z_of_byte b1 in
      (base64_char (x / 4) ++ base64_char (x mod 4 * 16 + y / 16)
         ++ base64_char (y mod 16 * 4) ++ "=")%string
  | b0 :: b1 :: b2 :: r =>
      let x := Z_of_byte b0 in
      let y := Z_of_byte b1 in
      let z := Z_of_byte b2 in
      (base64_char (x / 4) ++ base64_char (x mod 4 * 16 + y / 16)
         ++ base64_char (y mod 16 * 4 + z / 64) ++ base64_char (z mod 64)
         ++ arrayBufferToBase64 r)%string
  end.

(** [DecryptionResult] *)
Record DecryptionResult : Type := mkResult {
  success : bool;
  files : option (gmap string string);
  error : option string
}.

Definition failure (reason : string) : DecryptionResult :=
  mkResult false None (Some reason).

Definition succeeded (fs : gmap string string) : DecryptionResult :=
  mkResult true (Some fs) None.

(** The two decryption strategies, for the record of which were tried. *)
Inductive Strategy : Type := DirectKey | PassphraseSalt.

(** Byte [i] of a word array, counting big-endian over 4-byte words. *)
Definition WordArray_byte (wa : WordArray) (i : nat) : Z :=
  (Int32.to_uint32 (nth (Z.to_nat (Z.of_nat i / 4)) (words wa) 0)
     / 256 ^ (3 - Z.of_nat i mod 4)) mod 256.

(** The significant bytes of [wa] are the bytes [plaintext]. *)
Definition holds (wa : WordArray) (plaintext : bytes) : Prop :=
  sigBytes wa = Z.of_nat (length plaintext) /\
  forall (i : nat) (b : byte), plaintext !! i = Some b -> WordArray_byte wa i = Z_of_byte b.

Section Engine.
Context `{CryptoJS} `{JSZip}.

Definition decryptAES_try (encryptedData : bytes) (key : string) (iv : option string)
  : Completion bytes :=
  let encrypted := WordArray_of_bytes encryptedData in
  let keyWordArray := Utf8_parse key in
  let '(ivWordArray, ciphertext) :=
    if given iv then (Utf8_parse (default EmptyString iv), encrypted)
    else (WordArray_of_bytes (slice_to 16 encryptedData),
          WordArray_of_bytes (slice_from 16 encryptedData)) in
  let* decrypted := AES_decrypt ciphertext keyWordArray ivWordArray in
  to_ArrayBuffer decrypted.

(** [CryptoService.decryptAES]: [None] is [null]. *)
Definition decryptAES (encryptedData : bytes) (key : string) (iv : option string)
  : option bytes :=
  match decryptAES_try encryptedData key iv with
  | Normal b => Some b
  | Throw _ => None
  end.

Definition decryptAESWithSalt_try (encryptedData : bytes) (passphrase : string)
  : Completion bytes :=
  let salt := slice_to 8 encryptedData in
  let encrypted := slice_from 8 encryptedData in
  let keyIv := PBKDF2 passphrase (WordArray_of_bytes salt) 12 1000 in
  let key := WordArray_of_words (firstn 8 (words keyIv)) in
  let iv := WordArray_of_words (firstn 4 (skipn 8 (words keyIv))) in
  let* decrypted := AES_decrypt (WordArray_of_bytes encrypted) key iv in
  to_ArrayBuffer decrypted.

(** [CryptoService.decryptAESWithSalt]: [None] is [null]. *)
Definition decryptAESWithSalt (encryptedData : bytes) (passphrase : string)
  : option bytes :=
  match decryptAESWithSalt_try encryptedData passphrase with
  | Normal b => Some b
  | Throw _ => None
  end.

(** Lines 130-135: the direct-key strategy, then the salted one when the
    first gave [null].  The first component lists the strategies that were
    called, in call order. *)
Definition decrypt_stage (encryptedData : bytes) (key : string) (iv : option string)
  : list Strategy * option bytes :=
  match decryptAES encryptedData key iv with
  | Some decryptedData => ([DirectKey], Some decryptedData)
  | None => ([DirectKey; PassphraseSalt], decryptAESWithSalt encryptedData key)
  end.

(** The entries the loop keeps: not a directory, an image by its name, and
    readable. *)
Definition readable (file : ZipObject) : bool :=
  match async_arraybuffer file with
  | Normal _ => true
  | Throw _ => false
  end.

Definition accepted (entry : string * ZipObject) : bool :=
  negb (dir (snd entry)) && has_image_extension (fst entry) && readable (snd entry).

(** One turn of the loop over the archive entries.  A fault while reading
    the entry is caught and logged; the entry is then left out. *)
Definition process_entry (acc : gmap string string) (entry : string * ZipObject)
  : gmap string string :=
  let '(filename, file) := entry in
  if negb (dir file) && isImageFile filename then
    match async_arraybuffer file with
    | Normal fileData =>
        let base64 := arrayBufferToBase64 fileData in
        let mimeType := getMimeType filename in
        <[filename := ("data:" ++ mimeType ++ ";base64," ++ base64)%string]> acc
    | Throw _ => acc
    end
  else acc.

Definition extract_files (entries : list (string * ZipObject)) : gmap string string :=
  fold_left process_entry entries ∅.

(** The test of the loop on one entry, with the outcome of reading it: the
    entry is stored when it is not a directory, [isImageFile] accepts its
    name, and reading it does not throw. *)
Definition kept (entry : string * ZipObject) : bool :=
  negb (dir (snd entry)) && isImageFile (fst entry) && readable (snd entry).

Definition decryptAndExtractZip_try
  (encryptedData : bytes) (key : string) (iv : option string)
  : Completion DecryptionResult :=
  match snd (decrypt_stage encryptedData key iv) with
  | None => Normal (failure "Failed to decrypt data")
  | Some decryptedData =>
      let* zipData := loadAsync decryptedData in
      let files := extract_files zipData in
      if (Z.of_nat (size files) =? 0)
      then Normal (failure "No image files found in archive")
      else Normal (succeeded files)
  end.

Definition decryptAndExtractZip_catch (e : JSError) : Completion DecryptionResult :=
  Normal (failure (message_or e "Unknown error")).

Definition decryptAndExtractZip_body
  (encryptedData : bytes) (key : string) (iv : option string)
  : Completion DecryptionResult :=
  try_catch (decryptAndExtractZip_try encryptedData key iv) decryptAndExtractZip_catch.

(** [CryptoService.decryptAndExtractZip], awaited.  The body never throws
    (see the theorems); the [Throw] branch is there to make the function
    total. *)
Definition decryptAndExtractZip
  (encryptedData : bytes) (key : string) (iv : option string) : DecryptionResult :=
  match decryptAndExtractZip_body encryptedData key iv with
  | Normal r => r
  | Throw e => failure (message_or e "Unknown error")
  end.

End Engine.

(** *** The two sender conventions

    The sender is not part of the repository; these follow the
    specification's words.  [AES_encrypt plaintext key iv] is the sender's
    cipher: AES in CBC mode with PKCS#7 padding. *)

Section Sender.
Context `{CryptoJS}.
Variable AES_encrypt : bytes -> WordArray -> WordArray -> bytes.

(** The library's decryption undoes the sender's encryption. *)
Definition cipher_inverts : Prop :=
  forall (plaintext : bytes) (key iv : WordArray),
    exists wa,
      AES_decrypt (WordArray_of_bytes (AES_encrypt plaintext key iv)) key iv = Normal wa
      /\ holds wa plaintext.

(** Modelled from the spec: the direct-key convention.  The key is the
    UTF-8 bytes of the key material; the 16-byte IV is sent first, the
    ciphertext after it. *)
Definition send_direct (keyMaterial : string) (iv plaintext : bytes) : bytes :=
  iv ++ AES_encrypt plaintext (Utf8_parse keyMaterial) (WordArray_of_bytes iv).

(** Modelled from the spec: the passphrase+salt convention.  48 bytes are
    stretched from the passphrase and the 8-byte salt with 1000 iterations;
    the first 32 are the key, the last 16 the IV; the salt is sent first,
    the ciphertext after it. *)
Definition send_salted (passphrase : string) (salt plaintext : bytes) : bytes :=
  let stretched := words (PBKDF2 passphrase (WordArray_of_bytes salt) 12 1000) in
  salt ++ AES_encrypt plaintext
            (WordArray_of_words (firstn 8 stretched))
            (WordArray_of_words (firstn 4 (skipn 8 stretched))).

End Sender.

(** *** Reading a base64 text back

    Modelled from the base64 standard (RFC 4648), not from the repository:
    the decoding that undoes [btoa], as whoever loads a data URL applies
    it.  Four characters give three bytes, and a group that ends in one or
    two [=] gives two bytes or one and ends the text. *)

Fixpoint index_in (alphabet : string) (c : ascii) (i : Z) : Z :=
  match alphabet with
  | EmptyString => 0
  | String a r => if Ascii.eqb a c then i else index_in r c (i + 1)
  end.

Definition base64_index (c : ascii) : Z := index_in base64_alphabet c 0.

Fixpoint base64_decode (text : string) : bytes :=
  match text with
  | String c0 (String c1 (String c2 (String c3 r))) =>
      let a := base64_index c0 in
      let b := base64_index c1 in
      let c := base64_index c2 in
      let d := base64_index c3 in
      if Ascii.eqb c2 "="%char then [byte_of_Z (a * 4 + b / 16)]
      else if Ascii.eqb c3 "="%char then
        [byte_of_Z (a * 4 + b / 16); byte_of_Z (b mod 16 * 16 + c / 4)]
      else
        byte_of_Z (a * 4 + b / 16) :: byte_of_Z (b mod 16 * 16 + c / 4)
          :: byte_of_Z (c mod 4 * 64 + d) :: base64_decode r
  | _ => []
  end.

End Crypto.

(** ** Stand-in libraries

    Small instances of the two library interfaces, on which the statements
    below are run: a cipher that pads and unpads as the real one does and
    leaves the bytes as they are, and an archive library that finds a
    given list of entries whatever the bytes. *)

Module StandIn.
Import Crypto.
Local Open Scope Z_scope.

(** PKCS#7 with 16-byte blocks: between 1 and 16 bytes, each holding
    their number. *)
Definition pad_length (plaintext : bytes) : nat := (16 - length plaintext mod 16)%nat.

Definition pkcs7_pad (plaintext : bytes) : bytes :=
  plaintext ++ replicate (pad_length plaintext) (byte_of_Z (Z.of_nat (pad_length plaintext))).

Definition null_encrypt (plaintext : bytes) (_ _ : WordArray) : bytes :=
  pkcs7_pad plaintext.

(** The library's way of unpadding: the last significant byte is taken
    off [sigBytes]; nothing is checked. *)
Definition unpad (data : WordArray) : WordArray :=
  let n := if 0 <? sigBytes data
           then WordArray_byte data (Z.to_nat (sigBytes data - 1)) else 0 in
  mkWordArray (words data) (sigBytes data - n).

Definition null_decrypt (ciphertext _ _ : WordArray) : Completion WordArray :=
  Normal (unpad ciphertext).

(** Twelve words that depend on the passphrase and the salt. *)
Definition stretch (passphrase : string) (salt : WordArray) (keySize iterations : Z)
  : WordArray :=
  WordArray_of_words
    (map (fun i : nat => Z.of_nat (String.length passphrase) + sigBytes salt + Z.of_nat i)
       (seq 0 (Z.to_nat keySize))).

Definition null_cipher : CryptoJS :=
  {| AES_decrypt := null_decrypt; PBKDF2 := stretch |}.

(** An archive library that always finds [entries]. *)
Definition archive_of (entries : list (string * ZipObject)) : JSZip :=
  {| loadAsync := fun _ => Normal entries |}.

(** Bytes written as numbers. *)
Definition bytes_of (l : list Z) : bytes := map byte_of_Z l.

(** Thirty-two bytes that the stand-in cipher decrypts, by the direct-key
    strategy, to the empty plaintext: an IV and one block of padding. *)
Definition decryptable : bytes :=
  bytes_of [0; 0; 0; 0; 0; 0; 0; 0; 0; 0; 0; 0; 0; 0; 0; 0;
            16; 16; 16; 16; 16; 16; 16; 16; 16; 16; 16; 16; 16; 16; 16; 16].

Definition text_file : ZipObject := mkZipObject false (Normal (bytes_of [104; 105])).
Definition image_file : ZipObject := mkZipObject false (Normal (bytes_of [137; 80; 78; 71])).
Definition folder : ZipObject := mkZipObject true (Normal []).
Definition damaged_file : ZipObject := mkZipObject false (Throw (Error "Corrupted zip")).

(** An archive library that rejects the empty plaintext and finds
    [entries] in every other. *)
Definition archive_unless_empty (entries : list (string * ZipObject)) : JSZip :=
  {| loadAsync := fun data =>
       match data with
       | [] => Throw (Error "Corrupted zip: can't find end of central directory")
       | _ => Normal entries
       end |}.

(** Thirty-two bytes whose last is 255: the stand-in cipher takes 255 off
    a length of 16, then of 24, and both strategies end in a RangeError. *)
Definition undecryptable : bytes :=
  bytes_of [0; 0; 0; 0; 0; 0; 0; 0; 0; 0; 0; 0; 0; 0; 0; 0;
            9; 9; 9; 9; 9; 9; 9; 9; 9; 9; 9; 9; 9; 9; 9; 255].

End StandIn.

(** ** The channel manager ([websocket.ts], [SecureWebSocketService])

    The service object, the sockets it has created, the promises its
    [connect] calls have returned and the timers it has set are one state.
    The client calls [connect] and [disconnect]; the platform delivers
    socket events and fires timers. *)

Module Channel.
Local Open Scope Z_scope.

Inductive ConnectionStatus : Type := disconnected | connecting | connected | error.

Inductive ReadyState : Type := CONNECTING | OPEN | CLOSING | CLOSED.

Inductive PromiseState : Type :=
  | Pending
  | Resolved
  | Rejected (reason : string).

(** A socket made by [new WebSocket(url)].  Its four handlers close over
    the service and over the [resolve] and [reject] of the [connect] call
    that made it, which is promise number [sock_promise]. *)
Record Socket : Type := mkSocket {
  sock_url : string;
  readyState : ReadyState;
  sock_promise : nat
}.

(** What a [setTimeout] callback does: the connection timeout of the
    [connect] call with promise [promise], or the retry set by
    [reconnect]. *)
Inductive TimerKind : Type :=
  | ConnectionTimeout (promise : nat)
  | Reconnect.

(** A timer is kept after it has fired, so that its number stays the number
    [setTimeout] gave it. *)
Record Timer : Type := mkTimer {
  kind : TimerKind;
  delay : Z;
  fired : bool
}.

(** [WebSocketMessage] as passed to [onMessage]. *)
Inductive Message : Type :=
  | encrypted_zip (data : list byte)
  | parsed_text (message : JSON.value).

Inductive ConsoleLine : Type :=
  | log_connected
  | log_closed
  | log_reconnecting (attempt max : Z)
  | log_error (what : string).

Record State : Type := mkState {
  (* the fields of the service *)
  ws : option nat;
  url : string;
  reconnectAttempts : Z;
  (* the platform *)
  sockets : list Socket;
  promises : list PromiseState;
  timers : list Timer;
  (* what the callbacks and the console have received, oldest first *)
  statuses : list ConnectionStatus;
  errors : list string;
  messages : list Message;
  console : list ConsoleLine
}.

Definition maxReconnectAttempts : Z := 3.
Definition reconnectDelay : Z := 1000.

(** [new SecureWebSocketService()] *)
Definition initial : State :=
  mkState None EmptyString 0 [] [] [] [] [] [] [].

(** The platform's check of the address in [new WebSocket(url)]: a bad
    address is a SyntaxError. *)
Class Platform : Type := { url_ok : string -> bool }.

(** *** Field updates *)

Definition onStatusChange (st : ConnectionStatus) (s : State) : State :=
  mkState (ws s) (url s) (reconnectAttempts s) (sockets s) (promises s) (timers s)
    (statuses s ++ [st]) (errors s) (messages s) (console s).

Definition onError (e : string) (s : State) : State :=
  mkState (ws s) (url s) (reconnectAttempts s) (sockets s) (promises s) (timers s)
    (statuses s) (errors s ++ [e]) (messages s) (console s).

Definition onMessage (m : Message) (s : State) : State :=
  mkState (ws s) (url s) (reconnectAttempts s) (sockets s) (promises s) (timers s)
    (statuses s) (errors s) (messages s ++ [m]) (console s).

Definition console_log (l : ConsoleLine) (s : State) : State :=
  mkState (ws s) (url s) (reconnectAttempts s) (sockets s) (promises s) (timers s)
    (statuses s) (errors s) (messages s) (console s ++ [l]).

Definition set_ws (w : option nat) (s : State) : State :=
  mkState w (url s) (reconnectAttempts s) (sockets s) (promises s) (timers s)
    (statuses s) (errors s) (messages s) (console s).

Definition set_url (u : string) (s : State) : State :=
  mkState (ws s) u (reconnectAttempts s) (sockets s) (promises s) (timers s)
    (statuses s) (errors s) (messages s) (console s).

Definition set_reconnectAttempts (n : Z) (s : State) : State :=
  mkState (ws s) (url s) n (sockets s) (promises s) (timers s)
    (statuses s) (errors s) (messages s) (console s).

Definition set_sockets (l : list Socket) (s : State) : State :=
  mkState (ws s) (url s) (reconnectAttempts s) l (promises s) (timers s)
    (statuses s) (errors s) (messages s) (console s).

Definition set_promises (l : list PromiseState) (s : State) : State :=
  mkState (ws s) (url s) (reconnectAttempts s) (sockets s) l (timers s)
    (statuses s) (errors s) (messages s) (console s).

Definition set_timers (l : list Timer) (s : State) : State :=
  mkState (ws s) (url s) (reconnectAttempts s) (sockets s) (promises s) l
    (statuses s) (errors s) (messages s) (console s).

(** *** The platform's side of sockets, promises and timers *)

Definition set_readyState (i : nat) (r : ReadyState) (s : State) : State :=
  set_sockets
    (alter (fun k => mkSocket (sock_url k) r (sock_promise k)) i (sockets s)) s.

Definition readyState_of (s : State) (i : nat) : option ReadyState :=
  readyState <$> sockets s !! i.

(** [socket.close()]: a socket that is connecting or open starts closing;
    otherwise nothing happens. *)
Definition socket_close (i : nat) (s : State) : State :=
  match readyState_of s i with
  | Some CONNECTING | Some OPEN => set_readyState i CLOSING s
  | _ => s
  end.

(** [resolve()] and [reject(reason)] settle a promise that is pending and do
    nothing to a settled one. *)
Definition settle (p : nat) (outcome : PromiseState) (s : State) : State :=
  match promises s !! p with
  | Some Pending => set_promises (<[p := outcome]> (promises s)) s
  | _ => s
  end.

Definition resolve (p : nat) : State -> State := settle p Resolved.
Definition reject (p : nat) (reason : string) : State -> State :=
  settle p (Rejected reason).

(** [setTimeout(callback, delay)] *)
Definition setTimeout (k : TimerKind) (d : Z) (s : State) : State :=
  set_timers (timers s ++ [mkTimer k d false]) s.

(** *** The methods and handlers of the service *)

Section Service.
Context `{Platform}.

(** [connect(url)].  The promise it returns is the next promise number.
    The [try] block sets the address, reports [connecting], makes the
    socket, installs the handlers and arms the 10000 ms timeout; when the
    constructor throws, the [catch] block reports [error] and rejects. *)
Definition connect (u : string) (s : State) : State :=
  let p := length (promises s) in
  let s := set_promises (promises s ++ [Pending]) s in
  let s := set_url u s in
  let s := onStatusChange connecting s in
  if url_ok u then
    let i := length (sockets s) in
    let s := set_sockets (sockets s ++ [mkSocket u CONNECTING p]) s in
    let s := set_ws (Some i) s in
    setTimeout (ConnectionTimeout p) 10000 s
  else
    let s := console_log (log_error "Failed to create WebSocket:") s in
    let s := onStatusChange error s in
    reject p "SyntaxError" s.

(** [ws.onopen] of the socket made for promise [p] *)
Definition onopen (p : nat) (s : State) : State :=
  let s := console_log log_connected s in
  let s := set_reconnectAttempts 0 s in
  let s := onStatusChange connected s in
  resolve p s.

(** [reconnect()] *)
Definition reconnect (s : State) : State :=
  let s := set_reconnectAttempts (reconnectAttempts s + 1) s in
  let s := console_log (log_reconnecting (reconnectAttempts s) maxReconnectAttempts) s in
  setTimeout Reconnect (reconnectDelay * reconnectAttempts s) s.

(** The callback that [reconnect] hands to [setTimeout]. *)
Definition reconnect_callback (s : State) : State :=
  if reconnectAttempts s <=? maxReconnectAttempts then connect (url s) s else s.

(** A frame of [ws.onmessage]: [event.data] is an [ArrayBuffer] or a
    string. *)
Inductive Frame : Type :=
  | Binary (data : list byte)
  | Text (data : string).

Definition onmessage (f : Frame) (s : State) : State :=
  match f with
  | Binary data => onMessage (encrypted_zip data) s
  | Text data =>
      match JSON.parse data with
      | Normal message => onMessage (parsed_text message) s
      | Throw _ =>
          let s := console_log (log_error "Failed to parse WebSocket message:") s in
          onError "Failed to parse message" s
      end
  end.

(** [ws.onerror] of the socket made for promise [p] *)
Definition onerror (p : nat) (s : State) : State :=
  let s := console_log (log_error "WebSocket error:") s in
  let s := onStatusChange error s in
  let s := onError "Connection error" s in
  reject p "WebSocket connection failed" s.

(** [ws.onclose] *)
Definition onclose (wasClean : bool) (s : State) : State :=
  let s := console_log log_closed s in
  let s := onStatusChange disconnected s in
  if negb wasClean && (reconnectAttempts s <? maxReconnectAttempts)
  then reconnect s else s.

(** [this.ws?.readyState !== WebSocket.OPEN] *)
Definition ws_not_open (s : State) : bool :=
  match ws s with
  | Some i =>
      match readyState_of s i with
      | Some OPEN => false
      | _ => true
      end
  | None => true
  end.

(** The connection timeout callback of the [connect] call with promise
    [p]; [this.ws] is the socket the service holds when the timer fires. *)
Definition timeout_callback (p : nat) (s : State) : State :=
  if ws_not_open s then
    let s := match ws s with Some i => socket_close i s | None => s end in
    reject p "Connection timeout" s
  else s.

(** [disconnect()] *)
Definition disconnect (s : State) : State :=
  let s :=
    match ws s with
    | Some i => set_ws None (socket_close i s)
    | None => s
    end in
  onStatusChange disconnected s.

(** [getStatus()] *)
Definition getStatus (s : State) : ConnectionStatus :=
  match ws s with
  | None => disconnected
  | Some i =>
      match readyState_of s i with
      | Some CONNECTING => connecting
      | Some OPEN => connected
      | Some CLOSING | Some CLOSED => disconnected
      | None => error
      end
  end.

(** *** Events

    The client's calls, the events the platform delivers to a socket, and
    the firing of a timer.  A socket opens only while connecting, receives
    frames only while open or closing, raises errors and closes only before
    it is closed; closing is its last event.  When the server starts the
    closing handshake an open socket becomes closing and no event is
    delivered.  A timer fires once, at any moment after it was set: its
    delay is recorded but time is not, so the timers may fire in every
    order. *)
Inductive Event : Type :=
  | Connect (u : string)
  | Disconnect
  | SockOpen (i : nat)
  | SockMessage (i : nat) (f : Frame)
  | SockError (i : nat)
  | SockClose (i : nat) (wasClean : bool)
  | TimerFire (k : nat)
  | SockClosing (i : nat).

Definition ReadyState_eqb (a b : ReadyState) : bool :=
  match a, b with
  | CONNECTING, CONNECTING | OPEN, OPEN | CLOSING, CLOSING | CLOSED, CLOSED => true
  | _, _ => false
  end.

Definition mark_fired (k : nat) (s : State) : State :=
  set_timers (alter (fun t => mkTimer (kind t) (delay t) true) k (timers s)) s.

Definition step (s : State) (e : Event) : option State :=
  match e with
  | Connect u => Some (connect u s)
  | Disconnect => Some (disconnect s)
  | SockOpen i =>
      match sockets s !! i with
      | Some k =>
          if ReadyState_eqb (readyState k) CONNECTING
          then Some (onopen (sock_promise k) (set_readyState i OPEN s))
          else None
      | None => None
      end
  | SockMessage i f =>
      match sockets s !! i with
      | Some k =>
          if ReadyState_eqb (readyState k) OPEN || ReadyState_eqb (readyState k) CLOSING
          then Some (onmessage f s) else None
      | None => None
      end
  | SockError i =>
      match sockets s !! i with
      | Some k =>
          if ReadyState_eqb (readyState k) CLOSED then None
          else Some (onerror (sock_promise k) s)
      | None => None
      end
  | SockClose i wasClean =>
      match sockets s !! i with
      | Some k =>
          if ReadyState_eqb (readyState k) CLOSED then None
          else Some (onclose wasClean (set_readyState i CLOSED s))
      | None => None
      end
  | TimerFire k =>
      match timers s !! k with
      | Some t =>
          if fired t then None
          else
            let s := mark_fired k s in
            Some (match kind t with
                  | ConnectionTimeout p => timeout_callback p s
                  | Reconnect => reconnect_callback s
                  end)
      | None => None
      end
  | SockClosing i =>
      match sockets s !! i with
      | Some k =>
          if ReadyState_eqb (readyState k) OPEN
          then Some (set_readyState i CLOSING s) else None
      | None => None
      end
  end.

(** A run: the events in order; [None] when one of them cannot happen. *)
Fixpoint run (s : State) (es : list Event) : option State :=
  match es with
  | [] => Some s
  | e :: r =>
      match step s e with
      | Some s' => run s' r
      | None => None
      end
  end.

(** The status the client last heard of. *)
Definition status (s : State) : option ConnectionStatus := last (statuses s).

(** Sockets that have not had their close event. *)
Definition live (k : Socket) : bool := negb (ReadyState_eqb (readyState k) CLOSED).

(** Sockets that are connecting or open. *)
Definition active (k : Socket) : bool :=
  ReadyState_eqb (readyState k) CONNECTING || ReadyState_eqb (readyState k) OPEN.

Definition is_reconnect (t : Timer) : bool :=
  match kind t with Reconnect => true | ConnectionTimeout _ => false end.

Definition pending_reconnect (t : Timer) : bool := is_reconnect t && negb (fired t).

Definition fired_reconnect (t : Timer) : bool := is_reconnect t && fired t.

Definition count {A : Type} (P : A -> bool) (l : list A) : nat :=
  length (List.filter P l).

(** The delays of the retries set so far, in the order they were set. *)
Definition reconnect_delays (s : State) : list Z :=
  map delay (List.filter is_reconnect (timers s)).

(** Linear backoff: the n-th retry waits n times the base delay. *)
Definition backoff (n : nat) : list Z :=
  map (fun k : nat => reconnectDelay * Z.of_nat k) (seq 1 n).

(** Nothing is left that could act on its own: every socket has had its
    close event and no retry is waiting. *)
Definition quiescent (s : State) : Prop :=
  count live (sockets s) = 0%nat /\ count pending_reconnect (timers s) = 0%nat.

(** Live sockets and waiting retries together. *)
Definition load (s : State) : nat :=
  (count live (sockets s) + count pending_reconnect (timers s))%nat.

(** A state from which a run of failures is counted: the retry counter is
    zero and no retry has been set, as after [connect] on a new service and
    after a connection has opened; the address is one the platform accepts;
    and if every socket has closed the client has been told. *)
Definition fresh `{Platform} (s : State) : Prop :=
  reconnectAttempts s = 0 /\
  count is_reconnect (timers s) = 0%nat /\
  url_ok (url s) = true /\
  (count live (sockets s) = 0%nat -> sockets s <> [] -> status s = Some disconnected).

(** What holds along a run of failures that started with [n0] sockets and
    the address [u]: the retry counter is the number of retries set, their
    delays are the linear backoff, there are at most three of them, the
    address has not changed, one socket has been made for every retry that
    fired, each to the same address, and whenever every socket has closed
    the client has been told. *)
Definition retry_invariant (u : string) (n0 : nat) (s : State) : Prop :=
  let n := count is_reconnect (timers s) in
  reconnectAttempts s = Z.of_nat n /\
  reconnect_delays s = backoff n /\
  (n <= 3)%nat /\
  url s = u /\
  length (sockets s) = (n0 + count fired_reconnect (timers s))%nat /\
  (forall (i : nat) (k : Socket),
      (n0 <= i)%nat -> sockets s !! i = Some k -> sock_url k = u) /\
  (count live (sockets s) = 0%nat -> sockets s <> [] -> status s = Some disconnected).

(** Events of the platform other than a connection being established. *)
Definition failure_event (e : Event) : bool :=
  match e with
  | Connect _ | Disconnect | SockOpen _ => false
  | _ => true
  end.

(** The client calls [connect] only when no socket is live and no retry is
    waiting. *)
Fixpoint careful (s : State) (es : list Event) : Prop :=
  match es with
  | [] => True
  | e :: r =>
      match e with
      | Connect _ =>
          (count live (sockets s) + count pending_reconnect (timers s) = 0)%nat
      | _ => True
      end /\
      match step s e with
      | Some s' => careful s' r
      | None => True
      end
  end.

End Service.

(** A platform that accepts the addresses with a [ws://] or [wss://]
    scheme. *)
Definition ws_schemes : Platform := {| url_ok := Descriptor.ws_prefixed |}.

(** The state a fresh service is in after the events [es] on that
    platform. *)
Definition after (es : list Event) : State :=
  default initial (@run ws_schemes initial es).

(** [send(message)].  [stringified] is the completion of
    [JSON.stringify(message)].  The result is the state (the console gets a
    line when the [catch] block runs), the text handed to the socket when
    one was, and the returned boolean. *)
Definition send (stringified : Completion string) (s : State)
  : State * option string * bool :=
  match ws s with
  | Some i =>
      match readyState_of s i with
      | Some OPEN =>
          match stringified with
          | Normal text => (s, Some text, true)
          | Throw _ =>
              (console_log (log_error "Failed to send message:") s, None, false)
          end
      | _ => (s, None, false)
      end
  | None => (s, None, false)
  end.

(** Events other than a close that was not clean. *)
Definition clean_event (e : Event) : bool :=
  match e with
  | SockClose _ false => false
  | _ => true
  end.

(** The delays [reconnect] can ask for. *)
Definition retry_delays : list Z :=
  [reconnectDelay * 1; reconnectDelay * 2; reconnectDelay * 3].

(** What holds of the service whatever has happened: the counter is within
    its bound, every retry waits one of the three delays, and the socket
    the service holds is one the platform made. *)
Definition bounded (s : State) : Prop :=
  0 <= reconnectAttempts s <= maxReconnectAttempts /\
  Forall (fun d => In d retry_delays) (reconnect_delays s) /\
  (forall i, ws s = Some i -> (i < length (sockets s))%nat).

(** No retry was ever set, or none since the last connection opened and
    none was set before. *)
Definition no_retry (s : State) : Prop :=
  reconnectAttempts s = 0 /\ count is_reconnect (timers s) = 0%nat.

(** Some socket is open or in its closing handshake. *)
Definition open_or_closing (k : Socket) : bool :=
  ReadyState_eqb (readyState k) OPEN || ReadyState_eqb (readyState k) CLOSING.

Definition has_connection (s : State) : Prop :=
  exists (i : nat) (k : Socket), sockets s !! i = Some k /\ open_or_closing k = true.

(** The calls of [connect] by the client that made a socket. *)
Definition connect_calls `{Platform} (es : list Event) : nat :=
  count (fun e => match e with Connect u => url_ok u | _ => false end) es.

End Channel.

(** ** The orchestrator (the page component [Index])

    The component's state variables, the toasts it has shown and the calls
    it has made on the channel manager are one state; each handler is a
    function on it. *)

Module Orchestrator.
Import Crypto.

Inductive AppState : Type := idle | scanning | connecting | connected | decrypting | viewing.

(** The value kept in [qrData], at its declared type. *)
Record Descriptor : Type := mkDescriptor { d_url : string; d_key : option string }.

Record Toast : Type := mkToast { title : string; description : string; destructive : bool }.

Inductive WsCall : Type := call_connect (u : string) | call_disconnect.

Record State : Type := mkState {
  appState : AppState;
  connectionStatus : Channel.ConnectionStatus;
  images : gmap string string;
  qrData : option Descriptor;
  isProcessing : bool;
  toasts : list Toast;
  calls : list WsCall
}.

Definition initial : State :=
  mkState idle Channel.disconnected ∅ None false [] [].

Definition setAppState (a : AppState) (s : State) : State :=
  mkState a (connectionStatus s) (images s) (qrData s) (isProcessing s) (toasts s) (calls s).

Definition setConnectionStatus (c : Channel.ConnectionStatus) (s : State) : State :=
  mkState (appState s) c (images s) (qrData s) (isProcessing s) (toasts s) (calls s).

Definition setImages (i : gmap string string) (s : State) : State :=
  mkState (appState s) (connectionStatus s) i (qrData s) (isProcessing s) (toasts s) (calls s).

Definition setQrData (q : option Descriptor) (s : State) : State :=
  mkState (appState s) (connectionStatus s) (images s) q (isProcessing s) (toasts s) (calls s).

Definition setIsProcessing (b : bool) (s : State) : State :=
  mkState (appState s) (connectionStatus s) (images s) (qrData s) b (toasts s) (calls s).

Definition toast (t d : string) (bad : bool) (s : State) : State :=
  mkState (appState s) (connectionStatus s) (images s) (qrData s) (isProcessing s)
    (toasts s ++ [mkToast t d bad]) (calls s).

Definition call (c : WsCall) (s : State) : State :=
  mkState (appState s) (connectionStatus s) (images s) (qrData s) (isProcessing s)
    (toasts s) (calls s ++ [c]).

(** [a || b] on strings that may be undefined *)
Definition or_default (a : option string) (b : string) : string :=
  match a with
  | Some EmptyString | None => b
  | Some x => x
  end.

(** The handler installed as [wsService.onStatusChange] *)
Definition onStatusChange (status : Channel.ConnectionStatus) (s : State) : State :=
  let s := setConnectionStatus status s in
  match status with
  | Channel.connected =>
      toast "Connected" "Successfully connected to secure server" false
        (setAppState connected s)
  | Channel.error =>
      toast "Connection Failed" "Failed to connect to server" true
        (setAppState idle s)
  | _ => s
  end.

(** The handler installed as [wsService.onError] *)
Definition onError (e : string) (s : State) : State :=
  toast "Connection Error" e true s.

(** The parsed value read at the declared type [{ url: string; key?: string }]. *)
Definition as_descriptor (v : JSON.value) : Descriptor :=
  match v with
  | JSON.JObject fs =>
      mkDescriptor
        (match JSON.get_field fs "url" with Some (JSON.JString u) => u | _ => EmptyString end)
        (match JSON.get_field fs "key" with Some (JSON.JString k) => Some k | _ => None end)
  | _ => mkDescriptor EmptyString None
  end.

(** [handleQRScan] up to its [await]: an unusable code goes back to idle;
    otherwise the descriptor is kept and the channel is asked to connect. *)
Definition handleQRScan (result : string) (s : State) : State :=
  match Descriptor.parseQRData result with
  | None =>
      setAppState idle
        (toast "Invalid QR Code" "QR code does not contain valid connection data" true s)
  | Some parsedData =>
      let d := as_descriptor parsedData in
      call (call_connect (d_url d)) (setAppState connecting (setQrData (Some d) s))
  end.

(** [handleQRScan] after its [await], when the promise was rejected. *)
Definition handleQRScan_rejected (s : State) : State := setAppState idle s.

(** [qrData?.key] when it is truthy *)
Definition key_of (q : option Descriptor) : option string :=
  match q with
  | Some d =>
      match d_key d with
      | Some EmptyString | None => None
      | Some k => Some k
      end
  | None => None
  end.

(** [handleEncryptedData] from the awaited result on: the [try] block's
    two branches, the [catch] block, then [finally]. *)
Definition handleEncryptedData_settle (result : Completion DecryptionResult) (s : State)
  : State :=
  let s :=
    match result with
    | Normal r =>
        match success r, files r with
        | true, Some fs =>
            toast "Images Loaded"
              ("Successfully decrypted " ++ pretty (size fs) ++ " images") false
              (setAppState viewing (setImages fs s))
        | _, _ =>
            setAppState connected
              (toast "Decryption Failed"
                 (or_default (error r) "Failed to decrypt and extract images") true s)
        end
    | Throw _ =>
        setAppState connected
          (toast "Decryption Error" "An error occurred during decryption" true s)
    end in
  setIsProcessing false s.

(** [handleEncryptedData] up to its [await]: [None] when it returned early
    for want of a key, otherwise the state and the key it decrypts with. *)
Definition handleEncryptedData_begin (captured : option Descriptor) (s : State)
  : State * option string :=
  match key_of captured with
  | None =>
      (toast "Missing Decryption Key" "No decryption key found in QR code" true s, None)
  | Some k => (setIsProcessing true (setAppState decrypting s), Some k)
  end.

Section WithLibraries.
Context `{CryptoJS} `{JSZip}.

(** [handleEncryptedData], with nothing happening during its [await].
    [captured] is the [qrData] its closure holds. *)
Definition handleEncryptedData (captured : option Descriptor)
  (encryptedData : bytes) (s : State) : State :=
  match handleEncryptedData_begin captured s with
  | (s, None) => s
  | (s, Some k) =>
      handleEncryptedData_settle
        (Normal (decryptAndExtractZip encryptedData k None)) s
  end.

End WithLibraries.

(** [resetApp] *)
Definition resetApp (s : State) : State :=
  setIsProcessing false (setQrData None (setImages ∅ (setAppState idle (call call_disconnect s)))).

(** The states a session can rest in and start again from. *)
Definition stable (a : AppState) : bool :=
  match a with
  | idle | connected => true
  | _ => false
  end.

(** [v === text] for the result of a property read *)
Definition strict_equals (v : option JSON.value) (text : string) : bool :=
  match v with
  | Some (JSON.JString x) => String.eqb x text
  | _ => false
  end.

(** The handler installed as [wsService.onMessage], for a message the
    channel made from a text frame.  Nothing in a parsed text is an
    [ArrayBuffer], so the first test fails whatever [type] holds.  Reading
    [type] off [null] throws inside the handler, whose promise nobody
    awaits: nothing changes.  The result is [None] when [error] holds a
    truthy value that is not a string, which the declared type of the
    message rules out. *)
Definition onMessage_text (message : JSON.value) (s : State) : option State :=
  match JSON.get message "type" with
  | Throw _ => Some s
  | Normal type =>
      if strict_equals type "error" then
        match JSON.get_field
                (match message with JSON.JObject fs => fs | _ => [] end) "error" with
        | Some (JSON.JString e) =>
            Some (toast "Server Error" (or_default (Some e) "Unknown server error") true s)
        | e =>
            if JSON.truthy e then None
            else Some (toast "Server Error" "Unknown server error" true s)
        end
      else Some s
  end.

Section Handlers.
Context `{CryptoJS} `{JSZip}.

(** The handler installed as [wsService.onMessage]; [captured] is the
    [qrData] that the [handleEncryptedData] it calls closed over. *)
Definition onMessage (captured : option Descriptor) (message : Channel.Message)
  (s : State) : option State :=
  match message with
  | Channel.encrypted_zip data => Some (handleEncryptedData captured data s)
  | Channel.parsed_text v => onMessage_text v s
  end.

(** What happens to the page: the callbacks of the channel, a scan and the
    rejection of its [connect], a payload reaching [handleEncryptedData]
    and its decryption settling (with anything in between), and the three
    buttons. *)
Inductive Event : Type :=
  | StatusChanged (status : Channel.ConnectionStatus)
  | ChannelError (e : string)
  | TextMessage (message : JSON.value)
  | Scanned (result : string)
  | ConnectRejected
  | PayloadArrived (captured : option Descriptor)
  | DecryptionSettled (encryptedData : bytes) (key : string)
  | ScanPressed
  | ScannerClosed
  | ResetPressed.

Definition step (s : State) (e : Event) : option State :=
  match e with
  | StatusChanged status => Some (onStatusChange status s)
  | ChannelError e => Some (onError e s)
  | TextMessage message => onMessage_text message s
  | Scanned result => Some (handleQRScan result s)
  | ConnectRejected => Some (handleQRScan_rejected s)
  | PayloadArrived captured => Some (fst (handleEncryptedData_begin captured s))
  | DecryptionSettled encryptedData key =>
      Some (handleEncryptedData_settle
              (Normal (decryptAndExtractZip encryptedData key None)) s)
  | ScanPressed => Some (setAppState scanning s)
  | ScannerClosed => Some (setAppState idle s)
  | ResetPressed => Some (resetApp s)
  end.

Fixpoint run (s : State) (es : list Event) : option State :=
  match es with
  | [] => Some s
  | e :: r =>
      match step s e with
      | Some s' => run s' r
      | None => None
      end
  end.

End Handlers.

(** The page shows the gallery. *)
Definition shows_gallery (s : State) : bool :=
  match appState s with
  | viewing => (0 <? Z.of_nat (size (images s)))%Z
  | _ => false
  end.



(** *** Rendering

    [new URL(text).host] of the platform: the host of an address it can
    parse, a TypeError otherwise. *)
Class URLPlatform : Type := { URL_host : string -> Completion string }.

(** Which of its three trees the page returns.  The main tree shows the
    host of the server whenever [qrData] is set. *)
Inductive View : Type :=
  | ScannerView
  | GalleryView (pictures : gmap string string)
  | MainView (server : option string).

(** The body of the component after its hooks: a fault while rendering is
    not caught anywhere and takes the whole tree down. *)
Definition render `{URLPlatform} (s : State) : Completion View :=
  match appState s with
  | scanning => Normal ScannerView
  | _ =>
      if shows_gallery s then Normal (GalleryView (images s))
      else
        match qrData s with
        | Some d =>
            let* host := URL_host (d_url d) in
            Normal (MainView (Some host))
        | None => Normal (MainView None)
        end
  end.

(** A small reader of addresses to run [render] on: the text up to the
    first [://] is the scheme and must not be empty, the host runs from
    there to the next slash and must not be empty. *)
Fixpoint after_scheme (text : string) : option string :=
  match text with
  | EmptyString => None
  | String _ r =>
      if JSString.startsWith text "://" then Some (JSString.drop 3 text)
      else after_scheme r
  end.

Fixpoint up_to_slash (text : string) : string :=
  match text with
  | EmptyString => EmptyString
  | String c r => if Ascii.eqb c "/"%char then EmptyString else String c (up_to_slash r)
  end.

Definition url_reader : URLPlatform :=
  {| URL_host := fun text =>
       if JSString.startsWith text "://" then Throw (TypeError "Invalid URL")
       else
         match after_scheme text with
         | Some rest =>
             match up_to_slash rest with
             | EmptyString => Throw (TypeError "Invalid URL")
             | host => Normal host
             end
         | None => Throw (TypeError "Invalid URL")
         end |}.

End Orchestrator.

(** ** The gallery (the component [ImageGallery])

    Of the component's state only the index of the picture shown is
    modelled; zoom and drag are floating-point arithmetic on the pointer
    position. *)

Module Gallery.
Local Open Scope Z_scope.

(** [nextImage] and [prevImage].  The test reads the [currentIndex] of the
    render the handler was made in; the update is applied to the index at
    the time it runs. *)
Definition nextImage (length rendered prev : Z) : Z :=
  if rendered <? length - 1 then prev + 1 else prev.

Definition prevImage (rendered prev : Z) : Z :=
  if 0 <? rendered then prev - 1 else prev.

(** What changes the index: the two arrows (buttons or keys) and a click on
    the thumbnail at [index]. *)
Inductive Event : Type :=
  | Next
  | Previous
  | Thumbnail (index : nat).

(** An event handled by the handlers of the latest render, for a gallery of
    [length] pictures; a thumbnail exists for each of them only. *)
Definition step (length : Z) (currentIndex : Z) (e : Event) : option Z :=
  match e with
  | Next => Some (nextImage length currentIndex currentIndex)
  | Previous => Some (prevImage currentIndex currentIndex)
  | Thumbnail index =>
      if Z.of_nat index <? length then Some (Z.of_nat index) else None
  end.

Fixpoint run (length : Z) (currentIndex : Z) (es : list Event) : option Z :=
  match es with
  | [] => Some currentIndex
  | e :: r =>
      match step length currentIndex e with
      | Some i => run length i r
      | None => None
      end
  end.

End Gallery.

(** * Theorems *)

(** ** [JSON.parse] *)

Section JSONFacts.
Import JSString JSON.
Local Abbreviation len := String.length.

Lemma after_char_length (c : ascii) (s r : string) :
  after_char c s = Some r -> len s = S (len r).
Proof.
  destruct s as [|a s]; cbn; [discriminate|].
  destruct (Ascii.eqb a c); [|discriminate]. now intros [= ->].
Qed.

Lemma skip_ws_length (s : string) : len (skip_ws s) <= len s.
Proof.
  induction s as [|c r IH]; cbn; [lia|]. destruct (is_ws c); cbn; lia.
Qed.

Lemma parse_chars_length (n : nat) : forall (s acc str r : string),
  len s <= n -> parse_chars s acc = Some (str, r) -> len r < len s.
Proof.
  induction n as [|n IH]; intros s acc str r Hn Hp.
  - destruct s; cbn in *; [discriminate | lia].
  - destruct s as [|c s]; [discriminate|]. cbn [parse_chars] in Hp. cbn [len] in *.
    destruct (Ascii.eqb c "034").
    { injection Hp as <- <-. lia. }
    destruct (Ascii.eqb c "\").
    { destruct s as [|e s']; [discriminate|]. cbn [len] in *.
      repeat match type of Hp with
             | (if ?b then _ else _) = _ => destruct b
             end;
        try (apply IH in Hp; [lia | lia]); try discriminate.
      destruct s' as [|h1 [|h2 [|h3 [|h4 s'']]]]; try discriminate.
      destruct (hex_of h1), (hex_of h2), (hex_of h3), (hex_of h4); try discriminate.
      apply IH in Hp; cbn [len] in *; lia. }
    destruct (nat_of_ascii c <? 32)%nat; [discriminate|].
    apply IH in Hp; lia.
Qed.

Lemma parse_digits_length (s : string) :
  forall (acc : N) (k : nat) (m : N) (j : nat) (r : string),
    parse_digits s acc k = (m, j, r) -> len r + j = len s + k.
Proof.
  induction s as [|c s IH]; intros acc k m j r Hp; cbn in Hp.
  - injection Hp as <- <- <-. reflexivity.
  - destruct (digit_of c).
    + apply IH in Hp. cbn. lia.
    + injection Hp as <- <- <-. reflexivity.
Qed.

Lemma parse_exponent_length (s r : string) (e : Z) :
  parse_exponent s = Some (e, r) -> len r <= len s.
Proof.
  unfold parse_exponent. destruct s as [|c s]; [intros [= <- <-]; lia|].
  destruct (Ascii.eqb c "e" || Ascii.eqb c "E"); [|intros [= <- <-]; lia].
  destruct (after_char "+" s) as [r1|] eqn:Hplus;
    [|destruct (after_char "-" s) as [r1|] eqn:Hminus];
    try apply after_char_length in Hplus; try apply after_char_length in Hminus;
    match goal with
    | |- context [parse_digits ?x 0%N 0] =>
        destruct (parse_digits x 0%N 0) as [[m j] r2] eqn:Hd
    end;
    apply parse_digits_length in Hd;
    (destruct j; [discriminate|]); intros [= <- <-]; cbn [len] in *; lia.
Qed.

Lemma parse_number_length (s r : string) (n : JNum) :
  parse_number s = Some (n, r) -> len r < len s.
Proof.
  unfold parse_number.
  assert (Hs1 : exists ng s1, len s1 <= len s /\
            match after_char "-" s with Some r0 => (true, r0) | None => (false, s) end
            = (ng, s1)).
  { destruct (after_char "-" s) as [r0|] eqn:E.
    - apply after_char_length in E. exists true, r0. split; [lia | reflexivity].
    - exists false, s. split; [lia | reflexivity]. }
  destruct Hs1 as (ng & s1 & Hle & ->).
  destruct s1 as [|c0 s1']; [discriminate|].
  destruct (parse_digits (String c0 s1') 0%N 0) as [[ip k] s2] eqn:Hd.
  apply parse_digits_length in Hd.
  destruct k as [|k]; [discriminate|].
  destruct (Ascii.eqb c0 "0" && negb (k =? 0)%nat); [discriminate|].
  destruct (after_char "." s2) as [r0|] eqn:Hdot.
  - apply after_char_length in Hdot.
    destruct (parse_digits r0 ip 0) as [[m j] s3] eqn:Hd2.
    apply parse_digits_length in Hd2.
    destruct j as [|j]; [discriminate|].
    destruct (parse_exponent s3) as [[e s4]|] eqn:He; [|discriminate].
    apply parse_exponent_length in He. cbv zeta. intros Heq. injection Heq as _ <-. cbn [len] in *. lia.
  - destruct (parse_exponent s2) as [[e s4]|] eqn:He; [|discriminate].
    apply parse_exponent_length in He. cbv zeta. intros Heq. injection Heq as _ <-. cbn [len] in *. lia.
Qed.

Lemma startsWith_drop (p s : string) :
  startsWith s p = true -> len (drop (len p) s) + len p = len s.
Proof.
  revert s. induction p as [|a p IH]; intros s H; [cbn; lia|].
  destruct s as [|b s]; [discriminate|]. cbn [startsWith] in H.
  destruct (Ascii.eqb a b); [|discriminate]. cbn. specialize (IH s H). lia.
Qed.

Lemma expect_length (lit : string) (v v' : value) (s r : string) :
  lit <> "" -> expect lit v s = Some (v', r) -> len r < len s.
Proof.
  unfold expect. intros Hne. destruct (startsWith s lit) eqn:E; [|discriminate].
  intros [= <- <-]. apply startsWith_drop in E. destruct lit; [congruence|cbn in *; lia].
Qed.

Lemma parse_fuel (f : nat) :
  (forall s v r,
      parse_value f s = Some (v, r) ->
      len r < len s /\
      forall f', len s - len r <= f' -> parse_value f' s = Some (v, r)) /\
  (forall s acc v r,
      parse_elements f s acc = Some (v, r) ->
      len r < len s /\
      forall f', len s - len r <= f' -> parse_elements f' s acc = Some (v, r)) /\
  (forall s acc v r,
      parse_members f s acc = Some (v, r) ->
      len r < len s /\
      forall f', len s - len r <= f' -> parse_members f' s acc = Some (v, r)).
Proof.
  induction f as [|f (IHV & IHE & IHM)]; [repeat split; discriminate|].
  split; [|split].
  - intros s v r H. cbn [parse_value] in H.
    destruct (skip_ws s) as [|c r0] eqn:Hs; [discriminate|].
    pose proof (skip_ws_length s) as Hsl. rewrite Hs in Hsl. cbn [len] in Hsl.
    pose proof (skip_ws_length r0) as Hr0.
    destruct (Ascii.eqb c "{") eqn:E1.
    { destruct (after_char "}" (skip_ws r0)) as [r'|] eqn:Ea.
      - injection H as <- <-. apply after_char_length in Ea as Hl.
        pose proof (skip_ws_length r').
        split; [lia|]. intros [|f'] Hf'; [lia|].
        cbn [parse_value]. now rewrite Hs, E1, Ea.
      - apply IHM in H as [Hlen Hfuel].
        split; [lia|]. intros [|f'] Hf'; [lia|].
        cbn [parse_value]. rewrite Hs, E1, Ea. apply Hfuel. lia. }
    destruct (Ascii.eqb c "[") eqn:E2.
    { destruct (after_char "]" (skip_ws r0)) as [r'|] eqn:Ea.
      - injection H as <- <-. apply after_char_length in Ea as Hl.
        pose proof (skip_ws_length r').
        split; [lia|]. intros [|f'] Hf'; [lia|].
        cbn [parse_value]. now rewrite Hs, E1, E2, Ea.
      - apply IHE in H as [Hlen Hfuel].
        split; [lia|]. intros [|f'] Hf'; [lia|].
        cbn [parse_value]. rewrite Hs, E1, E2, Ea. apply Hfuel. lia. }
    destruct (Ascii.eqb c "034") eqn:E3.
    { destruct (parse_chars r0 "") as [[str r']|] eqn:Ec; [|discriminate].
      injection H as <- <-.
      apply (parse_chars_length (len r0)) in Ec as Hl; [|lia].
      pose proof (skip_ws_length r').
      split; [lia|]. intros [|f'] Hf'; [lia|].
      cbn [parse_value]. now rewrite Hs, E1, E2, E3, Ec. }
    destruct (Ascii.eqb c "t") eqn:E4.
    { destruct (expect "true" (JBool true) (String c r0)) as [[v' r']|] eqn:Ee;
        [|discriminate].
      cbn [option_map fst snd] in H. injection H as <- <-.
      apply expect_length in Ee as Hl; [|discriminate].
      pose proof (skip_ws_length r').
      split; [cbn [len] in *; lia|]. intros [|f'] Hf'; [cbn [len] in *; lia|].
      cbn [parse_value]. now rewrite Hs, E1, E2, E3, E4, Ee. }
    destruct (Ascii.eqb c "f") eqn:E5.
    { destruct (expect "false" (JBool false) (String c r0)) as [[v' r']|] eqn:Ee;
        [|discriminate].
      cbn [option_map fst snd] in H. injection H as <- <-.
      apply expect_length in Ee as Hl; [|discriminate].
      pose proof (skip_ws_length r').
      split; [cbn [len] in *; lia|]. intros [|f'] Hf'; [cbn [len] in *; lia|].
      cbn [parse_value]. now rewrite Hs, E1, E2, E3, E4, E5, Ee. }
    destruct (Ascii.eqb c "n") eqn:E6.
    { destruct (expect "null" JNull (String c r0)) as [[v' r']|] eqn:Ee;
        [|discriminate].
      cbn [option_map fst snd] in H. injection H as <- <-.
      apply expect_length in Ee as Hl; [|discriminate].
      pose proof (skip_ws_length r').
      split; [cbn [len] in *; lia|]. intros [|f'] Hf'; [cbn [len] in *; lia|].
      cbn [parse_value]. now rewrite Hs, E1, E2, E3, E4, E5, E6, Ee. }
    destruct (parse_number (String c r0)) as [[n r']|] eqn:En; [|discriminate].
    injection H as <- <-.
    apply parse_number_length in En as Hl.
    pose proof (skip_ws_length r').
    split; [cbn [len] in *; lia|]. intros [|f'] Hf'; [cbn [len] in *; lia|].
    cbn [parse_value]. now rewrite Hs, E1, E2, E3, E4, E5, E6, En.
  - intros s acc v r H. cbn [parse_elements] in H.
    destruct (parse_value f s) as [[v1 rest]|] eqn:Hv; [|discriminate].
    apply IHV in Hv as [Hlen1 Hfuel1].
    destruct (after_char "," rest) as [r1|] eqn:Ec.
    + apply IHE in H as [Hlen2 Hfuel2]. apply after_char_length in Ec as Hl.
      split; [lia|]. intros [|f'] Hf'; [lia|].
      cbn [parse_elements]. rewrite (Hfuel1 f') by lia. rewrite Ec. apply Hfuel2. lia.
    + destruct (after_char "]" rest) as [r1|] eqn:Eb; [|discriminate].
      injection H as <- <-. apply after_char_length in Eb as Hl.
      pose proof (skip_ws_length r1).
      split; [lia|]. intros [|f'] Hf'; [lia|].
      cbn [parse_elements]. rewrite (Hfuel1 f') by lia. now rewrite Ec, Eb.
  - intros s acc v r H. cbn [parse_members] in H.
    pose proof (skip_ws_length s) as Hsl.
    destruct (after_char "034" (skip_ws s)) as [r0|] eqn:Eq; [|discriminate].
    apply after_char_length in Eq as Hq.
    destruct (parse_chars r0 "") as [[k r1]|] eqn:Ek; [|discriminate].
    apply (parse_chars_length (len r0)) in Ek as Hk; [|lia].
    pose proof (skip_ws_length r1) as Hr1.
    destruct (after_char ":" (skip_ws r1)) as [r2|] eqn:Ecol; [|discriminate].
    apply after_char_length in Ecol as Hcol.
    destruct (parse_value f r2) as [[v1 rest]|] eqn:Hv; [|discriminate].
    apply IHV in Hv as [Hlen1 Hfuel1].
    destruct (after_char "," rest) as [r3|] eqn:Ec.
    + apply IHM in H as [Hlen2 Hfuel2]. apply after_char_length in Ec as Hl.
      split; [lia|]. intros [|f'] Hf'; [lia|].
      cbn [parse_members]. rewrite Eq, Ek, Ecol, (Hfuel1 f') by lia. rewrite Ec.
      apply Hfuel2. lia.
    + destruct (after_char "}" rest) as [r3|] eqn:Eb; [|discriminate].
      injection H as <- <-. apply after_char_length in Eb as Hl.
      pose proof (skip_ws_length r3).
      split; [lia|]. intros [|f'] Hf'; [lia|].
      cbn [parse_members]. rewrite Eq, Ek, Ecol, (Hfuel1 f') by lia. now rewrite Ec, Eb.
Qed.

(** Whatever fuel finds a value spanning the whole text, [JSON.parse]
    finds it: running out of fuel is never what makes it throw. *)
Lemma parse_fuel_enough (text : string) (f : nat) (v : value) :
  parse_value f text = Some (v, "") -> JSON.parse text = Normal v.
Proof.
  intros H. destruct (parse_fuel f) as (HV & _).
  apply HV in H as [_ Hfuel]. unfold JSON.parse.
  rewrite (Hfuel (2 * len text + 4)) by (cbn [len]; lia). reflexivity.
Qed.

End JSONFacts.

(** ** The descriptor parser *)

Section DescriptorFacts.
Import JSString JSON Descriptor.

Lemma parse_value_w (fuel : nat) (r : string) :
  parse_value fuel (String "w" r) = None.
Proof. destruct fuel as [|f]; reflexivity. Qed.

(** A text that starts with the letter w is not JSON. *)
Lemma parse_w (r : string) : exists e, JSON.parse (String "w" r) = Throw e.
Proof.
  unfold JSON.parse. rewrite parse_value_w. eauto.
Qed.

Lemma ws_prefixed_w (qrData : string) :
  ws_prefixed qrData = true -> exists r, qrData = String "w" r.
Proof.
  unfold ws_prefixed. destruct qrData as [|c r]; [discriminate|].
  cbn [startsWith]. destruct (Ascii.eqb "w" c) eqn:E; [|discriminate].
  apply Ascii.eqb_eq in E. subst c. eauto.
Qed.

Lemma parsed_not_ws_prefixed (qrData : string) (parsed : value) :
  JSON.parse qrData = Normal parsed -> ws_prefixed qrData = false.
Proof.
  intros Hp. destruct (ws_prefixed qrData) eqn:E; [|reflexivity].
  apply ws_prefixed_w in E as [r ->].
  destruct (parse_w r) as [e He]. congruence.
Qed.

(** What [parseQRData] returns, by the outcome of [JSON.parse]. *)
Lemma parseQRData_cases (qrData : string) :
  parseQRData qrData =
  match JSON.parse qrData with
  | Normal parsed => if truthy (url_of parsed) then Some parsed else None
  | Throw _ => if ws_prefixed qrData then Some (bare_url qrData) else None
  end.
Proof.
  unfold parseQRData, parseQRData_body, parseQRData_try, parseQRData_catch,
    try_catch, cbind, url_of.
  destruct (JSON.parse qrData) as [parsed|e] eqn:Hp; [|reflexivity].
  destruct parsed; cbn; try reflexivity.
  (* null: the property read throws and the catch block runs *)
  now rewrite (parsed_not_ws_prefixed _ _ Hp).
Qed.

(** C4, as the code has it.  The parser never throws.  A text that parses to
    an object whose [url] field holds a non-empty string is returned as
    exactly that object, whatever its other fields and their order; in
    particular a descriptor with [url] and an optional [key].  A text that
    does not parse to an object and starts with neither [ws://] nor
    [wss://] gives [None]. *)
Theorem parseQRData_total_exact_on_url_descriptors :
  (forall qrData, exists r, parseQRData_body qrData = Normal r) /\
  (forall qrData fields address,
      address <> EmptyString ->
      get_field fields "url" = Some (JString address) ->
      JSON.parse qrData = Normal (JObject fields) ->
      parseQRData qrData = Some (JObject fields)) /\
  (forall qrData address key,
      address <> EmptyString ->
      JSON.parse qrData = Normal (descriptor "url" address key) ->
      parseQRData qrData = Some (descriptor "url" address key)) /\
  (forall qrData,
      is_object (JSON.parse qrData) = false ->
      ws_prefixed qrData = false ->
      parseQRData qrData = None).
Proof.
  assert (Hobject : forall qrData fields address,
             address <> EmptyString ->
             get_field fields "url" = Some (JString address) ->
             JSON.parse qrData = Normal (JObject fields) ->
             parseQRData qrData = Some (JObject fields)).
  { intros qrData fields address Hne Hurl Hp.
    rewrite parseQRData_cases, Hp. unfold url_of, JSON.get. rewrite Hurl. cbn.
    destruct address; [congruence | reflexivity]. }
  split; [|split; [exact Hobject|split]].
  - intros qrData.
    unfold parseQRData_body, try_catch, parseQRData_catch.
    destruct (parseQRData_try qrData); eauto.
  - intros qrData address key Hne Hp.
    apply (Hobject qrData _ address Hne); [reflexivity | exact Hp].
  - intros qrData Hobj Hws.
    rewrite parseQRData_cases.
    destruct (JSON.parse qrData) as [parsed|e]; [|now rewrite Hws].
    destruct parsed; cbn in *; congruence.
Qed.

Lemma parseQRData_total_exact_on_url_descriptors_witness :
  parseQRData (js "{'key':'k', 'url':'wss://h/p'}")
    = Some (JObject [("key", JString "k"); ("url", JString "wss://h/p")]) /\
  parseQRData (js "{'url':'wss://h/p','key':'k'}")
    = Some (descriptor "url" "wss://h/p" (Some "k")) /\
  parseQRData "hello" = None.
Proof.
  destruct parseQRData_total_exact_on_url_descriptors as (_ & Hobject & Hexact & Hnone).
  split; [|split].
  - apply (Hobject _ _ "wss://h/p"); [discriminate | reflexivity | reflexivity].
  - apply Hexact; [discriminate | reflexivity].
  - apply Hnone; reflexivity.
Defined.

(** C4, as stated, fails: the descriptor of the specification's end-to-end
    scenario, an object with an [endpoint] field and a [key] field, parses
    as JSON and is turned down. *)
Lemma parseQRData_endpoint_descriptor_rejected :
  JSON.parse (js "{'endpoint':'wss://h/p','key':'k'}")
    = Normal (descriptor "endpoint" "wss://h/p" (Some "k")) /\
  parseQRData (js "{'endpoint':'wss://h/p','key':'k'}") = None.
Proof. split; reflexivity. Qed.

(** C10.  When the text parses as JSON the parser returns the parsed value
    itself exactly when its [url] property is truthy, whatever else the
    value holds and whatever the address looks like; the test for the
    [ws://] and [wss://] prefixes stands in the [catch] block and decides
    the result only when [JSON.parse] threw.  The three examples: an [http]
    address with extra fields and a number as [url] are accepted, an empty
    [url] is not. *)
Theorem parseQRData_accepts_truthy_url :
  (forall qrData,
      parseQRData qrData =
      match JSON.parse qrData with
      | Normal parsed => if truthy (url_of parsed) then Some parsed else None
      | Throw _ => if ws_prefixed qrData then Some (bare_url qrData) else None
      end) /\
  parseQRData (js "{'url':'http://example.com','port':8080,'tags':['a']}")
    = Some (JObject [("url", JString "http://example.com");
                     ("port", JNumber (mkJNum false 8080 0));
                     ("tags", JArray [JString "a"])]) /\
  parseQRData (js "{'url':7}") = Some (JObject [("url", JNumber (mkJNum false 7 0))]) /\
  parseQRData (js "{'url':'','key':'k'}") = None.
Proof.
  split; [exact parseQRData_cases|].
  repeat split; reflexivity.
Qed.

End DescriptorFacts.

(** ** The decryption engine *)

Section Int32Facts.
Local Open Scope Z_scope.

Lemma to_int32_small (x : Z) : -2147483648 <= x < 2147483648 -> Int32.to_int32 x = x.
Proof.
  unfold Int32.to_int32. change (2^31) with 2147483648. change (2^32) with 4294967296.
  intros. rewrite Z.mod_small; lia.
Qed.

Lemma to_int32_mod256 (x : Z) : Int32.to_int32 x mod 256 = x mod 256.
Proof.
  unfold Int32.to_int32.
  change (2^32) with (256 * 16777216). change (2^31) with (256 * 8388608).
  Z.div_mod_to_equations. lia.
Qed.

Lemma land_255 (x : Z) : Z.land x 255 = x mod 256.
Proof. change 255 with (Z.ones 8). rewrite Z.land_ones by lia. reflexivity. Qed.

Lemma and_255 (x : Z) : Int32.and x 255 = x mod 256.
Proof.
  unfold Int32.and. rewrite (to_int32_small 255) by lia.
  rewrite land_255, to_int32_mod256.
  apply to_int32_small. pose proof (Z.mod_pos_bound x 256). lia.
Qed.

Lemma ushr_div (w s : Z) : 0 <= s < 32 -> Int32.ushr w s = Int32.to_uint32 w / 2 ^ s.
Proof.
  intros Hs. unfold Int32.ushr. rewrite Z.mod_small by lia.
  apply Z.shiftr_div_pow2. lia.
Qed.

Lemma to_uint32_to_int32 (x : Z) : Int32.to_uint32 (Int32.to_int32 x) = Int32.to_uint32 x.
Proof.
  unfold Int32.to_uint32, Int32.to_int32.
  change (2^31) with 2147483648. change (2^32) with 4294967296.
  Z.div_mod_to_equations. lia.
Qed.

Lemma to_uint32_mul (a b : Z) :
  Int32.to_uint32 (Int32.to_int32 a * b) = Int32.to_uint32 (a * b).
Proof.
  unfold Int32.to_uint32.
  rewrite <- (Z.mul_mod_idemp_l (Int32.to_int32 a)), <- (Z.mul_mod_idemp_l a) by discriminate.
  fold (Int32.to_uint32 (Int32.to_int32 a)). now rewrite to_uint32_to_int32.
Qed.

Lemma to_uint32_shl (a n : Z) :
  0 <= n < 32 -> Int32.to_uint32 (Int32.shl a n) = Int32.to_uint32 (a * 2 ^ n).
Proof.
  intros Hn. unfold Int32.shl. rewrite to_uint32_to_int32.
  rewrite (Z.mod_small n 32) by lia. rewrite Z.shiftl_mul_pow2 by lia.
  apply to_uint32_mul.
Qed.

Lemma to_uint32_lor (a b : Z) :
  Int32.to_uint32 (Z.lor a b) = Z.lor (Int32.to_uint32 a) (Int32.to_uint32 b).
Proof.
  unfold Int32.to_uint32. rewrite <- !Z.land_ones by lia.
  apply Z.land_lor_distr_l.
Qed.

Lemma to_uint32_or (a b : Z) :
  Int32.to_uint32 (Int32.or a b) = Z.lor (Int32.to_uint32 a) (Int32.to_uint32 b).
Proof.
  unfold Int32.or. now rewrite to_uint32_to_int32, to_uint32_lor, !to_uint32_to_int32.
Qed.

(** Or-ing into the zero low bits of a shifted value adds. *)
Lemma lor_disjoint (h n lo : Z) :
  0 <= n -> 0 <= lo < 2 ^ n -> Z.lor (h * 2 ^ n) lo = h * 2 ^ n + lo.
Proof.
  intros Hn Hlo. symmetry. apply Z.add_nocarry_lor.
  apply Z.bits_inj'. intros m Hm.
  rewrite Z.land_spec, Z.bits_0.
  destruct (Z.lt_ge_cases m n) as [Hlt|Hge].
  - rewrite Z.mul_pow2_bits_low by lia. reflexivity.
  - rewrite <- (Z.mod_small lo (2 ^ n)) by lia.
    rewrite Z.mod_pow2_bits_high by lia. apply andb_false_r.
Qed.

End Int32Facts.

Section PackingFacts.
Import Crypto.
Local Open Scope Z_scope.

(** The loop's shift and mask read the bytes of a word most significant
    first. *)
Lemma byte_of_word_spec (w j : Z) :
  0 <= j < 4 ->
  byte_of_word w j = (Int32.to_uint32 w / 256 ^ (3 - j)) mod 256.
Proof.
  intros Hj. unfold byte_of_word.
  rewrite and_255, ushr_div by lia.
  replace (24 - j * 8) with (8 * (3 - j)) by lia.
  rewrite Z.pow_mul_r by lia. reflexivity.
Qed.

Lemma to_uint32_word_of_bytes (b0 b1 b2 b3 : Z) :
  0 <= b0 < 256 -> 0 <= b1 < 256 -> 0 <= b2 < 256 -> 0 <= b3 < 256 ->
  Int32.to_uint32 (word_of_bytes b0 b1 b2 b3)
  = b0 * 16777216 + b1 * 65536 + b2 * 256 + b3.
Proof.
  intros H0 H1 H2 H3. unfold word_of_bytes.
  rewrite !to_uint32_or, !to_uint32_shl by lia.
  change (Int32.to_uint32 0) with 0. rewrite Z.lor_0_l.
  unfold Int32.to_uint32.
  change (2 ^ 32) with 4294967296. change (2 ^ 24) with 16777216.
  change (2 ^ 16) with 65536. change (2 ^ 8) with 256. change (2 ^ 0) with 1.
  rewrite (Z.mod_small (b0 * 16777216)) by lia.
  rewrite (Z.mod_small (b1 * 65536)) by lia.
  rewrite (Z.mod_small (b2 * 256)) by lia.
  rewrite (Z.mod_small (b3 * 1)) by lia.
  change (b0 * 16777216) with (b0 * 2 ^ 24).
  rewrite (lor_disjoint b0 24 (b1 * 65536)) by (change (2 ^ 24) with 16777216; lia).
  replace (b0 * 2 ^ 24 + b1 * 65536) with ((b0 * 256 + b1) * 2 ^ 16)
    by (change (2 ^ 24) with 16777216; change (2 ^ 16) with 65536; lia).
  rewrite (lor_disjoint (b0 * 256 + b1) 16 (b2 * 256))
    by (change (2 ^ 16) with 65536; lia).
  replace ((b0 * 256 + b1) * 2 ^ 16 + b2 * 256)
    with ((b0 * 65536 + b1 * 256 + b2) * 2 ^ 8)
    by (change (2 ^ 16) with 65536; change (2 ^ 8) with 256; lia).
  rewrite (lor_disjoint (b0 * 65536 + b1 * 256 + b2) 8 (b3 * 1))
    by (change (2 ^ 8) with 256; lia).
  change (2 ^ 8) with 256. lia.
Qed.

Lemma Z_of_byte_range (b : byte) : 0 <= Z_of_byte b < 256.
Proof.
  unfold Z_of_byte. pose proof (Byte.to_N_bounded b). lia.
Qed.

Lemma byte_of_Z_of_byte (b : byte) : byte_of_Z (Z_of_byte b) = b.
Proof.
  unfold byte_of_Z. rewrite Z.mod_small by apply Z_of_byte_range.
  unfold Z_of_byte. rewrite N2Z.id, Byte.of_to_N. reflexivity.
Qed.

Lemma WordArray_byte_skip (w : Z) (ws : list Z) (k k' : Z) (i : nat) :
  WordArray_byte (mkWordArray (w :: ws) k) (4 + i) = WordArray_byte (mkWordArray ws k') i.
Proof.
  unfold WordArray_byte. cbn [words].
  replace (Z.of_nat (4 + i)) with (Z.of_nat i + 1 * 4) by lia.
  rewrite Z.div_add, Z_mod_plus_full by lia.
  rewrite Z2Nat.inj_add by (try apply Z.div_pos; lia).
  rewrite Nat.add_comm. reflexivity.
Qed.

Lemma first_word_bytes (b0 b1 b2 b3 : Z) (ws : list Z) (k : Z) :
  0 <= b0 < 256 -> 0 <= b1 < 256 -> 0 <= b2 < 256 -> 0 <= b3 < 256 ->
  let wa := mkWordArray (word_of_bytes b0 b1 b2 b3 :: ws) k in
  WordArray_byte wa 0 = b0 /\ WordArray_byte wa 1 = b1 /\
  WordArray_byte wa 2 = b2 /\ WordArray_byte wa 3 = b3.
Proof.
  intros H0 H1 H2 H3 wa. unfold wa, WordArray_byte. cbn [words].
  change (Z.to_nat (Z.of_nat 0 / 4)) with 0%nat.
  change (Z.to_nat (Z.of_nat 1 / 4)) with 0%nat.
  change (Z.to_nat (Z.of_nat 2 / 4)) with 0%nat.
  change (Z.to_nat (Z.of_nat 3 / 4)) with 0%nat.
  cbn [nth]. rewrite to_uint32_word_of_bytes by assumption.
  change (256 ^ (3 - Z.of_nat 0 mod 4)) with 16777216.
  change (256 ^ (3 - Z.of_nat 1 mod 4)) with 65536.
  change (256 ^ (3 - Z.of_nat 2 mod 4)) with 256.
  change (256 ^ (3 - Z.of_nat 3 mod 4)) with 1.
  repeat split; Z.div_mod_to_equations; lia.
Qed.

(** Packing keeps every byte where the big-endian count finds it. *)
Lemma pack_byte (bs : bytes) (k : Z) (i : nat) (b : byte) :
  bs !! i = Some b -> WordArray_byte (mkWordArray (pack bs) k) i = Z_of_byte b.
Proof.
  remember (length bs) as n eqn:Hn. revert bs Hn i b.
  induction n as [n IH] using lt_wf_ind. intros bs Hn i b Hi.
  assert (Hz : 0 <= 0 < 256) by lia.
  destruct bs as [|b0 [|b1 [|b2 [|b3 r]]]]; cbn [pack].
  - discriminate.
  - destruct (first_word_bytes (Z_of_byte b0) 0 0 0 [] k)
      as (E0 & _); auto using Z_of_byte_range.
    destruct i as [|i]; cbn in Hi; [|discriminate].
    injection Hi as <-. exact E0.
  - destruct (first_word_bytes (Z_of_byte b0) (Z_of_byte b1) 0 0 [] k)
      as (E0 & E1 & _); auto using Z_of_byte_range.
    destruct i as [|[|i]]; cbn in Hi; try discriminate; injection Hi as <-; assumption.
  - destruct (first_word_bytes (Z_of_byte b0) (Z_of_byte b1) (Z_of_byte b2) 0 [] k)
      as (E0 & E1 & E2 & _); auto using Z_of_byte_range.
    destruct i as [|[|[|i]]]; cbn in Hi; try discriminate; injection Hi as <-; assumption.
  - destruct (first_word_bytes (Z_of_byte b0) (Z_of_byte b1) (Z_of_byte b2)
                (Z_of_byte b3) (pack r) k)
      as (E0 & E1 & E2 & E3); auto using Z_of_byte_range.
    destruct i as [|[|[|[|i]]]]; cbn in Hi;
      try (injection Hi as <-; assumption).
    change (S (S (S (S i)))) with (4 + i)%nat.
    rewrite (WordArray_byte_skip _ _ k k).
    apply (IH (length r)); [cbn in Hn; lia | reflexivity | exact Hi].
Qed.

Lemma WordArray_of_bytes_holds (bs : bytes) : holds (WordArray_of_bytes bs) bs.
Proof.
  split; [reflexivity|]. intros i b Hi. now apply pack_byte.
Qed.

(** The conversion loop returns the bytes the word array holds. *)
Lemma to_ArrayBuffer_holds (wa : WordArray) (plaintext : bytes) :
  holds wa plaintext -> to_ArrayBuffer wa = Normal plaintext.
Proof.
  intros [Hlen Hbytes]. unfold to_ArrayBuffer, new_Uint8Array, cbind.
  rewrite Hlen. destruct (Z.ltb_spec (Z.of_nat (length plaintext)) 0) as [?|_]; [lia|].
  rewrite Nat2Z.id. f_equal.
  apply list_eq. intros i.
  rewrite list_lookup_fmap.
  destruct (plaintext !! i) as [b|] eqn:Hi.
  - rewrite lookup_seq_lt by (apply lookup_lt_Some in Hi; lia). cbn.
    rewrite byte_of_word_spec by (apply Z.mod_pos_bound; lia).
    fold (WordArray_byte wa i). rewrite (Hbytes i b Hi), byte_of_Z_of_byte.
    reflexivity.
  - rewrite lookup_seq_ge by (apply lookup_ge_None in Hi; lia).
    reflexivity.
Qed.

Lemma Z_of_byte_of_Z (z : Z) : 0 <= z < 256 -> Z_of_byte (byte_of_Z z) = z.
Proof.
  intros Hz. unfold byte_of_Z, Z_of_byte. rewrite Z.mod_small by exact Hz.
  destruct (Byte.of_N (Z.to_N z)) as [b|] eqn:E.
  - apply Byte.to_of_N in E. rewrite E. lia.
  - apply Byte.of_N_None_iff in E. lia.
Qed.

End PackingFacts.

Section StandInFacts.
Import Crypto StandIn.
Local Open Scope Z_scope.

Lemma pad_length_range (plaintext : bytes) : (1 <= pad_length plaintext <= 16)%nat.
Proof.
  unfold pad_length. pose proof (Nat.mod_upper_bound (length plaintext) 16). lia.
Qed.

(** The stand-in cipher meets the law asked of the cipher library. *)
Lemma null_cipher_inverts : @cipher_inverts null_cipher null_encrypt.
Proof.
  intros plaintext key iv.
  exists (unpad (WordArray_of_bytes (pkcs7_pad plaintext))).
  split; [reflexivity|].
  pose proof (pad_length_range plaintext) as Hp.
  assert (Hlen : length (pkcs7_pad plaintext)
                 = (length plaintext + pad_length plaintext)%nat).
  { unfold pkcs7_pad. now rewrite length_app, length_replicate. }
  split.
  - unfold unpad, WordArray_of_bytes. cbn [sigBytes words].
    destruct (Z.ltb_spec 0 (Z.of_nat (length (pkcs7_pad plaintext)))) as [_|?]; [|lia].
    rewrite (pack_byte (pkcs7_pad plaintext) _ _
               (byte_of_Z (Z.of_nat (pad_length plaintext)))).
    + rewrite Z_of_byte_of_Z by lia. lia.
    + rewrite Hlen. unfold pkcs7_pad.
      rewrite lookup_app_r by lia.
      apply lookup_replicate_2. lia.
  - intros i b Hi. unfold unpad, WordArray_of_bytes. cbn [words].
    apply pack_byte. unfold pkcs7_pad. now apply lookup_app_l_Some.
Qed.

End StandInFacts.

Section EngineFacts.
Import Crypto.
Local Open Scope Z_scope.

(** C2.  Whenever the library's decryption undoes the sender's
    encryption, both sender conventions round-trip: what is sent under the
    direct-key convention with a 16-byte IV is decrypted by the first
    strategy to the very plaintext, and what is sent under the
    passphrase+salt convention with an 8-byte salt is decrypted by the second
    strategy to the very plaintext. *)
Theorem sender_conventions_round_trip `{CryptoJS}
  (AES_encrypt : bytes -> WordArray -> WordArray -> bytes)
  (Hinverts : cipher_inverts AES_encrypt) :
  (forall (keyMaterial : string) (iv plaintext : bytes),
      length iv = 16%nat ->
      decryptAES (send_direct AES_encrypt keyMaterial iv plaintext) keyMaterial None
      = Some plaintext) /\
  (forall (passphrase : string) (salt plaintext : bytes),
      length salt = 8%nat ->
      decryptAESWithSalt (send_salted AES_encrypt passphrase salt plaintext) passphrase
      = Some plaintext).
Proof.
  split.
  - intros keyMaterial iv plaintext Hiv.
    unfold decryptAES, decryptAES_try, send_direct, slice_to, slice_from.
    cbn [given].
    rewrite take_app_length', drop_app_length' by (symmetry; exact Hiv).
    destruct (Hinverts plaintext (Utf8_parse keyMaterial) (WordArray_of_bytes iv))
      as (wa & -> & Hwa).
    cbn [cbind]. now rewrite (to_ArrayBuffer_holds wa plaintext Hwa).
  - intros passphrase salt plaintext Hsalt.
    unfold decryptAESWithSalt, decryptAESWithSalt_try, send_salted, slice_to, slice_from.
    cbn zeta.
    rewrite take_app_length', drop_app_length' by (symmetry; exact Hsalt).
    match goal with
    | |- context [AES_decrypt (WordArray_of_bytes (AES_encrypt _ ?k ?v)) _ _] =>
        destruct (Hinverts plaintext k v) as (wa & -> & Hwa)
    end.
    cbn [cbind]. now rewrite (to_ArrayBuffer_holds wa plaintext Hwa).
Qed.

Lemma sender_conventions_round_trip_witness :
  @decryptAES StandIn.null_cipher
    (@send_direct StandIn.null_encrypt "0123456789abcdef"
       (StandIn.bytes_of [1; 2; 3; 4; 5; 6; 7; 8; 9; 10; 11; 12; 13; 14; 15; 16])
       (StandIn.bytes_of [80; 75; 3; 4; 255]))
    "0123456789abcdef" None
  = Some (StandIn.bytes_of [80; 75; 3; 4; 255]) /\
  @decryptAESWithSalt StandIn.null_cipher
    (@send_salted StandIn.null_cipher StandIn.null_encrypt "secret"
       (StandIn.bytes_of [1; 2; 3; 4; 5; 6; 7; 8])
       (StandIn.bytes_of [80; 75; 3; 4; 255]))
    "secret"
  = Some (StandIn.bytes_of [80; 75; 3; 4; 255]).
Proof.
  destruct (@sender_conventions_round_trip StandIn.null_cipher StandIn.null_encrypt
              null_cipher_inverts) as [Hdirect Hsalted].
  split.
  - apply Hdirect. reflexivity.
  - apply Hsalted. reflexivity.
Defined.

(** Neither the [try] block nor the [catch] block of
    [decryptAndExtractZip] lets a fault out. *)
Lemma decryptAndExtractZip_never_throws `{CryptoJS} `{JSZip}
  (encryptedData : bytes) (key : string) (iv : option string) :
  decryptAndExtractZip_body encryptedData key iv
  = Normal (decryptAndExtractZip encryptedData key iv).
Proof.
  unfold decryptAndExtractZip, decryptAndExtractZip_body, try_catch,
    decryptAndExtractZip_catch.
  destruct (decryptAndExtractZip_try encryptedData key iv); reflexivity.
Qed.

(** The result is a failure with a reason, or a success with a set of
    files that is not empty. *)
Lemma decryptAndExtractZip_outcome `{CryptoJS} `{JSZip}
  (encryptedData : bytes) (key : string) (iv : option string) :
  (exists reason, decryptAndExtractZip encryptedData key iv = failure reason) \/
  (exists fs, decryptAndExtractZip encryptedData key iv = succeeded fs /\ fs <> ∅).
Proof.
  unfold decryptAndExtractZip, decryptAndExtractZip_body, decryptAndExtractZip_try.
  destruct (snd (decrypt_stage encryptedData key iv)) as [plaintext|]; [|cbn; eauto].
  destruct (loadAsync plaintext) as [entries|e]; cbn [cbind try_catch]; [|cbn; eauto].
  destruct (Z.eqb_spec (Z.of_nat (size (extract_files entries))) 0) as [Hz|Hnz];
    cbn; [eauto|].
  right. eexists. split; [reflexivity|].
  intros Hempty. rewrite Hempty, map_size_empty in Hnz. lia.
Qed.

(** C1, as the code has it.  The direct-key strategy is called first; the
    passphrase+salt strategy is called exactly when the first gave nothing;
    the plaintext is that of the first strategy that gave one; when both
    give nothing the result is the failure [Failed to decrypt data], a
    value and not a thrown fault. *)
Theorem decrypt_strategies_in_order `{CryptoJS} `{JSZip}
  (encryptedData : bytes) (key : string) (iv : option string) :
  let direct := decryptAES encryptedData key iv in
  let salted := decryptAESWithSalt encryptedData key in
  let '(tried, plaintext) := decrypt_stage encryptedData key iv in
  head tried = Some DirectKey /\
  (PassphraseSalt ∈ tried <-> direct = None) /\
  tried = DirectKey :: match direct with Some _ => [] | None => [PassphraseSalt] end /\
  plaintext = match direct with Some p => Some p | None => salted end /\
  (direct = None -> salted = None ->
   decryptAndExtractZip_body encryptedData key iv
   = Normal (failure "Failed to decrypt data")).
Proof.
  intros direct salted. unfold decrypt_stage. fold direct. fold salted.
  destruct direct as [p|] eqn:Hd.
  - repeat split; try reflexivity; try discriminate.
    intros Hin. apply list_elem_of_singleton in Hin. discriminate.
  - repeat split; try reflexivity.
    + intros _. apply elem_of_cons. right. apply list_elem_of_singleton. reflexivity.
    + intros _ Hs.
      rewrite decryptAndExtractZip_never_throws. f_equal.
      unfold decryptAndExtractZip, decryptAndExtractZip_body, decryptAndExtractZip_try,
        decrypt_stage.
      fold direct. rewrite Hd. cbn [snd]. fold salted. rewrite Hs. reflexivity.
Qed.

Lemma decrypt_strategies_in_order_witness :
  @decryptAndExtractZip_body StandIn.null_cipher (StandIn.archive_of [])
    StandIn.undecryptable "k" None
  = Normal (failure "Failed to decrypt data").
Proof.
  pose proof (@decrypt_strategies_in_order StandIn.null_cipher (StandIn.archive_of [])
                StandIn.undecryptable "k" None) as Hc.
  cbv zeta in Hc.
  destruct (@decrypt_stage StandIn.null_cipher StandIn.undecryptable "k" None) as [tried plaintext].
  destruct Hc as (_ & _ & _ & _ & Hfail).
  apply Hfail; reflexivity.
Defined.

(** C1, as stated, fails on the reason: when both strategies give nothing
    the failure reads [Failed to decrypt data], not [unable to decrypt]. *)
Lemma both_strategies_fail_reason :
  @decryptAES StandIn.null_cipher StandIn.undecryptable "k" None = None /\
  @decryptAESWithSalt StandIn.null_cipher StandIn.undecryptable "k" = None /\
  @decryptAndExtractZip StandIn.null_cipher (StandIn.archive_of [])
    StandIn.undecryptable "k" None = failure "Failed to decrypt data" /\
  @decryptAndExtractZip StandIn.null_cipher (StandIn.archive_of [])
    StandIn.undecryptable "k" None <> failure "unable to decrypt".
Proof.
  repeat split; try reflexivity. discriminate.
Qed.

End EngineFacts.

(** ** The archive extractor *)

Section ExtractorFacts.
Import JSString Crypto.
Local Open Scope Z_scope.

Lemma string_strong_ind (P : string -> Prop) :
  (forall s, (forall t, (String.length t < String.length s)%nat -> P t) -> P s) ->
  forall s, P s.
Proof.
  intros Hstep s.
  assert (H : forall n t, (String.length t < n)%nat -> P t).
  { induction n as [|n IH]; intros t Ht; [lia|].
    apply Hstep. intros u Hu. apply IH. lia. }
  apply (H (S (String.length s))). lia.
Qed.

Lemma lower_ascii_dot (c : ascii) : lower_ascii c = "."%char -> c = "."%char.
Proof.
  destruct c as [[] [] [] [] [] [] [] []]; vm_compute; intros E; congruence.
Qed.

Lemma units_lower_ascii (c : ascii) : units (lower_ascii c) = units c.
Proof. destruct c as [[] [] [] [] [] [] [] []]; reflexivity. Qed.

Lemma units_continuation (c : ascii) :
  is_continuation c = true -> units c = 0%nat.
Proof. destruct c as [[] [] [] [] [] [] [] []]; vm_compute; congruence. Qed.

Lemma units_start (c : ascii) :
  is_continuation c = false -> (1 <= units c)%nat.
Proof. destruct c as [[] [] [] [] [] [] [] []]; vm_compute; intros; try congruence; lia. Qed.

(** Lowering goes through a dot: no sequence it looks for holds one. *)
Lemma toLowerCase_app_dot (pre post : string) :
  toLowerCase (pre ++ String "." post)
  = (toLowerCase pre ++ String "." (toLowerCase post))%string.
Proof.
  induction pre as [pre IH] using string_strong_ind.
  destruct pre as [|c r]; [reflexivity|].
  change (String c r ++ String "." post)%string with (String c (r ++ String "." post)).
  cbn [toLowerCase].
  destruct (Ascii.eqb c "196") eqn:E196.
  - destruct r as [|c1 r1]; [reflexivity|].
    change (String c1 r1 ++ String "." post)%string with (String c1 (r1 ++ String "." post)).
    cbv beta iota.
    destruct (Ascii.eqb c1 "176").
    + rewrite (IH r1) by (cbn; lia). reflexivity.
    + exact (f_equal (String c) (IH (String c1 r1) ltac:(cbn; lia))).
  - destruct (Ascii.eqb c "226") eqn:E226.
    + destruct r as [|c1 [|c2 r2]].
      * destruct post; reflexivity.
      * change (String c1 "" ++ String "." post)%string with (String c1 (String "." post)).
        cbv beta iota.
        destruct (Ascii.eqb c1 "132"); cbn [andb Ascii.eqb Bool.eqb];
          exact (f_equal (String c) (IH (String c1 "") ltac:(cbn; lia))).
      * change (String c1 (String c2 r2) ++ String "." post)%string
          with (String c1 (String c2 (r2 ++ String "." post))).
        cbv beta iota.
        destruct (Ascii.eqb c1 "132" && Ascii.eqb c2 "170").
        -- rewrite (IH r2) by (cbn; lia). reflexivity.
        -- exact (f_equal (String c) (IH (String c1 (String c2 r2)) ltac:(cbn; lia))).
    + exact (f_equal (String (lower_ascii c)) (IH r ltac:(cbn; lia))).
Qed.

(** Without U+0130 lowering keeps the number of code units. *)
Lemma length_units_toLowerCase (s : string) :
  has_U0130 s = false -> length_units (toLowerCase s) = length_units s.
Proof.
  induction s as [s IH] using string_strong_ind. intros Hfree.
  destruct s as [|c r]; [reflexivity|].
  cbn [has_U0130] in Hfree. apply orb_false_elim in Hfree as [Hhere Hrest].
  cbn [toLowerCase].
  destruct (Ascii.eqb c "196") eqn:E196.
  - destruct r as [|c1 r1]; [reflexivity|].
    cbn [andb] in Hhere. rewrite Hhere.
    cbn [length_units]. now rewrite (IH (String c1 r1)) by (try exact Hrest; cbn; lia).
  - destruct (Ascii.eqb c "226") eqn:E226.
    + apply Ascii.eqb_eq in E226. subst c.
      destruct r as [|c1 [|c2 r2]];
        try (cbn [length_units]; now rewrite IH by (try exact Hrest; cbn; lia)).
      destruct (Ascii.eqb c1 "132" && Ascii.eqb c2 "170") eqn:Ek.
      * apply andb_prop in Ek as [E1 E2].
        apply Ascii.eqb_eq in E1, E2. subst c1 c2.
        cbn [has_U0130 andb orb Ascii.eqb Bool.eqb] in Hrest.
        cbn [length_units]. rewrite (IH r2) by (try exact Hrest; cbn; lia). reflexivity.
      * cbn [length_units]. now rewrite IH by (try exact Hrest; cbn; lia).
    + cbn [length_units]. rewrite units_lower_ascii.
      now rewrite IH by (try exact Hrest; cbn; lia).
Qed.

(** Taking off as many code units as a prefix has leaves what follows it,
    when that starts with a dot. *)
Lemma drop_units_app (x t : string) :
  drop_units (length_units x) (x ++ String "." t) = String "." t.
Proof.
  induction x as [|c x IH]; [reflexivity|].
  change (String c x ++ String "." t)%string with (String c (x ++ String "." t)).
  cbn [length_units drop_units].
  destruct (is_continuation c) eqn:Ec.
  - rewrite (units_continuation c Ec). exact IH.
  - pose proof (units_start c Ec) as Hu.
    destruct (units c + length_units x)%nat as [|n'] eqn:En; [lia|].
    destruct (Nat.leb_spec (units c) (S n')) as [_|?]; [|lia].
    replace (S n' - units c)%nat with (length_units x) by lia. exact IH.
Qed.

Lemma has_U0130_app_dot (pre post : string) :
  has_U0130 (pre ++ String "." post) = false -> has_U0130 pre = false.
Proof.
  induction pre as [|c r IH]; [reflexivity|].
  change (String c r ++ String "." post)%string with (String c (r ++ String "." post)).
  cbn [has_U0130]. intros Hfree. apply orb_false_elim in Hfree as [Hhere Hrest].
  rewrite (IH Hrest), orb_false_r.
  destruct r as [|c1 r1]; [apply andb_false_r | exact Hhere].
Qed.

(** Where the last dot is. *)
Lemma lastIndexOf_extension (filename : string) :
  match extension filename with
  | None => lastIndexOf filename "." = -1
  | Some e =>
      exists pre, filename = (pre ++ String "." e)%string /\
                  lastIndexOf filename "." = Z.of_nat (length_units pre)
  end.
Proof.
  induction filename as [|c r IH]; [reflexivity|].
  cbn [extension lastIndexOf].
  destruct (extension r) as [e|].
  - destruct IH as (pre & -> & Hi). exists (String c pre). split; [reflexivity|].
    rewrite Hi. destruct (Z.leb_spec 0 (Z.of_nat (length_units pre))) as [_|?]; [|lia].
    cbn [length_units]. lia.
  - rewrite IH. cbn [Z.leb Z.compare].
    destruct (Ascii.eqb c ".") eqn:E.
    + apply Ascii.eqb_eq in E. subst c. exists EmptyString. split; reflexivity.
    + reflexivity.
Qed.

Lemma extension_toLowerCase (s : string) :
  extension s = None -> extension (toLowerCase s) = None.
Proof.
  induction s as [s IH] using string_strong_ind. intros Hnone.
  destruct s as [|c r]; [reflexivity|].
  cbn [extension] in Hnone.
  destruct (extension r) eqn:Hr; [discriminate|].
  destruct (Ascii.eqb c ".") eqn:Ec; [discriminate|].
  assert (Hplain : extension (String c (toLowerCase r)) = None).
  { cbn [extension]. rewrite (IH r) by (try exact Hr; cbn; lia). now rewrite Ec. }
  assert (Hlow : extension (String (lower_ascii c) (toLowerCase r)) = None).
  { cbn [extension]. rewrite (IH r) by (try exact Hr; cbn; lia).
    destruct (Ascii.eqb (lower_ascii c) ".") eqn:E'; [|reflexivity].
    apply Ascii.eqb_eq, lower_ascii_dot in E'. subst c. discriminate. }
  cbn [toLowerCase].
  destruct (Ascii.eqb c "196").
  - destruct r as [|c1 r1]; [exact Hplain|].
    destruct (Ascii.eqb c1 "176"); [|exact Hplain].
    cbn [extension] in Hr. destruct (extension r1) eqn:Hr1; [discriminate|].
    cbn [extension]. rewrite (IH r1) by (try exact Hr1; cbn; lia). reflexivity.
  - destruct (Ascii.eqb c "226"); [|exact Hlow].
    destruct r as [|c1 [|c2 r2]]; try exact Hplain.
    destruct (Ascii.eqb c1 "132" && Ascii.eqb c2 "170"); [|exact Hplain].
    cbn [extension] in Hr. destruct (extension r2) eqn:Hr2; [discriminate|].
    cbn [extension]. rewrite (IH r2) by (try exact Hr2; cbn; lia). reflexivity.
Qed.

Lemma drop_units_dotless (s : string) :
  extension s = None ->
  existsb (String.eqb (drop_units 0 s)) imageExtensions = false.
Proof.
  induction s as [|c r IH]; [reflexivity|].
  cbn [extension]. destruct (extension r); [discriminate|].
  destruct (Ascii.eqb c ".") eqn:Ec; [discriminate|]. intros _.
  cbn [drop_units]. destruct (is_continuation c); [now apply IH|].
  cbn [imageExtensions existsb String.eqb]. rewrite Ec. reflexivity.
Qed.

(** On a name without U+0130, [isImageFile] decides the allow-list of the
    specification. *)
Lemma isImageFile_spec (filename : string) :
  has_U0130 filename = false ->
  isImageFile filename = has_image_extension filename.
Proof.
  intros Hfree. unfold isImageFile, has_image_extension, file_ext, substring.
  pose proof (lastIndexOf_extension filename) as H.
  destruct (extension filename) as [e|] eqn:He.
  - destruct H as (pre & Hname & Hi). rewrite Hi, Z.max_r, Nat2Z.id by lia.
    rewrite Hname in Hfree |- *. apply has_U0130_app_dot in Hfree.
    rewrite toLowerCase_app_dot, <- (length_units_toLowerCase pre Hfree), drop_units_app.
    cbn [imageExtensions allowList existsb String.eqb Ascii.eqb Bool.eqb].
    reflexivity.
  - rewrite H. cbn [Z.max Z.compare Z.to_nat].
    now apply drop_units_dotless, extension_toLowerCase.
Qed.

Lemma process_entry_lookup (acc : gmap string string)
  (entry : string * ZipObject) (name : string) :
  is_Some (process_entry acc entry !! name) <->
  is_Some (acc !! name) \/ (fst entry = name /\ kept entry = true).
Proof.
  destruct entry as [filename file]. unfold process_entry, kept, readable.
  cbn [fst snd].
  destruct (negb (dir file) && isImageFile filename) eqn:E; cbn [andb].
  - destruct (async_arraybuffer file) as [data|e].
    + rewrite lookup_insert_is_Some. destruct (decide (filename = name)) as [->|Hne].
      * split; intros _; [right | left]; auto.
      * split; [intros [?|[_ ?]]; [congruence | auto] | intros [?|[? _]]; [|congruence]].
        right. auto.
    + split; [auto | intros [?|[_ ?]]; [assumption | discriminate]].
  - split; [auto | intros [?|[_ ?]]; [assumption | discriminate]].
Qed.

Lemma fold_process_entry_lookup (entries : list (string * ZipObject))
  (acc : gmap string string) (name : string) :
  is_Some (fold_left process_entry entries acc !! name) <->
  is_Some (acc !! name) \/
  exists file, (name, file) ∈ entries /\ kept (name, file) = true.
Proof.
  revert acc. induction entries as [|entry entries IH]; intros acc; cbn [fold_left].
  - split; [auto | intros [?|(file & Hin & _)]; [assumption|]].
    now apply elem_of_nil in Hin.
  - rewrite IH, process_entry_lookup. split.
    + intros [[?|[Hname Hacc]]|(file & Hin & Hacc)]; auto.
      * right. exists (snd entry). destruct entry as [n f]. cbn in *. subst n.
        split; [apply elem_of_cons; auto | assumption].
      * right. exists file. split; [apply elem_of_cons; auto | assumption].
    + intros [?|(file & Hin & Hacc)]; auto.
      apply elem_of_cons in Hin as [<-|Hin]; [left; right; auto|].
      right. eauto.
Qed.

Lemma extract_files_empty (entries : list (string * ZipObject)) :
  (forall entry, entry ∈ entries -> kept entry = false) ->
  extract_files entries = ∅.
Proof.
  intros Hnone. apply map_empty. intros name.
  apply eq_None_not_Some. unfold extract_files.
  rewrite fold_process_entry_lookup, lookup_empty.
  intros [[? Habs]|(file & Hin & Hacc)]; [discriminate|].
  rewrite (Hnone _ Hin) in Hacc. discriminate.
Qed.

(** On a name without U+0130 the loop's test is the specification's. *)
Lemma kept_accepted (entry : string * ZipObject) :
  has_U0130 (fst entry) = false -> kept entry = accepted entry.
Proof.
  intros Hfree. unfold kept, accepted. now rewrite (isImageFile_spec _ Hfree).
Qed.

(** C3, as the code has it.  For an archive whose entry names hold no
    U+0130: the extracted set holds exactly the names of the entries that
    are not directories, carry an extension of the allow-list (compared
    without regard to case) and can be read; when no entry is kept the
    result is the failure [No image files found in archive].  For every
    archive, a successful result never has an empty set. *)
Theorem extraction_keeps_readable_images `{CryptoJS} `{JSZip} :
  (forall (entries : list (string * ZipObject)) (name : string),
      (forall entry, entry ∈ entries -> has_U0130 (fst entry) = false) ->
      (is_Some (extract_files entries !! name) <->
       exists file, (name, file) ∈ entries /\ accepted (name, file) = true)) /\
  (forall encryptedData key iv plaintext entries,
      snd (decrypt_stage encryptedData key iv) = Some plaintext ->
      loadAsync plaintext = Normal entries ->
      (forall entry, entry ∈ entries -> has_U0130 (fst entry) = false) ->
      (forall entry, entry ∈ entries -> accepted entry = false) ->
      decryptAndExtractZip encryptedData key iv
      = failure "No image files found in archive") /\
  (forall encryptedData key iv,
      success (decryptAndExtractZip encryptedData key iv) = true ->
      exists fs, files (decryptAndExtractZip encryptedData key iv) = Some fs /\ fs <> ∅).
Proof.
  split; [|split].
  - intros entries name Hfree. unfold extract_files.
    rewrite fold_process_entry_lookup, lookup_empty. split.
    + intros [[? Habs]|(file & Hin & Hk)]; [discriminate|].
      exists file. split; [exact Hin|].
      now rewrite <- (kept_accepted (name, file) (Hfree _ Hin)).
    + intros (file & Hin & Hacc). right. exists file. split; [exact Hin|].
      now rewrite (kept_accepted (name, file) (Hfree _ Hin)).
  - intros encryptedData key iv plaintext entries Hdec Hload Hfree Hnone.
    unfold decryptAndExtractZip, decryptAndExtractZip_body, decryptAndExtractZip_try.
    rewrite Hdec, Hload. cbn [cbind try_catch].
    rewrite (extract_files_empty entries), map_size_empty; [reflexivity|].
    intros entry Hin. rewrite (kept_accepted entry (Hfree _ Hin)). now apply Hnone.
  - intros encryptedData key iv.
    unfold decryptAndExtractZip, decryptAndExtractZip_body, decryptAndExtractZip_try.
    destruct (snd (decrypt_stage encryptedData key iv)) as [plaintext|];
      [|cbn; discriminate].
    destruct (loadAsync plaintext) as [entries|e]; cbn [cbind try_catch];
      [|cbn; discriminate].
    destruct (Z.eqb_spec (Z.of_nat (size (extract_files entries))) 0) as [Hz|Hnz];
      cbn; [discriminate|].
    intros _. eexists. split; [reflexivity|].
    intros Hempty. rewrite Hempty, map_size_empty in Hnz. lia.
Qed.

Lemma extraction_keeps_readable_images_witness :
  @decryptAndExtractZip StandIn.null_cipher
    (StandIn.archive_of [("docs/", StandIn.folder); ("docs/notes.txt", StandIn.text_file)])
    StandIn.decryptable "k" None
  = failure "No image files found in archive".
Proof.
  destruct (@extraction_keeps_readable_images StandIn.null_cipher
              (StandIn.archive_of [("docs/", StandIn.folder);
                                   ("docs/notes.txt", StandIn.text_file)]))
    as (_ & Hnone & _).
  apply (Hnone _ _ _ []
           [("docs/", StandIn.folder); ("docs/notes.txt", StandIn.text_file)]);
    [reflexivity | reflexivity | |].
  - intros entry Hin.
    apply elem_of_cons in Hin as [->|Hin]; [reflexivity|].
    apply list_elem_of_singleton in Hin as ->. reflexivity.
  - intros entry Hin.
    apply elem_of_cons in Hin as [->|Hin]; [reflexivity|].
    apply list_elem_of_singleton in Hin as ->. reflexivity.
Defined.

(** C3, as stated, fails twice over on an archive whose only entry is a
    picture that cannot be read: the entry is not a directory and its
    extension is on the allow-list, yet it is left out; and the failure
    reads [No image files found in archive], not [no image files found]. *)
Lemma unreadable_image_left_out :
  dir StandIn.damaged_file = false /\
  has_image_extension "photo.PNG" = true /\
  extract_files [("photo.PNG", StandIn.damaged_file)] = ∅ /\
  @decryptAndExtractZip StandIn.null_cipher
    (StandIn.archive_of [("photo.PNG", StandIn.damaged_file)])
    StandIn.decryptable "k" None
  = failure "No image files found in archive" /\
  @decryptAndExtractZip StandIn.null_cipher
    (StandIn.archive_of [("photo.PNG", StandIn.damaged_file)])
    StandIn.decryptable "k" None
  <> failure "no image files found".
Proof.
  repeat split; try reflexivity. discriminate.
Qed.

(** The specification's example: of a picture and a text file, exactly the
    picture is kept. *)
Example one_png_one_txt :
  extract_files [("a.png", StandIn.image_file); ("b.txt", StandIn.text_file)]
  = {[ "a.png" := "data:image/png;base64,iVBORw==" ]}.
Proof. reflexivity. Qed.

(** A name with U+0130 before its last dot: the index of the dot is taken
    in the name, the text after it in the lowered name, which is one code
    unit longer, so the test sees the mark U+0307 before the dot. *)
Example dotted_capital_I_shifts_the_extension :
  file_ext (String "196" (String "176" ".png"))
  = String "204" (String "135" ".png") /\
  isImageFile (String "196" (String "176" ".png")) = false /\
  isImageFile (String "226" (String "132" (String "170" ".PNG"))) = true.
Proof. repeat split. Qed.

End ExtractorFacts.

(** ** The channel manager *)

Section ChannelFacts.
Import Channel.
Local Open Scope Z_scope.

(** C6, as the code has it.  [disconnect] closes the socket it holds, lets
    go of it and reports [disconnected]; it leaves every timer and the
    retry counter as they were, so a retry that was waiting can still fire,
    and then calls [connect] again when the counter is within its bound. *)
Theorem disconnect_keeps_timers_and_counter `{Platform} (s : State) :
  ws (disconnect s) = None /\
  status (disconnect s) = Some disconnected /\
  sockets (disconnect s)
  = sockets (match ws s with Some i => socket_close i s | None => s end) /\
  timers (disconnect s) = timers s /\
  reconnectAttempts (disconnect s) = reconnectAttempts s /\
  (forall (k : nat) (t : Timer),
      timers s !! k = Some t -> kind t = Reconnect -> fired t = false ->
      reconnectAttempts s <= maxReconnectAttempts ->
      step (disconnect s) (TimerFire k)
      = Some (connect (url s) (mark_fired k (disconnect s)))).
Proof.
  assert (Hsock : sockets (disconnect s)
                  = sockets (match ws s with Some i => socket_close i s | None => s end))
    by (unfold disconnect; destruct (ws s); reflexivity).
  assert (Hfields : ws (disconnect s) = None /\
                    statuses (disconnect s) = statuses s ++ [disconnected] /\
                    timers (disconnect s) = timers s /\
                    reconnectAttempts (disconnect s) = reconnectAttempts s /\
                    url (disconnect s) = url s).
  { unfold disconnect, socket_close.
    destruct (ws s) as [i|] eqn:Hws; [destruct (readyState_of s i) as [[]|]|];
      cbn; rewrite ?Hws; repeat split; reflexivity. }
  destruct Hfields as (Hws & Hst & Htm & Hra & Hurl).
  split; [exact Hws|]. split; [unfold status; rewrite Hst; apply last_snoc|].
  split; [exact Hsock|]. split; [exact Htm|]. split; [exact Hra|].
  intros k t Hk Hkind Hfired Hle.
  unfold step. rewrite Htm, Hk, Hfired, Hkind.
  unfold reconnect_callback.
  replace (reconnectAttempts (mark_fired k (disconnect s))) with (reconnectAttempts s)
    by (symmetry; exact Hra).
  replace (url (mark_fired k (disconnect s))) with (url s) by (symmetry; exact Hurl).
  destruct (Z.leb_spec (reconnectAttempts s) maxReconnectAttempts); [reflexivity | lia].
Qed.

Lemma disconnect_keeps_timers_and_counter_witness :
  let s := after [Connect "wss://h/p"; SockClose 0 false] in
  @step ws_schemes (disconnect s) (TimerFire 1)
  = Some (@connect ws_schemes (url s) (mark_fired 1 (disconnect s))).
Proof.
  intros s.
  destruct (@disconnect_keeps_timers_and_counter ws_schemes s)
    as (_ & _ & _ & _ & _ & Hfire).
  apply (Hfire 1%nat (mkTimer Reconnect 1000 false));
    [vm_compute; reflexivity | reflexivity | reflexivity | vm_compute; discriminate].
Defined.

(** C6, as stated, fails on both counts.  The connection drops, a retry
    is set, the client disconnects: the counter still reads 1 and the retry
    is still waiting; when its timer fires a second socket is made and the
    service reports [connecting]. *)
Lemma reconnect_fires_after_disconnect :
  let s := after [Connect "wss://h/p"; SockClose 0 false; Disconnect] in
  let s' := after [Connect "wss://h/p"; SockClose 0 false; Disconnect; TimerFire 1] in
  reconnectAttempts s = 1 /\
  count pending_reconnect (timers s) = 1%nat /\
  length (sockets s) = 1%nat /\
  @step ws_schemes s (TimerFire 1) = Some s' /\
  length (sockets s') = 2%nat /\
  ws s' = Some 1%nat /\
  status s' = Some connecting.
Proof. by_evaluation. Qed.

(** What the timeout and the error handler do.  [connect] to an address
    the platform accepts arms one timer of 10000 ms for its promise.  When
    that timer fires while the held socket is not open, the held socket is
    closed and the promise, if still pending, is rejected; the callback
    itself reports no status.  A transport error reports [error] and
    rejects the promise if still pending. *)
Lemma timeout_and_error_handlers `{Platform} :
  (forall (s : State) (u : string),
      url_ok u = true ->
      timers (connect u s)
      = timers s ++ [mkTimer (ConnectionTimeout (length (promises s))) 10000 false] /\
      promises (connect u s) = promises s ++ [Pending] /\
      status (connect u s) = Some connecting) /\
  (forall (s : State) (p : nat),
      ws_not_open s = true ->
      promises s !! p = Some Pending ->
      promises (timeout_callback p s) !! p = Some (Rejected "Connection timeout") /\
      statuses (timeout_callback p s) = statuses s /\
      sockets (timeout_callback p s)
      = sockets (match ws s with Some i => socket_close i s | None => s end)) /\
  (forall (s : State) (p : nat),
      promises s !! p = Some Pending ->
      status (onerror p s) = Some error /\
      promises (onerror p s) !! p = Some (Rejected "WebSocket connection failed")).
Proof.
  split; [|split].
  - intros s u Hu. unfold connect. rewrite Hu. cbn.
    repeat split. unfold status. cbn. apply last_snoc.
  - intros s p Hno Hp. unfold timeout_callback. rewrite Hno.
    assert (Hpr : promises (match ws s with Some i => socket_close i s | None => s end)
                  = promises s).
    { destruct (ws s) as [i|]; [|reflexivity]. unfold socket_close.
      destruct (readyState_of s i) as [[]|]; reflexivity. }
    assert (Hst : statuses (match ws s with Some i => socket_close i s | None => s end)
                  = statuses s).
    { destruct (ws s) as [i|]; [|reflexivity]. unfold socket_close.
      destruct (readyState_of s i) as [[]|]; reflexivity. }
    unfold reject, settle. rewrite Hpr, Hp. cbn. rewrite Hst.
    repeat split. apply list_lookup_insert_eq. now apply lookup_lt_Some in Hp.
  - intros s p Hp. unfold onerror, reject, settle. cbn. rewrite Hp. cbn.
    split; [unfold status; cbn; apply last_snoc|].
    apply list_lookup_insert_eq. now apply lookup_lt_Some in Hp.
Qed.

(** C7.  The timeout callback tests and closes the socket the service
    holds when the timer fires, not the socket of its own [connect] call,
    and reports no status of its own.

    With one connection the claim holds through the platform: the
    callback closes the connecting socket and rejects the promise, the
    platform then fails the connection, and its error event reports
    [error].

    With two calls it fails.  [connect] is called for one address and,
    before that connection is established, for another; the second
    connection opens; the timer of the first call fires while the first
    socket is still connecting.  The callback finds the held socket open
    and does nothing: the first promise stays pending, the first socket is
    not closed, and [error] is not reported. *)
Theorem stale_timeout_leaves_connect_pending :
  let single := after [Connect "ws://a"; TimerFire 0; SockError 0; SockClose 0 false] in
  let s := after [Connect "ws://a"; Connect "ws://b"; SockOpen 1] in
  let s' := after [Connect "ws://a"; Connect "ws://b"; SockOpen 1; TimerFire 0] in
  promises single !! 0%nat = Some (Rejected "Connection timeout") /\
  statuses single = [connecting; error; disconnected] /\
  timers s !! 0%nat = Some (mkTimer (ConnectionTimeout 0) 10000 false) /\
  readyState_of s 0 = Some CONNECTING /\
  promises s !! 0%nat = Some Pending /\
  @step ws_schemes s (TimerFire 0) = Some s' /\
  promises s' !! 0%nat = Some Pending /\
  readyState_of s' 0 = Some CONNECTING /\
  statuses s' = [connecting; connecting; connected].
Proof. by_evaluation. Qed.

(** *** Counting sockets and timers *)

Lemma count_app {A : Type} (P : A -> bool) (l1 l2 : list A) :
  count P (l1 ++ l2) = (count P l1 + count P l2)%nat.
Proof. unfold count. now rewrite List.filter_app, length_app. Qed.

Lemma count_cons {A : Type} (P : A -> bool) (x : A) (l : list A) :
  count P (x :: l) = ((if P x then 1 else 0) + count P l)%nat.
Proof. unfold count. cbn. destruct (P x); reflexivity. Qed.

Lemma count_nil {A : Type} (P : A -> bool) : count P [] = 0%nat.
Proof. reflexivity. Qed.

Lemma count_one {A : Type} (P : A -> bool) (x : A) :
  count P [x] = if P x then 1%nat else 0%nat.
Proof. unfold count. cbn. destruct (P x); reflexivity. Qed.

Lemma count_alter {A : Type} (P : A -> bool) (f : A -> A) (i : nat) (l : list A) (x : A) :
  l !! i = Some x ->
  (count P (alter f i l) + (if P x then 1 else 0)
   = count P l + (if P (f x) then 1 else 0))%nat.
Proof.
  revert i. induction l as [|y l IH]; intros i Hi; [discriminate|].
  destruct i as [|i]; cbn in Hi.
  - injection Hi as ->. cbn [alter list_alter]. rewrite !count_cons. lia.
  - cbn [alter list_alter]. rewrite !count_cons.
    specialize (IH i Hi). change (list_alter f i l) with (alter f i l). lia.
Qed.

Lemma count_le {A : Type} (P Q : A -> bool) (l : list A) :
  (forall x, P x = true -> Q x = true) -> (count P l <= count Q l)%nat.
Proof.
  intros HPQ. induction l as [|x l IH]; [reflexivity|].
  rewrite !count_cons. specialize (HPQ x).
  destruct (P x), (Q x); lia.
Qed.

(** *** What each handler leaves alone *)

Lemma settle_fields (p : nat) (o : PromiseState) (s : State) :
  ws (settle p o s) = ws s /\ url (settle p o s) = url s /\
  reconnectAttempts (settle p o s) = reconnectAttempts s /\
  sockets (settle p o s) = sockets s /\ timers (settle p o s) = timers s /\
  statuses (settle p o s) = statuses s.
Proof.
  unfold settle. destruct (promises s !! p) as [[]|]; repeat split; reflexivity.
Qed.

Lemma socket_close_fields (i : nat) (s : State) :
  ws (socket_close i s) = ws s /\ url (socket_close i s) = url s /\
  reconnectAttempts (socket_close i s) = reconnectAttempts s /\
  timers (socket_close i s) = timers s /\
  statuses (socket_close i s) = statuses s /\
  promises (socket_close i s) = promises s.
Proof.
  unfold socket_close. destruct (readyState_of s i) as [[]|]; repeat split; reflexivity.
Qed.

Lemma live_not_closed (k : Socket) :
  ReadyState_eqb (readyState k) CLOSED = false -> live k = true.
Proof. unfold live. now intros ->. Qed.

Lemma set_readyState_live (i : nat) (r : ReadyState) (s : State) (k : Socket) :
  sockets s !! i = Some k ->
  (count live (sockets (set_readyState i r s)) + (if live k then 1 else 0)
   = count live (sockets s) + (if ReadyState_eqb r CLOSED then 0 else 1))%nat.
Proof.
  intros Hk. unfold set_readyState, set_sockets. cbn [sockets].
  pose proof (count_alter live (fun k => mkSocket (sock_url k) r (sock_promise k))
                i (sockets s) k Hk) as Hc.
  cbv beta in Hc. rewrite Hc. f_equal.
  unfold live. cbn [readyState]. destruct (ReadyState_eqb r CLOSED); reflexivity.
Qed.

Lemma set_readyState_keeps_live (i : nat) (r : ReadyState) (s : State) (k : Socket) :
  sockets s !! i = Some k -> live k = true -> ReadyState_eqb r CLOSED = false ->
  count live (sockets (set_readyState i r s)) = count live (sockets s).
Proof.
  intros Hk Hl Hr. pose proof (set_readyState_live i r s k Hk) as Hc.
  rewrite Hl, Hr in Hc. lia.
Qed.

Lemma set_readyState_closes (i : nat) (s : State) (k : Socket) :
  sockets s !! i = Some k -> live k = true ->
  (count live (sockets (set_readyState i CLOSED s)) + 1 = count live (sockets s))%nat.
Proof.
  intros Hk Hl. pose proof (set_readyState_live i CLOSED s k Hk) as Hc.
  rewrite Hl in Hc. change (ReadyState_eqb CLOSED CLOSED) with true in Hc.
  cbv iota in Hc. lia.
Qed.

(** Closing a socket by hand keeps it live until its close event. *)
Lemma socket_close_live (i : nat) (s : State) :
  count live (sockets (socket_close i s)) = count live (sockets s).
Proof.
  unfold socket_close, readyState_of.
  destruct (sockets s !! i) as [k|] eqn:Hk; [|reflexivity].
  cbn [fmap option_fmap option_map].
  pose proof (set_readyState_live i CLOSING s k Hk) as Hc.
  destruct (readyState k) eqn:Hr; try reflexivity;
    unfold live in Hc at 2; rewrite Hr in Hc; cbn in Hc; cbn; lia.
Qed.

Lemma socket_close_length (i : nat) (s : State) :
  length (sockets (socket_close i s)) = length (sockets s).
Proof.
  unfold socket_close. destruct (readyState_of s i) as [[]|]; try reflexivity;
    cbn; apply length_alter.
Qed.

Lemma mark_fired_pending (k : nat) (s : State) (t : Timer) :
  timers s !! k = Some t -> fired t = false ->
  (count pending_reconnect (timers (mark_fired k s)) + (if is_reconnect t then 1 else 0)
   = count pending_reconnect (timers s))%nat.
Proof.
  intros Hk Hf. unfold mark_fired, set_timers. cbn [timers].
  pose proof (count_alter pending_reconnect (fun t => mkTimer (kind t) (delay t) true)
                k (timers s) t Hk) as Hc.
  cbv beta in Hc.
  assert (Hnew : pending_reconnect (mkTimer (kind t) (delay t) true) = false)
    by (unfold pending_reconnect; cbn; apply andb_false_r).
  assert (Hold : pending_reconnect t = is_reconnect t)
    by (unfold pending_reconnect; rewrite Hf; apply andb_true_r).
  rewrite Hnew, Hold in Hc. lia.
Qed.

(** What [connect] does to the state. *)
Lemma connect_fields `{Platform} (u : string) (s : State) :
  let p := length (promises s) in
  url (connect u s) = u /\
  reconnectAttempts (connect u s) = reconnectAttempts s /\
  sockets (connect u s)
  = sockets s ++ (if url_ok u then [mkSocket u CONNECTING p] else []) /\
  timers (connect u s)
  = timers s ++ (if url_ok u then [mkTimer (ConnectionTimeout p) 10000 false] else []) /\
  statuses (connect u s)
  = statuses s ++ connecting :: (if url_ok u then [] else [error]).
Proof.
  unfold connect. destruct (url_ok u).
  - cbn. rewrite <- ?app_assoc. repeat split; reflexivity.
  - destruct (settle_fields (length (promises s)) (Rejected "SyntaxError")
                (onStatusChange error
                   (console_log (log_error "Failed to create WebSocket:")
                      (onStatusChange connecting
                         (set_url u (set_promises (promises s ++ [Pending]) s))))))
      as (_ & Hu & Hr & Hs & Ht & Hst).
    unfold reject. rewrite Hu, Hr, Hs, Ht, Hst. cbn.
    rewrite ?app_nil_r, <- ?app_assoc. repeat split; reflexivity.
Qed.

(** What [ws.onclose] does to the state. *)
Lemma onclose_fields (wasClean : bool) (s : State) :
  let retry := negb wasClean && (reconnectAttempts s <? maxReconnectAttempts) in
  ws (onclose wasClean s) = ws s /\
  url (onclose wasClean s) = url s /\
  sockets (onclose wasClean s) = sockets s /\
  statuses (onclose wasClean s) = statuses s ++ [disconnected] /\
  reconnectAttempts (onclose wasClean s)
  = (if retry then reconnectAttempts s + 1 else reconnectAttempts s) /\
  timers (onclose wasClean s)
  = timers s ++ (if retry
                 then [mkTimer Reconnect (reconnectDelay * (reconnectAttempts s + 1)) false]
                 else []).
Proof.
  unfold onclose. cbn.
  destruct (negb wasClean && (reconnectAttempts s <? maxReconnectAttempts)); cbn;
    rewrite ?app_nil_r; repeat split; reflexivity.
Qed.

Lemma onopen_fields (p : nat) (s : State) :
  url (onopen p s) = url s /\ sockets (onopen p s) = sockets s /\
  timers (onopen p s) = timers s /\ reconnectAttempts (onopen p s) = 0.
Proof.
  unfold onopen, resolve.
  destruct (settle_fields p Resolved
              (onStatusChange connected (set_reconnectAttempts 0 (console_log log_connected s))))
    as (_ & Hu & Hr & Hs & Ht & _).
  rewrite Hu, Hr, Hs, Ht. repeat split; reflexivity.
Qed.

Lemma onerror_fields (p : nat) (s : State) :
  url (onerror p s) = url s /\ sockets (onerror p s) = sockets s /\
  timers (onerror p s) = timers s /\
  reconnectAttempts (onerror p s) = reconnectAttempts s /\
  statuses (onerror p s) = statuses s ++ [error].
Proof.
  unfold onerror, reject.
  destruct (settle_fields p (Rejected "WebSocket connection failed")
              (onError "Connection error"
                 (onStatusChange error (console_log (log_error "WebSocket error:") s))))
    as (_ & Hu & Hr & Hs & Ht & Hst).
  rewrite Hu, Hr, Hs, Ht, Hst. repeat split; reflexivity.
Qed.

Lemma onmessage_fields (f : Frame) (s : State) :
  url (onmessage f s) = url s /\ sockets (onmessage f s) = sockets s /\
  timers (onmessage f s) = timers s /\
  reconnectAttempts (onmessage f s) = reconnectAttempts s /\
  statuses (onmessage f s) = statuses s.
Proof.
  unfold onmessage. destruct f as [data|data]; [|destruct (JSON.parse data)];
    repeat split; reflexivity.
Qed.

(** The timeout callback touches the promise and the ready state of the
    held socket, nothing else. *)
Lemma timeout_callback_fields (p : nat) (s : State) :
  url (timeout_callback p s) = url s /\
  timers (timeout_callback p s) = timers s /\
  reconnectAttempts (timeout_callback p s) = reconnectAttempts s /\
  statuses (timeout_callback p s) = statuses s /\
  count live (sockets (timeout_callback p s)) = count live (sockets s) /\
  length (sockets (timeout_callback p s)) = length (sockets s).
Proof.
  unfold timeout_callback. destruct (ws_not_open s); [|repeat split; reflexivity].
  unfold reject.
  destruct (settle_fields p (Rejected "Connection timeout")
              (match ws s with Some i => socket_close i s | None => s end))
    as (_ & Hu & Hr & Hs & Ht & Hst).
  rewrite Hu, Hr, Hs, Ht, Hst.
  destruct (ws s) as [i|]; [|repeat split; reflexivity].
  destruct (socket_close_fields i s) as (_ & Hu' & Hr' & Ht' & Hst' & _).
  rewrite Hu', Hr', Ht', Hst', socket_close_live, socket_close_length.
  repeat split; reflexivity.
Qed.

Lemma disconnect_fields (s : State) :
  url (disconnect s) = url s /\
  timers (disconnect s) = timers s /\
  reconnectAttempts (disconnect s) = reconnectAttempts s /\
  count live (sockets (disconnect s)) = count live (sockets s).
Proof.
  unfold disconnect. destruct (ws s) as [i|]; [|repeat split; reflexivity].
  unfold onStatusChange, set_ws. cbn [url timers reconnectAttempts sockets].
  destruct (socket_close_fields i s) as (_ & Hu' & Hr' & Ht' & _).
  rewrite Hu', Hr', Ht', socket_close_live. repeat split; reflexivity.
Qed.

(** No event but a call of [connect] adds to the live sockets and waiting
    retries; a call of [connect] adds at most one. *)
Lemma step_load `{Platform} (s s' : State) (e : Event) :
  step s e = Some s' ->
  (load s' <= load s + match e with Connect _ => 1 | _ => 0 end)%nat.
Proof.
  unfold load. destruct e as [u| |i|i f|i|i wasClean|k|i]; cbn [step]; intros Hstep.
  - injection Hstep as <-.
    destruct (connect_fields u s) as (_ & _ & Hs & Ht & _). rewrite Hs, Ht, !count_app.
    destruct (url_ok u); cbn; lia.
  - injection Hstep as <-.
    destruct (disconnect_fields s) as (_ & Ht & _ & Hl). rewrite Ht, Hl. lia.
  - destruct (sockets s !! i) as [k|] eqn:Hk; [|discriminate].
    destruct (ReadyState_eqb (readyState k) CONNECTING) eqn:Hr; [|discriminate].
    injection Hstep as <-.
    destruct (onopen_fields (sock_promise k) (set_readyState i OPEN s)) as (_ & Hs & Ht & _).
    assert (live k = true) as Hl
      by (unfold live; destruct (readyState k); try discriminate; reflexivity).
    rewrite Hs, Ht, (set_readyState_keeps_live i OPEN s k Hk Hl eq_refl).
    cbn [timers set_readyState set_sockets]. lia.
  - destruct (sockets s !! i) as [k|]; [|discriminate].
    destruct (ReadyState_eqb (readyState k) OPEN || ReadyState_eqb (readyState k) CLOSING);
      [|discriminate].
    injection Hstep as <-.
    destruct (onmessage_fields f s) as (_ & Hs & Ht & _). rewrite Hs, Ht. lia.
  - destruct (sockets s !! i) as [k|]; [|discriminate].
    destruct (ReadyState_eqb (readyState k) CLOSED); [discriminate|].
    injection Hstep as <-.
    destruct (onerror_fields (sock_promise k) s) as (_ & Hs & Ht & _). rewrite Hs, Ht. lia.
  - destruct (sockets s !! i) as [k|] eqn:Hk; [|discriminate].
    destruct (ReadyState_eqb (readyState k) CLOSED) eqn:Hr; [discriminate|].
    injection Hstep as <-.
    destruct (onclose_fields wasClean (set_readyState i CLOSED s))
      as (_ & _ & Hs & _ & _ & Ht).
    rewrite Hs, Ht, count_app.
    pose proof (set_readyState_closes i s k Hk (live_not_closed k Hr)) as Hc.
    change (timers (set_readyState i CLOSED s)) with (timers s).
    destruct (negb wasClean && _); rewrite ?count_one, ?count_nil;
      cbn [pending_reconnect is_reconnect kind fired andb negb]; lia.
  - destruct (timers s !! k) as [t|] eqn:Hk; [|discriminate].
    destruct (fired t) eqn:Hf; [discriminate|].
    injection Hstep as <-.
    pose proof (mark_fired_pending k s t Hk Hf) as Hm.
    unfold is_reconnect in Hm.
    destruct (kind t) as [p|]; cbv iota in Hm.
    + destruct (timeout_callback_fields p (mark_fired k s)) as (_ & Ht & _ & _ & Hl & _).
      rewrite Ht, Hl. change (sockets (mark_fired k s)) with (sockets s). lia.
    + unfold reconnect_callback.
      destruct (reconnectAttempts (mark_fired k s) <=? maxReconnectAttempts).
      * destruct (connect_fields (url (mark_fired k s)) (mark_fired k s))
          as (_ & _ & Hs & Ht & _).
        rewrite Hs, Ht, !count_app. change (sockets (mark_fired k s)) with (sockets s).
        destruct (url_ok _); rewrite ?count_one, ?count_nil;
          cbn [pending_reconnect is_reconnect kind fired andb negb live readyState
                 ReadyState_eqb]; lia.
      * change (sockets (mark_fired k s)) with (sockets s). lia.
  - destruct (sockets s !! i) as [k|] eqn:Hk; [|discriminate].
    destruct (ReadyState_eqb (readyState k) OPEN) eqn:Hr; [|discriminate].
    injection Hstep as <-.
    assert (live k = true) as Hl
      by (unfold live; destruct (readyState k); try discriminate; reflexivity).
    rewrite (set_readyState_keeps_live i CLOSING s k Hk Hl eq_refl).
    change (timers (set_readyState i CLOSING s)) with (timers s). lia.
Qed.

Lemma careful_run_load `{Platform} (es : list Event) (s0 s : State) :
  (load s0 <= 1)%nat -> careful s0 es -> run s0 es = Some s -> (load s <= 1)%nat.
Proof.
  revert s0. induction es as [|e es IH]; intros s0 Hload Hcareful Hrun; cbn in Hrun.
  - now injection Hrun as <-.
  - destruct Hcareful as [Hconnect Hrest].
    destruct (step s0 e) as [s1|] eqn:Hstep; [|discriminate].
    apply (IH s1); [|exact Hrest|exact Hrun].
    pose proof (step_load s0 s1 e Hstep) as Hl.
    destruct e; try lia. unfold load in *. lia.
Qed.

(** C8, as the code has it.  [connect] adds a socket and closes none.  As
    long as the client calls [connect] only when no socket is live and no
    retry is waiting, at most one socket is live, and so at most one is
    connecting or open, in every state the service reaches. *)
Theorem one_connection_when_careful `{Platform} :
  (forall (s : State) (u : string),
      url_ok u = true ->
      sockets (connect u s) = sockets s ++ [mkSocket u CONNECTING (length (promises s))]) /\
  (forall (es : list Event) (s : State),
      careful initial es -> run initial es = Some s ->
      (count live (sockets s) <= 1)%nat /\ (count active (sockets s) <= 1)%nat).
Proof.
  split.
  - intros s u Hu. destruct (connect_fields u s) as (_ & _ & Hs & _).
    now rewrite Hs, Hu.
  - intros es s Hcareful Hrun.
    assert (Hload : (load s <= 1)%nat)
      by (apply (careful_run_load es initial s); [cbn; lia | assumption | assumption]).
    assert (Hactive : (count active (sockets s) <= count live (sockets s))%nat).
    { apply count_le. intros k. unfold active, live.
      destruct (readyState k); cbn; congruence. }
    unfold load in Hload. lia.
Qed.

Lemma one_connection_when_careful_witness :
  (count live
     (sockets (after [Connect "wss://h/p"; SockOpen 0; SockClose 0 false; TimerFire 1]))
   <= 1)%nat.
Proof.
  destruct (@one_connection_when_careful ws_schemes) as (_ & Hone).
  apply (Hone [Connect "wss://h/p"; SockOpen 0; SockClose 0 false; TimerFire 1]).
  - vm_compute. tauto.
  - vm_compute. reflexivity.
Defined.

(** C8, as stated, fails: [connect] while the first connection is open
    leaves the first socket open, with its handlers in place, next to the
    new one that is connecting. *)
Lemma connect_while_open_keeps_both :
  let s := after [Connect "wss://h/p"; SockOpen 0; Connect "wss://h/p"] in
  map readyState (sockets s) = [OPEN; CONNECTING] /\
  count active (sockets s) = 2%nat /\
  ws s = Some 1%nat /\
  messages (after [Connect "wss://h/p"; SockOpen 0; Connect "wss://h/p";
                   SockMessage 0 (Binary [])])
  = [encrypted_zip []].
Proof. by_evaluation. Qed.

(** *** The retry timers *)

Lemma count_lookup {A : Type} (P : A -> bool) (l : list A) (i : nat) (x : A) :
  l !! i = Some x -> P x = true -> (1 <= count P l)%nat.
Proof.
  revert i. induction l as [|y l IH]; intros i Hi Hx; [discriminate|].
  rewrite count_cons. destruct i as [|i]; cbn in Hi.
  - injection Hi as ->. rewrite Hx. lia.
  - specialize (IH i Hi Hx). lia.
Qed.

Lemma filter_alter_same {A : Type} (P : A -> bool) (f : A -> A) (g : A -> Z)
  (k : nat) (l : list A) :
  (forall x, P (f x) = P x) -> (forall x, g (f x) = g x) ->
  map g (List.filter P (alter f k l)) = map g (List.filter P l).
Proof.
  intros HP Hg. revert k. induction l as [|y l IH]; intros k; [reflexivity|].
  destruct k as [|k]; cbn [alter list_alter List.filter].
  - rewrite HP. destruct (P y); cbn [map]; [rewrite Hg|]; reflexivity.
  - change (list_alter f k l) with (alter f k l).
    destruct (P y); cbn [map]; now rewrite IH.
Qed.

Lemma mark_fired_reconnects (k : nat) (s : State) :
  reconnect_delays (mark_fired k s) = reconnect_delays s /\
  count is_reconnect (timers (mark_fired k s)) = count is_reconnect (timers s).
Proof.
  assert (Hd : reconnect_delays (mark_fired k s) = reconnect_delays s)
    by (unfold reconnect_delays, mark_fired, set_timers; cbn [timers];
        apply filter_alter_same; reflexivity).
  split; [exact Hd|].
  unfold reconnect_delays in Hd. apply (f_equal length) in Hd.
  rewrite !length_map in Hd. exact Hd.
Qed.

Lemma mark_fired_fired (k : nat) (s : State) (t : Timer) :
  timers s !! k = Some t -> fired t = false ->
  count fired_reconnect (timers (mark_fired k s))
  = (count fired_reconnect (timers s) + (if is_reconnect t then 1 else 0))%nat.
Proof.
  intros Hk Hf. unfold mark_fired, set_timers. cbn [timers].
  pose proof (count_alter fired_reconnect (fun t => mkTimer (kind t) (delay t) true)
                k (timers s) t Hk) as Hc.
  cbv beta in Hc.
  assert (Hnew : fired_reconnect (mkTimer (kind t) (delay t) true) = is_reconnect t)
    by (unfold fired_reconnect, is_reconnect; cbn; apply andb_true_r).
  assert (Hold : fired_reconnect t = false)
    by (unfold fired_reconnect; rewrite Hf; apply andb_false_r).
  rewrite Hnew, Hold in Hc. lia.
Qed.

Lemma backoff_S (n : nat) :
  backoff (S n) = backoff n ++ [reconnectDelay * (Z.of_nat n + 1)].
Proof.
  unfold backoff. rewrite seq_S, map_app. cbn [map]. do 3 f_equal. lia.
Qed.

Lemma reconnect_delays_app (s : State) (l : list Timer) :
  map delay (List.filter is_reconnect (timers s ++ l))
  = reconnect_delays s ++ map delay (List.filter is_reconnect l).
Proof. unfold reconnect_delays. now rewrite List.filter_app, map_app. Qed.

(** *** The invariant of a run of failures *)

Lemma set_readyState_lookup (i j : nat) (r : ReadyState) (s : State) (k' : Socket) :
  sockets (set_readyState i r s) !! j = Some k' ->
  exists k, sockets s !! j = Some k /\ sock_url k' = sock_url k.
Proof.
  unfold set_readyState, set_sockets. cbn [sockets]. intros Hj.
  destruct (decide (i = j)) as [->|Hne].
  - rewrite list_lookup_alter_eq in Hj.
    destruct (sockets s !! j) as [k|]; [|discriminate].
    injection Hj as <-. eauto.
  - rewrite list_lookup_alter_ne in Hj by exact Hne. eauto.
Qed.

Lemma socket_close_lookup (i j : nat) (s : State) (k' : Socket) :
  sockets (socket_close i s) !! j = Some k' ->
  exists k, sockets s !! j = Some k /\ sock_url k' = sock_url k.
Proof.
  unfold socket_close. destruct (readyState_of s i) as [[]|]; eauto;
    apply set_readyState_lookup.
Qed.

Lemma timeout_callback_lookup (p j : nat) (s : State) (k' : Socket) :
  sockets (timeout_callback p s) !! j = Some k' ->
  exists k, sockets s !! j = Some k /\ sock_url k' = sock_url k.
Proof.
  unfold timeout_callback. destruct (ws_not_open s); [|eauto].
  unfold reject.
  destruct (settle_fields p (Rejected "Connection timeout")
              (match ws s with Some i => socket_close i s | None => s end))
    as (_ & _ & _ & Hs & _).
  rewrite Hs. destruct (ws s) as [i|]; [apply socket_close_lookup | eauto].
Qed.

Lemma nonempty_length {A : Type} (l l' : list A) :
  length l' = length l -> l' <> [] -> l <> [].
Proof. destruct l, l'; cbn; congruence. Qed.

Lemma invariant_message (u : string) (n0 : nat) (s : State) (f : Frame) :
  retry_invariant u n0 s -> retry_invariant u n0 (onmessage f s).
Proof.
  destruct (onmessage_fields f s) as (Hu & Hs & Ht & Hr & Hst).
  unfold retry_invariant, reconnect_delays, status.
  now rewrite Hu, Hs, Ht, Hr, Hst.
Qed.

Lemma invariant_error (u : string) (n0 : nat) (s : State) (i : nat) (k : Socket) :
  sockets s !! i = Some k -> live k = true ->
  retry_invariant u n0 s -> retry_invariant u n0 (onerror (sock_promise k) s).
Proof.
  intros Hk Hl.
  destruct (onerror_fields (sock_promise k) s) as (Hu & Hs & Ht & Hr & Hst).
  unfold retry_invariant, reconnect_delays, status.
  rewrite Hu, Hs, Ht, Hr, Hst.
  intros (HA & HB & HC & HD & HE & HF & _). repeat split; try assumption.
  intros Hnone. pose proof (count_lookup live (sockets s) i k Hk Hl). lia.
Qed.

Lemma invariant_close (u : string) (n0 : nat) (s : State) (i : nat) (wasClean : bool) :
  retry_invariant u n0 s ->
  retry_invariant u n0 (onclose wasClean (set_readyState i CLOSED s)).
Proof.
  destruct (onclose_fields wasClean (set_readyState i CLOSED s))
    as (_ & Hu & Hs & Hst & Hr & Ht).
  change (reconnectAttempts (set_readyState i CLOSED s)) with (reconnectAttempts s) in *.
  change (timers (set_readyState i CLOSED s)) with (timers s) in *.
  change (url (set_readyState i CLOSED s)) with (url s) in *.
  change (statuses (set_readyState i CLOSED s)) with (statuses s) in *.
  unfold retry_invariant, status.
  intros (HA & HB & HC & HD & HE & HF & _).
  assert (HG : last (statuses (onclose wasClean (set_readyState i CLOSED s)))
               = Some disconnected) by (rewrite Hst; apply last_snoc).
  assert (HF' : forall (j : nat) (k' : Socket),
             (n0 <= j)%nat ->
             sockets (onclose wasClean (set_readyState i CLOSED s)) !! j = Some k' ->
             sock_url k' = u).
  { intros j k' Hj Hk'. rewrite Hs in Hk'.
    apply set_readyState_lookup in Hk' as (k0 & Hk0 & ->). eauto. }
  assert (HE' : length (sockets (onclose wasClean (set_readyState i CLOSED s)))
                = length (sockets s))
    by (rewrite Hs; unfold set_readyState, set_sockets; cbn [sockets]; apply length_alter).
  unfold reconnect_delays. rewrite Hu, Hr, Ht, HE'.
  destruct (negb wasClean && (reconnectAttempts s <? maxReconnectAttempts)) eqn:Hretry.
  - apply andb_prop in Hretry as [_ Hlt]. apply Z.ltb_lt in Hlt.
    unfold maxReconnectAttempts in Hlt.
    rewrite reconnect_delays_app, !count_app, !count_one.
    cbn [List.filter is_reconnect fired_reconnect kind fired andb map delay].
    replace (count is_reconnect (timers s) + 1)%nat
      with (S (count is_reconnect (timers s))) by lia.
    rewrite backoff_S, HB, HA.
    repeat split; try assumption; try lia; auto.
  - rewrite !app_nil_r. repeat split; try assumption; auto.
Qed.

Lemma invariant_timeout (u : string) (n0 : nat) (s : State) (k p : nat) (t : Timer) :
  timers s !! k = Some t -> fired t = false -> kind t = ConnectionTimeout p ->
  retry_invariant u n0 s -> retry_invariant u n0 (timeout_callback p (mark_fired k s)).
Proof.
  intros Hk Hf Hkind.
  destruct (timeout_callback_fields p (mark_fired k s)) as (Hu & Ht & Hr & Hst & Hl & Hlen).
  destruct (mark_fired_reconnects k s) as (Hd & Hc).
  pose proof (mark_fired_fired k s t Hk Hf) as Hff.
  unfold is_reconnect in Hff. rewrite Hkind in Hff.
  change (sockets (mark_fired k s)) with (sockets s) in *.
  change (url (mark_fired k s)) with (url s) in *.
  change (reconnectAttempts (mark_fired k s)) with (reconnectAttempts s) in *.
  change (statuses (mark_fired k s)) with (statuses s) in *.
  unfold retry_invariant, status.
  intros (HA & HB & HC & HD & HE & HF & HG).
  assert (Hd' : reconnect_delays (timeout_callback p (mark_fired k s)) = reconnect_delays s)
    by (unfold reconnect_delays in *; now rewrite Ht).
  rewrite Hu, Ht, Hr, Hst, Hl, Hlen, Hd', Hc, Hff, Nat.add_0_r.
  repeat split; try assumption.
  - intros j k' Hj Hk'.
    apply timeout_callback_lookup in Hk' as (k0 & Hk0 & ->). eauto.
  - intros Hnone Hne. apply HG; [exact Hnone|].
    exact (nonempty_length _ _ Hlen Hne).
Qed.

Lemma invariant_reconnect `{Platform} (u : string) (n0 : nat) (s : State)
  (k : nat) (t : Timer) :
  url_ok u = true ->
  timers s !! k = Some t -> fired t = false -> kind t = Reconnect ->
  retry_invariant u n0 s ->
  retry_invariant u n0 (reconnect_callback (mark_fired k s)) /\
  reconnect_callback (mark_fired k s) = connect u (mark_fired k s).
Proof.
  intros Hok Hk Hf Hkind (HA & HB & HC & HD & HE & HF & HG).
  destruct (mark_fired_reconnects k s) as (Hd & Hc).
  pose proof (mark_fired_fired k s t Hk Hf) as Hff.
  unfold is_reconnect in Hff. rewrite Hkind in Hff.
  unfold reconnect_callback.
  change (reconnectAttempts (mark_fired k s)) with (reconnectAttempts s).
  change (url (mark_fired k s)) with (url s). rewrite HD.
  destruct (Z.leb_spec (reconnectAttempts s) maxReconnectAttempts) as [_|Hgt];
    [|unfold maxReconnectAttempts in Hgt; lia].
  split; [|reflexivity].
  destruct (connect_fields u (mark_fired k s)) as (Hu & Hr & Hs & Ht & _).
  rewrite Hok in Hs, Ht.
  change (sockets (mark_fired k s)) with (sockets s) in Hs.
  change (reconnectAttempts (mark_fired k s)) with (reconnectAttempts s) in Hr.
  unfold retry_invariant, status, reconnect_delays.
  rewrite Hu, Hr, Hs, Ht, List.filter_app, map_app, !count_app, !count_one, length_app.
  cbn [List.filter is_reconnect fired_reconnect kind fired andb map live readyState
         ReadyState_eqb negb length].
  fold (reconnect_delays (mark_fired k s)).
  rewrite !app_nil_r, Hd, Hc, Hff, !Nat.add_0_r.
  repeat split; try assumption; try lia.
  intros j k' Hj Hk'.
  apply lookup_app_Some in Hk' as [Hold|[_ Hnew]]; [eauto|].
  destruct (j - length (sockets s))%nat; [|discriminate].
  now injection Hnew as <-.
Qed.

Lemma invariant_closing (u : string) (n0 : nat) (s : State) (i : nat) (k : Socket) :
  sockets s !! i = Some k -> live k = true ->
  retry_invariant u n0 s -> retry_invariant u n0 (set_readyState i CLOSING s).
Proof.
  intros Hk Hl (HA & HB & HC & HD & HE & HF & HG).
  unfold retry_invariant, reconnect_delays, status.
  change (timers (set_readyState i CLOSING s)) with (timers s).
  change (reconnectAttempts (set_readyState i CLOSING s)) with (reconnectAttempts s).
  change (url (set_readyState i CLOSING s)) with (url s).
  change (statuses (set_readyState i CLOSING s)) with (statuses s).
  rewrite (set_readyState_keeps_live i CLOSING s k Hk Hl eq_refl).
  assert (Hlen : length (sockets (set_readyState i CLOSING s)) = length (sockets s))
    by (unfold set_readyState, set_sockets; cbn [sockets]; apply length_alter).
  rewrite Hlen. repeat split; try assumption.
  - intros j k' Hj Hk'. apply set_readyState_lookup in Hk' as (k0 & Hk0 & ->).
    exact (HF j k0 Hj Hk0).
  - intros Hnone _. pose proof (count_lookup live (sockets s) i k Hk Hl). lia.
Qed.

(** The invariant survives every event that is not a call by the client
    and not the opening of a connection. *)
Lemma invariant_step `{Platform} (u : string) (n0 : nat) (s s' : State) (e : Event) :
  url_ok u = true -> failure_event e = true -> step s e = Some s' ->
  retry_invariant u n0 s -> retry_invariant u n0 s'.
Proof.
  intros Hok He Hstep Hinv.
  destruct e as [u'| |i|i f|i|i wasClean|k|i]; try discriminate; cbn [step] in Hstep.
  - destruct (sockets s !! i) as [k|]; [|discriminate].
    destruct (ReadyState_eqb (readyState k) OPEN || ReadyState_eqb (readyState k) CLOSING);
      [|discriminate].
    injection Hstep as <-. now apply invariant_message.
  - destruct (sockets s !! i) as [k|] eqn:Hk; [|discriminate].
    destruct (ReadyState_eqb (readyState k) CLOSED) eqn:Hr; [discriminate|].
    injection Hstep as <-.
    exact (invariant_error u n0 s i k Hk (live_not_closed k Hr) Hinv).
  - destruct (sockets s !! i) as [k|]; [|discriminate].
    destruct (ReadyState_eqb (readyState k) CLOSED); [discriminate|].
    injection Hstep as <-. now apply invariant_close.
  - destruct (timers s !! k) as [t|] eqn:Hk; [|discriminate].
    destruct (fired t) eqn:Hf; [discriminate|].
    injection Hstep as <-.
    destruct (kind t) as [p|] eqn:Hkind.
    + exact (invariant_timeout u n0 s k p t Hk Hf Hkind Hinv).
    + exact (proj1 (invariant_reconnect u n0 s k t Hok Hk Hf Hkind Hinv)).
  - destruct (sockets s !! i) as [k|] eqn:Hk; [|discriminate].
    destruct (ReadyState_eqb (readyState k) OPEN) eqn:Hr; [|discriminate].
    injection Hstep as <-. apply (invariant_closing u n0 s i k Hk); [|exact Hinv].
    unfold live. destruct (readyState k); try discriminate; reflexivity.
Qed.

Lemma invariant_run `{Platform} (u : string) (n0 : nat) (es : list Event) (s s' : State) :
  url_ok u = true -> forallb failure_event es = true -> run s es = Some s' ->
  retry_invariant u n0 s -> retry_invariant u n0 s'.
Proof.
  intros Hok. revert s. induction es as [|e es IH]; intros s Hes Hrun Hinv; cbn in Hrun.
  - now injection Hrun as <-.
  - cbn in Hes. apply andb_prop in Hes as [He Hes].
    destruct (step s e) as [s1|] eqn:Hstep; [|discriminate].
    apply (IH s1 Hes Hrun). exact (invariant_step u n0 s s1 e Hok He Hstep Hinv).
Qed.

(** *** After the last close *)

Lemma count_zero_lookup {A : Type} (P : A -> bool) (l : list A) (i : nat) (x : A) :
  count P l = 0%nat -> l !! i = Some x -> P x = false.
Proof.
  intros Hz Hi. destruct (P x) eqn:Hx; [|reflexivity].
  pose proof (count_lookup P l i x Hi Hx). lia.
Qed.

Lemma socket_close_all_closed (i : nat) (s : State) :
  count live (sockets s) = 0%nat -> socket_close i s = s.
Proof.
  intros Hz. unfold socket_close, readyState_of.
  destruct (sockets s !! i) as [k|] eqn:Hk; [|reflexivity].
  pose proof (count_zero_lookup live (sockets s) i k Hz Hk) as Hl.
  unfold live in Hl. cbn. destruct (readyState k); try discriminate; reflexivity.
Qed.

(** In a quiescent state only a stale connection timeout can still fire,
    and it changes neither the sockets nor what the client has been told. *)
Lemma quiescent_step `{Platform} (s s' : State) (e : Event) :
  quiescent s -> failure_event e = true -> step s e = Some s' ->
  sockets s' = sockets s /\ statuses s' = statuses s /\ quiescent s'.
Proof.
  intros [Hlive Hpend] He Hstep.
  destruct e as [u'| |i|i f|i|i wasClean|k|i]; try discriminate; cbn [step] in Hstep;
    [| | | |destruct (sockets s !! i) as [k|] eqn:Hk; [|discriminate];
            pose proof (count_zero_lookup live _ _ _ Hlive Hk) as Hl; unfold live in Hl;
            destruct (readyState k); discriminate].
  - destruct (sockets s !! i) as [k|] eqn:Hk; [|discriminate].
    pose proof (count_zero_lookup live _ _ _ Hlive Hk) as Hl. unfold live in Hl.
    destruct (readyState k); discriminate.
  - destruct (sockets s !! i) as [k|] eqn:Hk; [|discriminate].
    pose proof (count_zero_lookup live _ _ _ Hlive Hk) as Hl. unfold live in Hl.
    destruct (readyState k); discriminate.
  - destruct (sockets s !! i) as [k|] eqn:Hk; [|discriminate].
    pose proof (count_zero_lookup live _ _ _ Hlive Hk) as Hl. unfold live in Hl.
    destruct (readyState k); discriminate.
  - destruct (timers s !! k) as [t|] eqn:Hk; [|discriminate].
    destruct (fired t) eqn:Hf; [discriminate|].
    pose proof (count_zero_lookup pending_reconnect _ _ _ Hpend Hk) as Hp.
    unfold pending_reconnect, is_reconnect in Hp. rewrite Hf in Hp.
    destruct (kind t) as [p|] eqn:Hkind; [|discriminate].
    injection Hstep as <-.
    destruct (timeout_callback_fields p (mark_fired k s)) as (_ & Ht & _ & Hst & Hl & _).
    pose proof (mark_fired_pending k s t Hk Hf) as Hm.
    unfold is_reconnect in Hm. rewrite Hkind in Hm.
    assert (Hs : sockets (timeout_callback p (mark_fired k s)) = sockets s).
    { unfold timeout_callback. destruct (ws_not_open (mark_fired k s)); [|reflexivity].
      unfold reject.
      destruct (settle_fields p (Rejected "Connection timeout")
                  (match ws (mark_fired k s) with
                   | Some i => socket_close i (mark_fired k s)
                   | None => mark_fired k s
                   end)) as (_ & _ & _ & Hs & _).
      rewrite Hs. destruct (ws (mark_fired k s)) as [i|]; [|reflexivity].
      now rewrite (socket_close_all_closed i (mark_fired k s) Hlive). }
    split; [exact Hs|]. split; [exact Hst|].
    split; [now rewrite Hs | rewrite Ht; lia].
Qed.

Lemma quiescent_run `{Platform} (es : list Event) (s s' : State) :
  quiescent s -> forallb failure_event es = true -> run s es = Some s' ->
  sockets s' = sockets s /\ statuses s' = statuses s /\ quiescent s'.
Proof.
  revert s. induction es as [|e es IH]; intros s Hq Hes Hrun; cbn in Hrun.
  - injection Hrun as <-. auto.
  - cbn in Hes. apply andb_prop in Hes as [He Hes].
    destruct (step s e) as [s1|] eqn:Hstep; [|discriminate].
    destruct (quiescent_step s s1 e Hq He Hstep) as (Hs1 & Hst1 & Hq1).
    destruct (IH s1 Hq1 Hes Hrun) as (Hs & Hst & Hq').
    rewrite Hs, Hst. auto.
Qed.

Lemma fresh_invariant `{Platform} (s0 : State) :
  fresh s0 -> retry_invariant (url s0) (length (sockets s0)) s0.
Proof.
  intros (Hr & Hn & _ & HG). unfold retry_invariant.
  assert (Hf : count fired_reconnect (timers s0) = 0%nat).
  { pose proof (count_le fired_reconnect is_reconnect (timers s0)) as Hle.
    assert (count fired_reconnect (timers s0) <= count is_reconnect (timers s0))%nat
      by (apply Hle; intros t Ht; unfold fired_reconnect in Ht;
          now apply andb_prop in Ht as [-> _]).
    lia. }
  rewrite Hn, Hf, Hr. repeat split; try lia; try exact HG.
  - unfold reconnect_delays. unfold count in Hn.
    now rewrite (nil_length_inv _ Hn).
  - intros i k Hi Hk. apply lookup_lt_Some in Hk. lia.
Qed.

(** A new service that has just been told to connect to an address the
    platform accepts is such a state. *)
Lemma fresh_after_connect `{Platform} (u : string) :
  url_ok u = true -> fresh (connect u initial).
Proof.
  intros Hok. destruct (connect_fields u initial) as (Hu & Hr & Hs & Ht & _).
  rewrite Hok in Hs, Ht. unfold fresh.
  rewrite Hu, Hr, Hs, Ht. repeat split; try assumption.
  intros Hlive. cbn in Hlive. discriminate.
Qed.

(** So is the state in which a connection has just opened, when no retry
    had been set before. *)
Lemma fresh_after_open `{Platform} (s s' : State) (i : nat) :
  url_ok (url s) = true -> count is_reconnect (timers s) = 0%nat ->
  step s (SockOpen i) = Some s' -> fresh s'.
Proof.
  intros Hok Hn Hstep. cbn [step] in Hstep.
  destruct (sockets s !! i) as [k|] eqn:Hk; [|discriminate].
  destruct (ReadyState_eqb (readyState k) CONNECTING); [|discriminate].
  injection Hstep as <-.
  destruct (onopen_fields (sock_promise k) (set_readyState i OPEN s)) as (Hu & Hs & Ht & Hr).
  unfold fresh. rewrite Hu, Hs, Ht, Hr.
  repeat split; try assumption.
  intros Hlive.
  assert (Hopen : sockets (set_readyState i OPEN s) !! i
                  = Some (mkSocket (sock_url k) OPEN (sock_promise k))).
  { unfold set_readyState, set_sockets. cbn [sockets].
    rewrite list_lookup_alter_eq, Hk. reflexivity. }
  pose proof (count_lookup live _ _ _ Hopen eq_refl). lia.
Qed.

(** C5.  Take a state from which failures are counted and let the
    platform deliver any events other than a connection opening.  At most
    three retries are ever set; the n-th waits n times 1000 ms; every retry
    that fires makes one socket, to the same address; and once every socket
    has closed with no retry waiting, the client has been told
    [disconnected] and nothing makes a socket or reports a status any
    more. *)
Theorem reconnect_budget `{Platform} (s0 s : State) (es : list Event) :
  fresh s0 -> forallb failure_event es = true -> run s0 es = Some s ->
  let n := count is_reconnect (timers s) in
  (n <= 3)%nat /\
  reconnectAttempts s = Z.of_nat n /\
  reconnect_delays s = backoff n /\
  url s = url s0 /\
  (count fired_reconnect (timers s) <= n)%nat /\
  length (sockets s) = (length (sockets s0) + count fired_reconnect (timers s))%nat /\
  (forall (i : nat) (k : Socket),
      (length (sockets s0) <= i)%nat -> sockets s !! i = Some k -> sock_url k = url s0) /\
  (quiescent s -> sockets s <> [] ->
   status s = Some disconnected /\
   forall (es' : list Event) (s' : State),
     forallb failure_event es' = true -> run s es' = Some s' ->
     sockets s' = sockets s /\ statuses s' = statuses s).
Proof.
  intros Hfresh Hes Hrun n.
  pose proof (fresh_invariant s0 Hfresh) as Hinv0.
  destruct Hfresh as (_ & _ & Hok & _).
  destruct (invariant_run (url s0) (length (sockets s0)) es s0 s Hok Hes Hrun Hinv0)
    as (HA & HB & HC & HD & HE & HF & HG).
  fold n in HA, HB, HC.
  do 4 (split; [assumption|]).
  split.
  { apply count_le. intros t Ht. unfold fired_reconnect in Ht.
    now apply andb_prop in Ht as [-> _]. }
  do 2 (split; [assumption|]).
  intros Hq Hne. split.
  - destruct Hq as [Hlive _]. now apply HG.
  - intros es' s' Hes' Hrun'.
    destruct (quiescent_run es' s s' Hq Hes' Hrun') as (Hs & Hst & _). auto.
Qed.

Lemma reconnect_budget_witness :
  let s := after [Connect "wss://h/p"; SockOpen 0;
                  SockClose 0 false; TimerFire 1; SockError 1; SockClose 1 false;
                  TimerFire 3; SockClose 2 false; TimerFire 5; SockClose 3 false] in
  reconnect_delays s = backoff (count is_reconnect (timers s)) /\
  (count is_reconnect (timers s) <= 3)%nat /\
  status s = Some disconnected.
Proof.
  intros s.
  destruct (@reconnect_budget ws_schemes
              (after [Connect "wss://h/p"; SockOpen 0]) s
              [SockClose 0 false; TimerFire 1; SockError 1; SockClose 1 false;
               TimerFire 3; SockClose 2 false; TimerFire 5; SockClose 3 false])
    as (Hn & _ & Hd & _ & _ & _ & _ & Hq).
  - unfold fresh. split; [vm_compute; reflexivity|].
    split; [vm_compute; reflexivity|]. split; [vm_compute; reflexivity|].
    intros Hlive. vm_compute in Hlive. discriminate.
  - reflexivity.
  - vm_compute. reflexivity.
  - split; [exact Hd|]. split; [exact Hn|].
    apply Hq; [split; vm_compute; reflexivity | vm_compute; discriminate].
Defined.

(** The run of the witness in full: three retries after 1000, 2000 and
    3000 ms, four sockets to the same address, then [disconnected]. *)
Example three_retries_then_disconnected :
  let s := after [Connect "wss://h/p"; SockOpen 0;
                  SockClose 0 false; TimerFire 1; SockError 1; SockClose 1 false;
                  TimerFire 3; SockClose 2 false; TimerFire 5; SockClose 3 false] in
  reconnect_delays s = [1000; 2000; 3000] /\
  map sock_url (sockets s) = ["wss://h/p"; "wss://h/p"; "wss://h/p"; "wss://h/p"] /\
  map readyState (sockets s) = [CLOSED; CLOSED; CLOSED; CLOSED] /\
  reconnectAttempts s = 3 /\
  last (statuses s) = Some disconnected /\
  count pending_reconnect (timers s) = 0%nat.
Proof. by_evaluation. Qed.

End ChannelFacts.

(** ** The orchestrator *)

Section OrchestratorFacts.
Import Crypto Orchestrator.

(** What the handlers do to the session state on a fault.  A fault while
    connecting (the channel reports [error], the
    [connect] promise is rejected, or the scanned text is no descriptor)
    puts the session in [idle].  A fault after connecting leaves the channel
    alone and the session in [connected]: a payload for which no key is at
    hand changes nothing in a connected session, and a payload whose
    decryption or extraction fails, by a failure result or by a fault, puts
    the session back in [connected]; a payload with a key ends in
    [connected] or in [viewing], nowhere else.  [idle] and [connected] are
    states the session can start again from. *)
Theorem errors_return_to_stable_state `{CryptoJS} `{JSZip} :
  (forall s, appState (onStatusChange Channel.error s) = idle) /\
  (forall s, appState (handleQRScan_rejected s) = idle) /\
  (forall s scanned,
      Descriptor.parseQRData scanned = None ->
      appState (handleQRScan scanned s) = idle /\ calls (handleQRScan scanned s) = calls s) /\
  (forall s captured encryptedData,
      key_of captured = None ->
      appState (handleEncryptedData captured encryptedData s) = appState s /\
      calls (handleEncryptedData captured encryptedData s) = calls s) /\
  (forall s captured encryptedData k reason,
      key_of captured = Some k ->
      decryptAndExtractZip encryptedData k None = failure reason ->
      appState (handleEncryptedData captured encryptedData s) = connected /\
      calls (handleEncryptedData captured encryptedData s) = calls s) /\
  (forall s e,
      appState (handleEncryptedData_settle (Throw e) s) = connected /\
      calls (handleEncryptedData_settle (Throw e) s) = calls s) /\
  (forall s captured encryptedData k,
      key_of captured = Some k ->
      appState (handleEncryptedData captured encryptedData s) = connected \/
      appState (handleEncryptedData captured encryptedData s) = viewing) /\
  stable idle = true /\ stable connected = true.
Proof.
  split; [reflexivity|]. split; [reflexivity|].
  split.
  { intros s scanned Hnone. unfold handleQRScan. rewrite Hnone. split; reflexivity. }
  split.
  { intros s captured encryptedData Hkey.
    unfold handleEncryptedData, handleEncryptedData_begin. rewrite Hkey.
    split; reflexivity. }
  split.
  { intros s captured encryptedData k reason Hkey Hfail.
    unfold handleEncryptedData, handleEncryptedData_begin. rewrite Hkey, Hfail.
    split; reflexivity. }
  split; [intros s e; split; reflexivity|].
  split; [|split; reflexivity].
  intros s captured encryptedData k Hkey.
  unfold handleEncryptedData, handleEncryptedData_begin. rewrite Hkey.
  destruct (decryptAndExtractZip_outcome encryptedData k None)
    as [(reason & ->)|(fs & -> & _)]; [left | right]; reflexivity.
Qed.

Lemma errors_return_to_stable_state_witness :
  let s := setAppState connected initial in
  appState (handleQRScan "not a descriptor" s) = idle /\
  appState (@handleEncryptedData StandIn.null_cipher (StandIn.archive_of [])
              (Some (mkDescriptor "wss://h/p" None)) StandIn.decryptable s)
  = connected /\
  appState (@handleEncryptedData StandIn.null_cipher (StandIn.archive_of [])
              (Some (mkDescriptor "wss://h/p" (Some "k"))) StandIn.undecryptable s)
  = connected /\
  appState (@handleEncryptedData StandIn.null_cipher
              (StandIn.archive_of [("notes.txt", StandIn.text_file)])
              (Some (mkDescriptor "wss://h/p" (Some "k"))) StandIn.decryptable s)
  = connected.
Proof.
  intros s.
  split.
  { destruct (@errors_return_to_stable_state StandIn.null_cipher (StandIn.archive_of []))
      as (_ & _ & Hscan & _).
    apply Hscan. vm_compute. reflexivity. }
  split.
  { destruct (@errors_return_to_stable_state StandIn.null_cipher (StandIn.archive_of []))
      as (_ & _ & _ & Hkey & _).
    destruct (Hkey s (Some (mkDescriptor "wss://h/p" None)) StandIn.decryptable eq_refl)
      as [-> _]. reflexivity. }
  split.
  { destruct (@errors_return_to_stable_state StandIn.null_cipher (StandIn.archive_of []))
      as (_ & _ & _ & _ & Hfail & _).
    apply (Hfail s _ _ "k" "Failed to decrypt data"); [reflexivity|].
    vm_compute. reflexivity. }
  destruct (@errors_return_to_stable_state StandIn.null_cipher
              (StandIn.archive_of [("notes.txt", StandIn.text_file)]))
    as (_ & _ & _ & _ & Hfail & _).
  apply (Hfail s _ _ "k" "No image files found in archive"); [reflexivity|].
  vm_compute. reflexivity.
Defined.

(** C9.  The handlers bring the session back to [idle], but the page does
    not survive the render that follows.  The scanned descriptor
    [{url: example.com}] is accepted, since its [url] is truthy, and kept
    in [qrData]; the socket constructor refuses the address, so the
    channel reports [error] and the handlers set the session to [idle]
    with [qrData] still set.  Every render with [qrData] set reads the
    host of its address, and for this address that read throws: the
    render after the scan and the render after the fault both fail. *)
Theorem unparseable_address_crashes_render :
  let scanned := JSString.js "{'url':'example.com'}" in
  let s1 := handleQRScan scanned initial in
  let s2 := handleQRScan_rejected
              (onStatusChange Channel.error (onStatusChange Channel.connecting s1)) in
  qrData s1 = Some (mkDescriptor "example.com" None) /\
  calls s1 = [call_connect "example.com"] /\
  Channel.statuses (@Channel.connect Channel.ws_schemes "example.com" Channel.initial)
  = [Channel.connecting; Channel.error] /\
  Channel.promises (@Channel.connect Channel.ws_schemes "example.com" Channel.initial)
  = [Channel.Rejected "SyntaxError"] /\
  appState s2 = idle /\
  qrData s2 = Some (mkDescriptor "example.com" None) /\
  @render url_reader s1 = Throw (TypeError "Invalid URL") /\
  @render url_reader s2 = Throw (TypeError "Invalid URL") /\
  @render url_reader (handleQRScan "wss://host:8443/feed" initial)
  = Normal (MainView (Some "host:8443")).
Proof. by_evaluation. Qed.

End OrchestratorFacts.

(** * Further properties

    ** Base64 *)

Section Base64Facts.
Import Crypto.
Local Open Scope Z_scope.

Lemma list_ind3 {A : Type} (P : list A -> Prop) :
  P [] -> (forall a, P [a]) -> (forall a b, P [a; b]) ->
  (forall a b c r, P r -> P (a :: b :: c :: r)) ->
  forall l, P l.
Proof.
  intros H0 H1 H2 H3.
  assert (H : forall l, P l /\ (forall a, P (a :: l)) /\ (forall a b, P (a :: b :: l))).
  { induction l as [|x l (IH0 & IH1 & IH2)]; [auto|].
    split; [apply IH1|]. split; [intros a; apply IH2|].
    intros a b. apply H3, IH0. }
  intros l. apply H.
Qed.

Lemma base64_char_spec (n : Z) :
  0 <= n < 64 ->
  exists c, base64_char n = String c EmptyString /\ base64_index c = n /\
            Ascii.eqb c "="%char = false.
Proof.
  intros Hn. rewrite <- (Z2Nat.id n) by lia.
  assert (Hk : (Z.to_nat n < 64)%nat) by lia.
  generalize dependent (Z.to_nat n). clear Hn. intros k Hk.
  do 64 (destruct k as [|k]; [eexists; repeat split; vm_compute; reflexivity|]).
  lia.
Qed.

Lemma sextets (b : byte) :
  0 <= Z_of_byte b / 4 < 64 /\ 0 <= Z_of_byte b mod 4 * 16 < 64 /\
  0 <= Z_of_byte b mod 16 * 4 < 64 /\ 0 <= Z_of_byte b mod 64 < 64 /\
  0 <= Z_of_byte b / 16 < 16 /\ 0 <= Z_of_byte b / 64 < 4.
Proof.
  pose proof (Z_of_byte_range b). repeat split; Z.div_mod_to_equations; lia.
Qed.

Lemma base64_decode_encode (buffer : bytes) :
  base64_decode (arrayBufferToBase64 buffer) = buffer.
Proof.
  induction buffer as [|b0|b0 b1|b0 b1 b2 r IH] using list_ind3.
  - reflexivity.
  - cbn [arrayBufferToBase64]. cbv zeta.
    pose proof (Z_of_byte_range b0) as R0.
    destruct (base64_char_spec (Z_of_byte b0 / 4)) as (c0 & -> & I0 & _);
      [Z.div_mod_to_equations; lia|].
    destruct (base64_char_spec (Z_of_byte b0 mod 4 * 16)) as (c1 & -> & I1 & _);
      [Z.div_mod_to_equations; lia|].
    cbv [String.append]. cbn [base64_decode]. rewrite I0, I1.
    change (Ascii.eqb "=" "=") with true. cbv iota.
    replace (Z_of_byte b0 / 4 * 4 + Z_of_byte b0 mod 4 * 16 / 16) with (Z_of_byte b0)
      by (Z.div_mod_to_equations; lia).
    now rewrite byte_of_Z_of_byte.
  - cbn [arrayBufferToBase64]. cbv zeta.
    pose proof (Z_of_byte_range b0) as R0. pose proof (Z_of_byte_range b1) as R1.
    destruct (base64_char_spec (Z_of_byte b0 / 4)) as (c0 & -> & I0 & _);
      [Z.div_mod_to_equations; lia|].
    destruct (base64_char_spec (Z_of_byte b0 mod 4 * 16 + Z_of_byte b1 / 16))
      as (c1 & -> & I1 & _); [Z.div_mod_to_equations; lia|].
    destruct (base64_char_spec (Z_of_byte b1 mod 16 * 4)) as (c2 & -> & I2 & E2);
      [Z.div_mod_to_equations; lia|].
    cbv [String.append]. cbn [base64_decode]. rewrite I0, I1, I2, E2.
    change (Ascii.eqb "=" "=") with true. cbv iota.
    replace (Z_of_byte b0 / 4 * 4 + (Z_of_byte b0 mod 4 * 16 + Z_of_byte b1 / 16) / 16)
      with (Z_of_byte b0) by (Z.div_mod_to_equations; lia).
    replace ((Z_of_byte b0 mod 4 * 16 + Z_of_byte b1 / 16) mod 16 * 16
             + Z_of_byte b1 mod 16 * 4 / 4)
      with (Z_of_byte b1) by (Z.div_mod_to_equations; lia).
    now rewrite !byte_of_Z_of_byte.
  - cbn [arrayBufferToBase64]. cbv zeta.
    pose proof (Z_of_byte_range b0) as R0. pose proof (Z_of_byte_range b1) as R1.
    pose proof (Z_of_byte_range b2) as R2.
    destruct (base64_char_spec (Z_of_byte b0 / 4)) as (c0 & -> & I0 & _);
      [Z.div_mod_to_equations; lia|].
    destruct (base64_char_spec (Z_of_byte b0 mod 4 * 16 + Z_of_byte b1 / 16))
      as (c1 & -> & I1 & _); [Z.div_mod_to_equations; lia|].
    destruct (base64_char_spec (Z_of_byte b1 mod 16 * 4 + Z_of_byte b2 / 64))
      as (c2 & -> & I2 & E2); [Z.div_mod_to_equations; lia|].
    destruct (base64_char_spec (Z_of_byte b2 mod 64)) as (c3 & -> & I3 & E3);
      [Z.div_mod_to_equations; lia|].
    cbv [String.append]. cbn [base64_decode]. rewrite I0, I1, I2, I3, E2, E3, IH.
    replace (Z_of_byte b0 / 4 * 4 + (Z_of_byte b0 mod 4 * 16 + Z_of_byte b1 / 16) / 16)
      with (Z_of_byte b0) by (Z.div_mod_to_equations; lia).
    replace ((Z_of_byte b0 mod 4 * 16 + Z_of_byte b1 / 16) mod 16 * 16
             + (Z_of_byte b1 mod 16 * 4 + Z_of_byte b2 / 64) / 4)
      with (Z_of_byte b1) by (Z.div_mod_to_equations; lia).
    replace ((Z_of_byte b1 mod 16 * 4 + Z_of_byte b2 / 64) mod 4 * 64 + Z_of_byte b2 mod 64)
      with (Z_of_byte b2) by (Z.div_mod_to_equations; lia).
    now rewrite !byte_of_Z_of_byte.
Qed.

Lemma base64_char_length (n : Z) : 0 <= n < 64 -> String.length (base64_char n) = 1%nat.
Proof.
  intros Hn. destruct (base64_char_spec n Hn) as (c & -> & _). reflexivity.
Qed.

Lemma string_length_app (a b : string) :
  String.length (a ++ b) = (String.length a + String.length b)%nat.
Proof.
  induction a as [|c a IH]; [reflexivity|].
  change (String c a ++ b)%string with (String c (a ++ b)).
  cbn [String.length]. now rewrite IH.
Qed.

Lemma arrayBufferToBase64_length (buffer : bytes) :
  Z.of_nat (String.length (arrayBufferToBase64 buffer))
  = 4 * ((Z.of_nat (length buffer) + 2) / 3).
Proof.
  induction buffer as [|b0|b0 b1|b0 b1 b2 r IH] using list_ind3.
  - reflexivity.
  - cbn [arrayBufferToBase64]. cbv zeta.
    pose proof (Z_of_byte_range b0) as R0.
    rewrite !string_length_app, !base64_char_length by (Z.div_mod_to_equations; lia).
    reflexivity.
  - cbn [arrayBufferToBase64]. cbv zeta.
    pose proof (Z_of_byte_range b0) as R0. pose proof (Z_of_byte_range b1) as R1.
    rewrite !string_length_app, !base64_char_length by (Z.div_mod_to_equations; lia).
    reflexivity.
  - cbn [arrayBufferToBase64]. cbv zeta.
    pose proof (Z_of_byte_range b0) as R0. pose proof (Z_of_byte_range b1) as R1.
    pose proof (Z_of_byte_range b2) as R2.
    rewrite !string_length_app, !base64_char_length by (Z.div_mod_to_equations; lia).
    cbn [length]. Z.div_mod_to_equations; lia.
Qed.

(** X1.  Decoding the base64 text that [arrayBufferToBase64] makes gives
    the bytes back, whatever their number: the data URL of a picture
    holds the picture. *)
Theorem base64_round_trip (buffer : bytes) :
  base64_decode (arrayBufferToBase64 buffer) = buffer.
Proof. apply base64_decode_encode. Qed.

(** X2.  Two buffers with the same base64 text are the same buffer, and
    the text of a buffer of n bytes has 4 * ceil(n / 3) characters. *)
Theorem arrayBufferToBase64_injective (a b : bytes) :
  arrayBufferToBase64 a = arrayBufferToBase64 b ->
  a = b /\
  Z.of_nat (String.length (arrayBufferToBase64 a)) = 4 * ((Z.of_nat (length a) + 2) / 3).
Proof.
  intros Heq. split; [|apply arrayBufferToBase64_length].
  rewrite <- (base64_decode_encode a), <- (base64_decode_encode b). now rewrite Heq.
Qed.

Lemma arrayBufferToBase64_injective_witness :
  StandIn.bytes_of [137; 80; 78; 71] = StandIn.bytes_of [137; 80; 78; 71] /\
  Z.of_nat (String.length (arrayBufferToBase64 (StandIn.bytes_of [137; 80; 78; 71])))
  = 4 * ((Z.of_nat (length (StandIn.bytes_of [137; 80; 78; 71])) + 2) / 3).
Proof.
  apply (arrayBufferToBase64_injective (StandIn.bytes_of [137; 80; 78; 71])
           (StandIn.bytes_of [137; 80; 78; 71])).
  reflexivity.
Defined.

End Base64Facts.

(** ** More of the decryption engine *)

Section CryptoMore.
Import JSString Crypto.
Local Open Scope Z_scope.

Lemma existsb_eqb_In (x : string) (l : list string) :
  existsb (String.eqb x) l = true <-> In x l.
Proof.
  rewrite existsb_exists. split.
  - intros (y & Hin & E). apply String.eqb_eq in E. now subst.
  - intros Hin. exists x. split; [assumption | apply String.eqb_refl].
Qed.

Lemma assoc_mimeTypes (ext : string) :
  is_Some (assoc mimeTypes ext) <-> In ext imageExtensions.
Proof.
  unfold mimeTypes, imageExtensions. cbn [assoc In].
  repeat match goal with
         | |- context [String.eqb ?a ext] =>
             destruct (String.eqb_spec a ext) as [<-|?];
             [split; [intros _; auto 10 | intros _; eexists; reflexivity]|]
         end.
  split; [intros [? ?]; discriminate|].
  intros Hin. repeat (destruct Hin as [Hin|Hin]; [congruence|]). destruct Hin.
Qed.

(** X3.  The two extension tables agree: [isImageFile] accepts a name
    exactly when [getMimeType] has an entry for its extension, so for an
    accepted name [getMimeType] returns that entry, an [image/] type, and
    never falls back to its default. *)
Theorem mime_table_covers_image_extensions (filename : string) :
  (isImageFile filename = true <-> is_Some (assoc mimeTypes (file_ext filename))) /\
  (isImageFile filename = true ->
   assoc mimeTypes (file_ext filename) = Some (getMimeType filename) /\
   startsWith (getMimeType filename) "image/" = true).
Proof.
  assert (Hiff : isImageFile filename = true
                 <-> is_Some (assoc mimeTypes (file_ext filename))).
  { unfold isImageFile. now rewrite existsb_eqb_In, assoc_mimeTypes. }
  split; [exact Hiff|].
  intros Himg. apply Hiff in Himg. unfold getMimeType.
  revert Himg. generalize (file_ext filename). intros ext.
  unfold mimeTypes. cbn [assoc].
  repeat match goal with
         | |- context [String.eqb ?a ext] =>
             destruct (String.eqb_spec a ext) as [<-|?];
             [intros _; split; reflexivity|]
         end.
  intros [? ?]; discriminate.
Qed.

Lemma mime_table_covers_image_extensions_witness :
  assoc mimeTypes (file_ext "Photos/IMG.0001.JPeG") = Some (getMimeType "Photos/IMG.0001.JPeG") /\
  startsWith (getMimeType "Photos/IMG.0001.JPeG") "image/" = true.
Proof.
  apply (mime_table_covers_image_extensions "Photos/IMG.0001.JPeG"). reflexivity.
Defined.

End CryptoMore.

Section ExtractMore.
Import JSString Crypto.
Local Open Scope Z_scope.

Lemma process_entry_other (acc : gmap string string) (entry : string * ZipObject)
  (name : string) :
  fst entry <> name -> process_entry acc entry !! name = acc !! name.
Proof.
  destruct entry as [filename file]. cbn [fst]. intros Hne. unfold process_entry.
  destruct (negb (dir file) && isImageFile filename); [|reflexivity].
  destruct (async_arraybuffer file); [|reflexivity].
  now rewrite lookup_insert_ne.
Qed.

Lemma fold_process_entry_other (entries : list (string * ZipObject))
  (acc : gmap string string) (name : string) :
  ~ In name (map fst entries) ->
  fold_left process_entry entries acc !! name = acc !! name.
Proof.
  revert acc. induction entries as [|entry entries IH]; intros acc Hnot; [reflexivity|].
  cbn [fold_left]. rewrite IH by (intros Hin; apply Hnot; right; exact Hin).
  apply process_entry_other. intros E. apply Hnot. left. exact E.
Qed.

Lemma process_entry_size (acc : gmap string string) (entry : string * ZipObject) :
  acc !! fst entry = None ->
  size (process_entry acc entry)
  = (size acc + if kept entry then 1 else 0)%nat.
Proof.
  destruct entry as [filename file]. cbn [fst]. intros Hnone.
  unfold process_entry, kept, readable. cbn [fst snd].
  destruct (negb (dir file) && isImageFile filename); cbn [andb]; [|lia].
  destruct (async_arraybuffer file); [|lia].
  rewrite map_size_insert_None by exact Hnone. lia.
Qed.

Lemma fold_process_entry_size (entries : list (string * ZipObject))
  (acc : gmap string string) :
  List.NoDup (map fst entries) ->
  (forall name, In name (map fst entries) -> acc !! name = None) ->
  size (fold_left process_entry entries acc)
  = (size acc + length (List.filter kept entries))%nat.
Proof.
  revert acc. induction entries as [|entry entries IH]; intros acc Hnd Hacc.
  - cbn. lia.
  - cbn [map] in Hnd. apply List.NoDup_cons_iff in Hnd as [Hhd Hnd].
    cbn [fold_left List.filter]. rewrite IH; [|exact Hnd|].
    + rewrite process_entry_size by (apply Hacc; left; reflexivity).
      destruct (kept entry); cbn [length]; lia.
    + intros name Hin. rewrite process_entry_other by (intros E; subst; contradiction).
      apply Hacc. right. exact Hin.
Qed.

Lemma fold_process_entry_value (entries : list (string * ZipObject))
  (acc : gmap string string) (name : string) (file : ZipObject) (data : bytes) :
  List.NoDup (map fst entries) ->
  In (name, file) entries ->
  dir file = false -> isImageFile name = true -> async_arraybuffer file = Normal data ->
  fold_left process_entry entries acc !! name
  = Some ("data:" ++ getMimeType name ++ ";base64," ++ arrayBufferToBase64 data)%string.
Proof.
  intros Hnd Hin Hdir Himg Hread. revert acc Hnd Hin.
  induction entries as [|entry entries IH]; intros acc Hnd Hin; [destruct Hin|].
  cbn [map] in Hnd. apply List.NoDup_cons_iff in Hnd as [Hhd Hnd].
  cbn [fold_left]. destruct Hin as [->|Hin].
  - cbn [fst] in Hhd. rewrite fold_process_entry_other by exact Hhd.
    unfold process_entry. rewrite Hdir, Himg, Hread. cbn [negb andb].
    apply lookup_insert_eq.
  - apply IH; assumption.
Qed.

(** X4.  For an archive whose entry names are distinct (they are the keys
    of an object), every entry that is not a directory, has an image name
    and can be read is stored under its name as
    [data:<mime type>;base64,<its bytes in base64>], and the number of
    files stored is the number of such entries. *)
Theorem extract_files_contents (entries : list (string * ZipObject)) :
  List.NoDup (map fst entries) ->
  (forall name file data,
      In (name, file) entries ->
      dir file = false -> isImageFile name = true ->
      async_arraybuffer file = Normal data ->
      extract_files entries !! name
      = Some ("data:" ++ getMimeType name ++ ";base64," ++ arrayBufferToBase64 data)%string) /\
  size (extract_files entries) = length (List.filter kept entries).
Proof.
  intros Hnd. split.
  - intros name file data. now apply fold_process_entry_value.
  - unfold extract_files. rewrite fold_process_entry_size; [|exact Hnd|].
    + rewrite map_size_empty. lia.
    + intros name _. apply lookup_empty.
Qed.

Lemma extract_files_contents_witness :
  extract_files [("docs/", StandIn.folder); ("a.PNG", StandIn.image_file);
                 ("b.txt", StandIn.text_file); ("c.gif", StandIn.damaged_file)]
    !! "a.PNG" = Some "data:image/png;base64,iVBORw==" /\
  size (extract_files [("docs/", StandIn.folder); ("a.PNG", StandIn.image_file);
                       ("b.txt", StandIn.text_file); ("c.gif", StandIn.damaged_file)])
  = 1%nat.
Proof.
  assert (Hnd : List.NoDup (map fst [("docs/", StandIn.folder); ("a.PNG", StandIn.image_file);
                                     ("b.txt", StandIn.text_file);
                                     ("c.gif", StandIn.damaged_file)])).
  { repeat constructor; cbn; intuition discriminate. }
  destruct (extract_files_contents _ Hnd) as [Hvalue Hsize].
  split; [|exact Hsize].
  apply (Hvalue "a.PNG" StandIn.image_file (StandIn.bytes_of [137; 80; 78; 71]));
    [cbn; auto | reflexivity | reflexivity | reflexivity].
Defined.

Lemma size_zero_no_kept (entries : list (string * ZipObject)) :
  (Z.of_nat (size (extract_files entries)) =? 0) = negb (existsb kept entries).
Proof.
  destruct (existsb kept entries) eqn:E; cbn [negb].
  - apply existsb_exists in E as ([name file] & Hin & Hk).
    apply Z.eqb_neq. intros Hz.
    assert (Hs : is_Some (extract_files entries !! name)).
    { unfold extract_files. apply fold_process_entry_lookup. right.
      exists file. split; [now apply list_elem_of_In | exact Hk]. }
    assert (Hempty : extract_files entries = ∅) by (apply map_size_empty_inv; lia).
    rewrite Hempty, lookup_empty in Hs. destruct Hs as [? Hs]. discriminate.
  - apply Z.eqb_eq. rewrite extract_files_empty; [now rewrite map_size_empty|].
    intros entry Hin. apply list_elem_of_In in Hin.
    destruct (kept entry) eqn:Hk; [|reflexivity].
    assert (existsb kept entries = true) by (apply existsb_exists; eauto). congruence.
Qed.

Lemma decryptAndExtractZip_cases `{CryptoJS} `{JSZip}
  (encryptedData : bytes) (key : string) (iv : option string) :
  decryptAndExtractZip encryptedData key iv
  = match snd (decrypt_stage encryptedData key iv) with
    | None => failure "Failed to decrypt data"
    | Some decryptedData =>
        match loadAsync decryptedData with
        | Throw e => failure (message_or e "Unknown error")
        | Normal entries =>
            if existsb kept entries then succeeded (extract_files entries)
            else failure "No image files found in archive"
        end
    end.
Proof.
  unfold decryptAndExtractZip, decryptAndExtractZip_body, decryptAndExtractZip_try.
  destruct (snd (decrypt_stage encryptedData key iv)) as [plaintext|]; [|reflexivity].
  destruct (loadAsync plaintext) as [entries|e]; cbn [cbind try_catch]; [|reflexivity].
  rewrite size_zero_no_kept. destruct (existsb kept entries); reflexivity.
Qed.

(** X5.  The result of [decryptAndExtractZip], case by case: no plaintext
    gives [Failed to decrypt data]; a plaintext the archive library
    rejects gives the message of the rejection, or [Unknown error] when
    what was thrown is not an Error; an archive with no entry to keep
    gives [No image files found in archive]; every other archive gives
    success with the extracted files. *)
Theorem decryptAndExtractZip_table `{CryptoJS} `{JSZip}
  (encryptedData : bytes) (key : string) (iv : option string) :
  decryptAndExtractZip encryptedData key iv
  = match snd (decrypt_stage encryptedData key iv) with
    | None => failure "Failed to decrypt data"
    | Some decryptedData =>
        match loadAsync decryptedData with
        | Throw e => failure (message_or e "Unknown error")
        | Normal entries =>
            if existsb kept entries then succeeded (extract_files entries)
            else failure "No image files found in archive"
        end
    end.
Proof. apply decryptAndExtractZip_cases. Qed.

End ExtractMore.

Section ConversionMore.
Import JSString Crypto.
Local Open Scope Z_scope.

(** X6.  The conversion loop undoes [WordArray.create]: packing bytes
    into big-endian words and reading [sigBytes] bytes back gives the
    same bytes, for every length. *)
Theorem conversion_loop_inverts_packing (data : bytes) :
  to_ArrayBuffer (WordArray_of_bytes data) = Normal data.
Proof.
  apply to_ArrayBuffer_holds, WordArray_of_bytes_holds.
Qed.

Lemma WordArray_byte_missing (wa : WordArray) (i : nat) :
  (4 * length (words wa) <= i)%nat -> WordArray_byte wa i = 0.
Proof.
  intros Hi. unfold WordArray_byte.
  rewrite nth_overflow; [reflexivity|].
  apply Nat2Z.inj_le. rewrite Z2Nat.id by (apply Z.div_pos; lia).
  apply Z.div_le_lower_bound; lia.
Qed.

(** X7.  The conversion loop on any word array.  A negative [sigBytes]
    is a RangeError.  Otherwise the buffer has [sigBytes] bytes, byte [i]
    is the big-endian byte [i] of the words, and a byte past the last word
    is zero. *)
Theorem conversion_loop_shape (decrypted : WordArray) :
  (sigBytes decrypted < 0 ->
   to_ArrayBuffer decrypted = Throw (RangeError "Invalid typed array length")) /\
  (0 <= sigBytes decrypted ->
   exists buffer,
     to_ArrayBuffer decrypted = Normal buffer /\
     Z.of_nat (length buffer) = sigBytes decrypted /\
     (forall i : nat, (i < length buffer)%nat ->
        buffer !! i = Some (byte_of_Z (WordArray_byte decrypted i))) /\
     (forall i : nat, (i < length buffer)%nat ->
        (4 * length (words decrypted) <= i)%nat ->
        buffer !! i = Some (byte_of_Z 0))).
Proof.
  unfold to_ArrayBuffer, new_Uint8Array, cbind. split; intros Hs.
  - destruct (Z.ltb_spec (sigBytes decrypted) 0); [reflexivity | lia].
  - destruct (Z.ltb_spec (sigBytes decrypted) 0); [lia|].
    eexists. split; [reflexivity|].
    assert (Hbyte : forall i : nat,
      (i < Z.to_nat (sigBytes decrypted))%nat ->
      map (fun i0 : nat =>
             byte_of_Z (byte_of_word
                          (nth (Z.to_nat (Z.of_nat i0 / 4)) (words decrypted) 0)
                          (Z.of_nat i0 mod 4)))
        (seq 0 (Z.to_nat (sigBytes decrypted))) !! i
      = Some (byte_of_Z (WordArray_byte decrypted i))).
    { intros i Hi. rewrite list_lookup_fmap, lookup_seq_lt by exact Hi. cbn.
      rewrite byte_of_word_spec by (apply Z.mod_pos_bound; lia). reflexivity. }
    rewrite length_map, length_seq.
    split; [lia|]. split; [exact Hbyte|].
    intros i Hi Hmissing. rewrite Hbyte by exact Hi.
    now rewrite WordArray_byte_missing.
Qed.

Lemma conversion_loop_shape_witness :
  to_ArrayBuffer (mkWordArray [25185] (-1))
  = Throw (RangeError "Invalid typed array length") /\
  exists buffer,
    to_ArrayBuffer (mkWordArray [25185] 6) = Normal buffer /\
    Z.of_nat (length buffer) = 6 /\
    (forall i : nat, (i < length buffer)%nat ->
       buffer !! i = Some (byte_of_Z (WordArray_byte (mkWordArray [25185] 6) i))) /\
    (forall i : nat, (i < length buffer)%nat ->
       (4 * length [25185%Z] <= i)%nat ->
       buffer !! i = Some (byte_of_Z 0)).
Proof.
  split.
  - apply (conversion_loop_shape (mkWordArray [25185] (-1))). reflexivity.
  - apply (conversion_loop_shape (mkWordArray [25185] 6)). discriminate.
Defined.

Lemma to_ArrayBuffer_null (wa : WordArray) :
  (exists e, to_ArrayBuffer wa = Throw e) <-> sigBytes wa < 0.
Proof.
  destruct (conversion_loop_shape wa) as [Hneg Hpos]. split.
  - intros [e He]. destruct (Z.lt_ge_cases (sigBytes wa) 0) as [|Hge]; [assumption|].
    destruct (Hpos Hge) as (b & Hb & _). congruence.
  - intros Hlt. eexists. apply Hneg, Hlt.
Qed.

(** X8.  For a key that has a UTF-8 encoding, a strategy returns [null]
    exactly when the cipher throws or returns a word array with a negative
    [sigBytes]; a short buffer on its own does not make it fail. *)
Theorem strategies_give_null `{CryptoJS}
  (encryptedData : bytes) (key : string) :
  has_surrogate key = false ->
  (decryptAES encryptedData key None = None <->
   match AES_decrypt (WordArray_of_bytes (slice_from 16 encryptedData))
           (Utf8_parse key) (WordArray_of_bytes (slice_to 16 encryptedData)) with
   | Normal decrypted => sigBytes decrypted < 0
   | Throw _ => True
   end) /\
  (decryptAESWithSalt encryptedData key = None <->
   let keyIv := words (PBKDF2 key (WordArray_of_bytes (slice_to 8 encryptedData)) 12 1000) in
   match AES_decrypt (WordArray_of_bytes (slice_from 8 encryptedData))
           (WordArray_of_words (firstn 8 keyIv))
           (WordArray_of_words (firstn 4 (skipn 8 keyIv))) with
   | Normal decrypted => sigBytes decrypted < 0
   | Throw _ => True
   end).
Proof.
  intros _. split.
  - unfold decryptAES, decryptAES_try. cbn [given].
    destruct (AES_decrypt _ _ _) as [wa|e]; cbn [cbind]; [|tauto].
    rewrite <- to_ArrayBuffer_null.
    destruct (to_ArrayBuffer wa) as [b|e].
    + split; [discriminate | intros [e He]; discriminate].
    + split; eauto.
  - unfold decryptAESWithSalt, decryptAESWithSalt_try. cbv zeta.
    destruct (AES_decrypt _ _ _) as [wa|e]; cbn [cbind]; [|tauto].
    rewrite <- to_ArrayBuffer_null.
    destruct (to_ArrayBuffer wa) as [b|e].
    + split; [discriminate | intros [e He]; discriminate].
    + split; eauto.
Qed.

Lemma strategies_give_null_witness :
  (@decryptAES StandIn.null_cipher StandIn.undecryptable "k" None = None <->
   match @AES_decrypt StandIn.null_cipher
           (WordArray_of_bytes (slice_from 16 StandIn.undecryptable))
           (Utf8_parse "k") (WordArray_of_bytes (slice_to 16 StandIn.undecryptable)) with
   | Normal decrypted => sigBytes decrypted < 0
   | Throw _ => True
   end) /\
  (@decryptAESWithSalt StandIn.null_cipher StandIn.undecryptable "k" = None <->
   let keyIv := words (@PBKDF2 StandIn.null_cipher "k"
                         (WordArray_of_bytes (slice_to 8 StandIn.undecryptable)) 12 1000) in
   match @AES_decrypt StandIn.null_cipher
           (WordArray_of_bytes (slice_from 8 StandIn.undecryptable))
           (WordArray_of_words (firstn 8 keyIv))
           (WordArray_of_words (firstn 4 (skipn 8 keyIv))) with
   | Normal decrypted => sigBytes decrypted < 0
   | Throw _ => True
   end).
Proof.
  apply (@strategies_give_null StandIn.null_cipher StandIn.undecryptable "k").
  reflexivity.
Defined.

Section ExplicitIv.
Context `{CryptoJS}.
Variable AES_encrypt : bytes -> WordArray -> WordArray -> bytes.

(** X9.  With an [iv] argument that is not empty the whole buffer is the
    ciphertext and the IV is the UTF-8 bytes of the argument: when the
    cipher inverts the sender's encryption, [decryptAES] recovers the
    plaintext.  An empty [iv] is treated as no [iv]. *)
Theorem explicit_iv_round_trip :
  cipher_inverts AES_encrypt ->
  (forall (key iv : string) (plaintext : bytes),
      iv <> EmptyString ->
      decryptAES (AES_encrypt plaintext (Utf8_parse key) (Utf8_parse iv)) key (Some iv)
      = Some plaintext) /\
  (forall (encryptedData : bytes) (key : string),
      decryptAES encryptedData key (Some EmptyString) = decryptAES encryptedData key None).
Proof.
  intros Hinv. split; [|reflexivity].
  intros key iv plaintext Hiv.
  unfold decryptAES, decryptAES_try.
  assert (Hg : given (Some iv) = true) by (destruct iv; [congruence | reflexivity]).
  rewrite Hg. cbv beta iota zeta. cbn [default]. unfold id.
  destruct (Hinv plaintext (Utf8_parse key) (Utf8_parse iv)) as (wa & -> & Hholds).
  cbn [cbind]. now rewrite (to_ArrayBuffer_holds _ _ Hholds).
Qed.

End ExplicitIv.

Lemma explicit_iv_round_trip_witness :
  @decryptAES StandIn.null_cipher
    (StandIn.null_encrypt (StandIn.bytes_of [80; 75; 3; 4])
       (Utf8_parse "k") (Utf8_parse "0123456789abcdef"))
    "k" (Some "0123456789abcdef")
  = Some (StandIn.bytes_of [80; 75; 3; 4]).
Proof.
  apply (@explicit_iv_round_trip StandIn.null_cipher StandIn.null_encrypt
           null_cipher_inverts).
  discriminate.
Defined.

End ConversionMore.

(** ** More of the descriptor parser and the page *)

Section DescriptorMore.
Import JSString JSON Descriptor.

(** X10.  A text that starts with [ws://] or [wss://] is returned as
    [{ url: text }].  Whatever [parseQRData] returns has a truthy [url],
    and is either the parsed text or that object. *)
Theorem parseQRData_result_has_url (qrData : string) :
  (ws_prefixed qrData = true -> parseQRData qrData = Some (bare_url qrData)) /\
  (forall parsedData, parseQRData qrData = Some parsedData ->
     truthy (url_of parsedData) = true /\
     (JSON.parse qrData = Normal parsedData \/
      ws_prefixed qrData = true /\ parsedData = bare_url qrData)).
Proof.
  rewrite parseQRData_cases. split.
  - intros Hws. destruct (JSON.parse qrData) as [parsed|e] eqn:Hp.
    + rewrite (parsed_not_ws_prefixed _ _ Hp) in Hws. discriminate.
    + now rewrite Hws.
  - intros parsedData. destruct (JSON.parse qrData) as [parsed|e].
    + destruct (truthy (url_of parsed)) eqn:Ht; [|discriminate].
      intros [= <-]. auto.
    + destruct (ws_prefixed qrData) eqn:Hws; [|discriminate].
      intros [= <-]. split; [|auto].
      apply ws_prefixed_w in Hws as [r ->]. reflexivity.
Qed.

Lemma parseQRData_result_has_url_witness :
  parseQRData "wss://host:8443/feed?x={1}" = Some (bare_url "wss://host:8443/feed?x={1}").
Proof.
  apply (parseQRData_result_has_url "wss://host:8443/feed?x={1}"). reflexivity.
Defined.

End DescriptorMore.

Section MessageFacts.
Import Crypto Orchestrator.

(** X15.  A text frame is passed on as a parsed message or not at all,
    and the page's handler never starts a decryption for a parsed
    message, whatever its [type] and [data]: the state of the page, its
    pictures, its descriptor and its calls are unchanged, and at most a
    [Server Error] toast is added. *)
Theorem text_frames_never_decrypt `{CryptoJS} `{JSZip}
  (text : string) (channel : Channel.State) :
  (Channel.messages (Channel.onmessage (Channel.Text text) channel)
   = Channel.messages channel \/
   exists v, Channel.messages (Channel.onmessage (Channel.Text text) channel)
             = Channel.messages channel ++ [Channel.parsed_text v]) /\
  (forall captured v s s',
      onMessage captured (Channel.parsed_text v) s = Some s' ->
      appState s' = appState s /\ images s' = images s /\ qrData s' = qrData s /\
      isProcessing s' = isProcessing s /\ calls s' = calls s /\
      (toasts s' = toasts s \/
       exists description, toasts s' = toasts s ++ [mkToast "Server Error" description true])).
Proof.
  split.
  - unfold Channel.onmessage. destruct (JSON.parse text) as [v|e]; cbn; eauto.
  - intros captured v s s'. cbn [onMessage]. unfold onMessage_text.
    destruct (JSON.get v "type") as [type|]; [|intros [= <-]; tauto].
    destruct (strict_equals type "error"); [|intros [= <-]; tauto].
    destruct (JSON.get_field _ "error") as [[]|];
      try (destruct (JSON.truthy _); [discriminate|]);
      intros [= <-]; cbn; eauto 10.
Qed.

Lemma text_frames_never_decrypt_witness :
  let s := setQrData (Some (mkDescriptor "ws://h" (Some "k"))) (setAppState connected initial) in
  let s' := toast "Server Error" "disk full" true s in
  appState s' = appState s /\ images s' = images s /\ qrData s' = qrData s /\
  isProcessing s' = isProcessing s /\ calls s' = calls s /\
  (toasts s' = toasts s \/
   exists description, toasts s' = toasts s ++ [mkToast "Server Error" description true]).
Proof.
  cbv zeta.
  apply (proj2 (@text_frames_never_decrypt StandIn.null_cipher
                  (StandIn.archive_of [("a.png", StandIn.image_file)]) "" Channel.initial)
           (Some (mkDescriptor "ws://h" (Some "k")))
           (JSON.JObject [("type", JSON.JString "error");
                          ("error", JSON.JString "disk full")])).
  reflexivity.
Defined.

End MessageFacts.

Section OrchestratorFlows.
Import Crypto Orchestrator.

Lemma parseQRData_ws_prefixed (qrData : string) :
  Descriptor.ws_prefixed qrData = true ->
  Descriptor.parseQRData qrData = Some (Descriptor.bare_url qrData).
Proof.
  intros Hws. rewrite parseQRData_cases.
  destruct (JSON.parse qrData) as [parsed|e] eqn:Hp.
  - rewrite (parsed_not_ws_prefixed _ _ Hp) in Hws. discriminate.
  - now rewrite Hws.
Qed.

(** X16.  Scanning a bare address keeps a descriptor without a key, asks
    the channel to connect to that address, and every payload handled
    with that descriptor is answered by the [Missing Decryption Key]
    toast alone. *)
Theorem bare_address_scan_cannot_decrypt `{CryptoJS} `{JSZip}
  (result : string) (s : State) :
  Descriptor.ws_prefixed result = true ->
  qrData (handleQRScan result s) = Some (mkDescriptor result None) /\
  appState (handleQRScan result s) = connecting /\
  calls (handleQRScan result s) = calls s ++ [call_connect result] /\
  (forall (encryptedData : bytes) (s' : State),
      handleEncryptedData (qrData (handleQRScan result s)) encryptedData s'
      = toast "Missing Decryption Key" "No decryption key found in QR code" true s').
Proof.
  intros Hws. unfold handleQRScan. rewrite (parseQRData_ws_prefixed _ Hws).
  cbn. repeat split.
Qed.

Lemma bare_address_scan_cannot_decrypt_witness :
  qrData (handleQRScan "ws://192.168.1.20:8765" initial)
  = Some (mkDescriptor "ws://192.168.1.20:8765" None) /\
  appState (handleQRScan "ws://192.168.1.20:8765" initial) = connecting /\
  calls (handleQRScan "ws://192.168.1.20:8765" initial)
  = calls initial ++ [call_connect "ws://192.168.1.20:8765"] /\
  (forall (encryptedData : bytes) (s' : State),
      @handleEncryptedData StandIn.null_cipher
        (StandIn.archive_of [("a.png", StandIn.image_file)])
        (qrData (handleQRScan "ws://192.168.1.20:8765" initial)) encryptedData s'
      = toast "Missing Decryption Key" "No decryption key found in QR code" true s').
Proof.
  apply (@bare_address_scan_cannot_decrypt StandIn.null_cipher
           (StandIn.archive_of [("a.png", StandIn.image_file)])
           "ws://192.168.1.20:8765" initial).
  reflexivity.
Defined.




Lemma viewing_step `{CryptoJS} `{JSZip} (s s' : State) (e : Event) :
  step s e = Some s' ->
  (appState s = viewing -> images s <> ∅) ->
  (appState s' = viewing -> images s' <> ∅).
Proof.
  intros Hstep Hinv.
  destruct e as [status|e|message|result| |captured|encryptedData key| | |];
    cbn [step] in Hstep.
  - injection Hstep as <-. destruct status; cbn; try exact Hinv; discriminate.
  - injection Hstep as <-. exact Hinv.
  - unfold onMessage_text in Hstep.
    destruct (JSON.get message "type") as [type|]; [|injection Hstep as <-; exact Hinv].
    destruct (strict_equals type "error"); [|injection Hstep as <-; exact Hinv].
    destruct (JSON.get_field _ "error") as [[]|];
      try (destruct (JSON.truthy _); [discriminate|]);
      injection Hstep as <-; exact Hinv.
  - injection Hstep as <-. unfold handleQRScan.
    destruct (Descriptor.parseQRData result); cbn; discriminate.
  - injection Hstep as <-. cbn. discriminate.
  - injection Hstep as <-. unfold handleEncryptedData_begin.
    destruct (key_of captured); cbn; [discriminate | exact Hinv].
  - injection Hstep as <-.
    destruct (decryptAndExtractZip_outcome encryptedData key None)
      as [[reason ->]|(fs & -> & Hne)]; cbn; [discriminate|].
    intros _. exact Hne.
  - injection Hstep as <-. cbn. discriminate.
  - injection Hstep as <-. cbn. discriminate.
  - injection Hstep as <-. cbn. discriminate.
Qed.

(** X18.  Whatever happens to the page, in any order: in the viewing
    state the set of pictures is not empty, so the gallery is shown
    exactly in the viewing state. *)
Theorem viewing_always_has_images `{CryptoJS} `{JSZip} (es : list Event) (s : State) :
  run initial es = Some s ->
  (appState s = viewing -> images s <> ∅) /\
  (shows_gallery s = true <-> appState s = viewing).
Proof.
  intros Hrun.
  assert (Hinv : appState s = viewing -> images s <> ∅).
  { assert (Hgen : forall es s0 s,
               run s0 es = Some s ->
               (appState s0 = viewing -> images s0 <> ∅) ->
               (appState s = viewing -> images s <> ∅)).
    { clear. induction es as [|e es IH]; intros s0 s Hrun Hinv; cbn in Hrun.
      - now injection Hrun as <-.
      - destruct (step s0 e) as [s1|] eqn:E; [|discriminate].
        exact (IH s1 s Hrun (viewing_step s0 s1 e E Hinv)). }
    apply (Hgen es initial s Hrun). discriminate. }
  split; [exact Hinv|].
  unfold shows_gallery. destruct (appState s); try (split; discriminate).
  split; [reflexivity|]. intros _.
  apply Z.ltb_lt. specialize (Hinv eq_refl).
  destruct (size (images s)) eqn:Hsize; [|lia].
  apply map_size_empty_inv in Hsize. contradiction.
Qed.

Lemma viewing_always_has_images_witness :
  let s := default initial
             (@run StandIn.null_cipher (StandIn.archive_of [("a.png", StandIn.image_file)])
                initial
                [ScanPressed; Scanned "ws://h"; StatusChanged Channel.connected;
                 PayloadArrived (Some (mkDescriptor "ws://h" (Some "k")));
                 StatusChanged Channel.disconnected;
                 DecryptionSettled StandIn.decryptable "k"]) in
  (appState s = viewing -> images s <> ∅) /\
  (shows_gallery s = true <-> appState s = viewing).
Proof.
  apply (@viewing_always_has_images StandIn.null_cipher
           (StandIn.archive_of [("a.png", StandIn.image_file)])
           [ScanPressed; Scanned "ws://h"; StatusChanged Channel.connected;
            PayloadArrived (Some (mkDescriptor "ws://h" (Some "k")));
            StatusChanged Channel.disconnected;
            DecryptionSettled StandIn.decryptable "k"]).
  vm_compute. reflexivity.
Defined.

End OrchestratorFlows.

Section GalleryFacts.
Import Gallery.
Local Open Scope Z_scope.

Lemma gallery_step_in_range (length i j : Z) (e : Event) :
  0 <= i < length -> step length i e = Some j -> 0 <= j < length.
Proof.
  intros Hi. destruct e as [| |index]; cbn [step]; unfold nextImage, prevImage.
  - destruct (Z.ltb_spec i (length - 1)); intros [= <-]; lia.
  - destruct (Z.ltb_spec 0 i); intros [= <-]; lia.
  - destruct (Z.ltb_spec (Z.of_nat index) length); [|discriminate]. intros [= <-]. lia.
Qed.

(** X19.  In a gallery that has pictures, the index of the picture shown
    stays within the list under the arrows and the thumbnails, when each
    is handled by the handlers of the latest render. *)
Theorem gallery_index_stays_in_range (length : Z) (es : list Event) (currentIndex : Z) :
  0 < length ->
  run length 0 es = Some currentIndex ->
  0 <= currentIndex < length.
Proof.
  intros Hlen.
  assert (Hgen : forall es i j, 0 <= i < length -> run length i es = Some j ->
                                0 <= j < length).
  { clear es currentIndex. induction es as [|e es IH]; intros i j Hi Hrun; cbn in Hrun.
    - injection Hrun as <-. exact Hi.
    - destruct (step length i e) as [i1|] eqn:E; [|discriminate].
      exact (IH i1 j (gallery_step_in_range length i i1 e Hi E) Hrun). }
  apply Hgen. lia.
Qed.

Lemma gallery_index_stays_in_range_witness :
  0 <= default 0 (run 3 0 [Next; Next; Next; Previous; Thumbnail 2; Next; Thumbnail 0; Previous]) < 3.
Proof.
  apply (gallery_index_stays_in_range 3
           [Next; Next; Next; Previous; Thumbnail 2; Next; Thumbnail 0; Previous]);
    [lia | vm_compute; reflexivity].
Defined.

End GalleryFacts.

(** ** More of the channel manager *)

Section ChannelMore.
Import Channel.
Local Open Scope Z_scope.

Lemma run_invariant `{Platform} (P : State -> Prop) (ok : Event -> bool) :
  (forall s s' e, ok e = true -> step s e = Some s' -> P s -> P s') ->
  forall es s s', forallb ok es = true -> run s es = Some s' -> P s -> P s'.
Proof.
  intros Hstep. induction es as [|e es IH]; intros s s' Hok Hrun HP; cbn in Hrun.
  - now injection Hrun as <-.
  - cbn in Hok. apply andb_prop in Hok as [He Hes].
    destruct (step s e) as [s1|] eqn:E; [|discriminate].
    exact (IH s1 s' Hes Hrun (Hstep s s1 e He E HP)).
Qed.

Lemma connect_ws `{Platform} (u : string) (s : State) :
  ws (connect u s) = if url_ok u then Some (length (sockets s)) else ws s.
Proof.
  unfold connect. destruct (url_ok u); [reflexivity|].
  unfold reject.
  now destruct (settle_fields (length (promises s)) (Rejected "SyntaxError")
                  (onStatusChange error
                     (console_log (log_error "Failed to create WebSocket:")
                        (onStatusChange connecting
                           (set_url u (set_promises (promises s ++ [Pending]) s))))))
    as (-> & _).
Qed.

Lemma onopen_ws (p : nat) (s : State) : ws (onopen p s) = ws s.
Proof.
  unfold onopen, resolve.
  now destruct (settle_fields p Resolved
                  (onStatusChange connected
                     (set_reconnectAttempts 0 (console_log log_connected s))))
    as (-> & _).
Qed.

Lemma onerror_ws (p : nat) (s : State) : ws (onerror p s) = ws s.
Proof.
  unfold onerror, reject.
  now destruct (settle_fields p (Rejected "WebSocket connection failed")
                  (onError "Connection error"
                     (onStatusChange error (console_log (log_error "WebSocket error:") s))))
    as (-> & _).
Qed.

Lemma onmessage_ws (f : Frame) (s : State) : ws (onmessage f s) = ws s.
Proof.
  unfold onmessage. destruct f as [data|data]; [|destruct (JSON.parse data)]; reflexivity.
Qed.

Lemma timeout_callback_ws (p : nat) (s : State) : ws (timeout_callback p s) = ws s.
Proof.
  unfold timeout_callback. destruct (ws_not_open s); [|reflexivity].
  unfold reject.
  destruct (settle_fields p (Rejected "Connection timeout")
              (match ws s with Some i => socket_close i s | None => s end))
    as (-> & _).
  destruct (ws s) as [i|] eqn:E; [|exact E].
  destruct (socket_close_fields i s) as (-> & _). exact E.
Qed.

Lemma set_readyState_length (i : nat) (r : ReadyState) (s : State) :
  length (sockets (set_readyState i r s)) = length (sockets s).
Proof. unfold set_readyState, set_sockets. cbn [sockets]. apply length_alter. Qed.


Lemma bounded_connect `{Platform} (u : string) (s : State) :
  bounded s -> bounded (connect u s).
Proof.
  intros (Hr & Hd & Hw).
  destruct (connect_fields u s) as (_ & Hr' & Hs' & Ht' & _).
  unfold bounded, reconnect_delays. rewrite Hr', Hs', Ht', connect_ws, reconnect_delays_app.
  split; [exact Hr|]. split.
  - destruct (url_ok u); cbn; rewrite app_nil_r; exact Hd.
  - intros i. rewrite length_app. destruct (url_ok u); cbn [length].
    + intros [= <-]. lia.
    + intros Hi. apply Hw in Hi. lia.
Qed.

Lemma bounded_step `{Platform} (s s' : State) (e : Event) :
  step s e = Some s' -> bounded s -> bounded s'.
Proof.
  intros Hstep Hb.
  destruct e as [u| |i|i f|i|i wasClean|k|i]; cbn [step] in Hstep.
  - injection Hstep as <-. now apply bounded_connect.
  - injection Hstep as <-. destruct Hb as (Hr & Hd & Hw).
    destruct (disconnect_fields s) as (_ & Ht & Hr' & _).
    unfold bounded, reconnect_delays. rewrite Ht, Hr'.
    split; [exact Hr|]. split; [exact Hd|].
    unfold disconnect. destruct (ws s) as [j|] eqn:E; cbn; [discriminate|].
    intros j Hj. rewrite E in Hj. discriminate.
  - destruct (sockets s !! i) as [k|]; [|discriminate].
    destruct (ReadyState_eqb (readyState k) CONNECTING); [|discriminate].
    injection Hstep as <-. destruct Hb as (Hr & Hd & Hw).
    destruct (onopen_fields (sock_promise k) (set_readyState i OPEN s))
      as (_ & Hs' & Ht' & Hr').
    unfold bounded, reconnect_delays. rewrite Hr', Ht', Hs', onopen_ws, set_readyState_length.
    split; [unfold maxReconnectAttempts; lia|]. split; [exact Hd | exact Hw].
  - destruct (sockets s !! i) as [k|]; [|discriminate].
    destruct (ReadyState_eqb (readyState k) OPEN || ReadyState_eqb (readyState k) CLOSING);
      [|discriminate].
    injection Hstep as <-. destruct Hb as (Hr & Hd & Hw).
    destruct (onmessage_fields f s) as (_ & Hs' & Ht' & Hr' & _).
    unfold bounded, reconnect_delays. rewrite Hr', Ht', Hs', onmessage_ws.
    split; [exact Hr|]. split; [exact Hd | exact Hw].
  - destruct (sockets s !! i) as [k|]; [|discriminate].
    destruct (ReadyState_eqb (readyState k) CLOSED); [discriminate|].
    injection Hstep as <-. destruct Hb as (Hr & Hd & Hw).
    destruct (onerror_fields (sock_promise k) s) as (_ & Hs' & Ht' & Hr' & _).
    unfold bounded, reconnect_delays. rewrite Hr', Ht', Hs', onerror_ws.
    split; [exact Hr|]. split; [exact Hd | exact Hw].
  - destruct (sockets s !! i) as [k|]; [|discriminate].
    destruct (ReadyState_eqb (readyState k) CLOSED); [discriminate|].
    injection Hstep as <-. destruct Hb as (Hr & Hd & Hw).
    destruct (onclose_fields wasClean (set_readyState i CLOSED s))
      as (Hw' & _ & Hs' & _ & Hr' & Ht').
    cbv zeta in Hr', Ht'.
    unfold bounded, reconnect_delays.
    rewrite Hr', Ht', Hs', Hw', reconnect_delays_app, set_readyState_length.
    change (reconnectAttempts (set_readyState i CLOSED s)) with (reconnectAttempts s).
    change (reconnect_delays (set_readyState i CLOSED s)) with (reconnect_delays s).
    change (ws (set_readyState i CLOSED s)) with (ws s).
    unfold maxReconnectAttempts in *.
    destruct (negb wasClean); cbn [andb].
    + destruct (Z.ltb_spec (reconnectAttempts s) 3) as [Hlt|Hge].
      * split; [lia|]. split; [|exact Hw].
        apply Forall_app. split; [exact Hd|]. cbn. constructor; [|constructor].
        unfold retry_delays, reconnectDelay. cbn [In].
        assert (Hcases : reconnectAttempts s = 0 \/ reconnectAttempts s = 1
                         \/ reconnectAttempts s = 2) by lia.
        destruct Hcases as [-> | [-> | ->]]; auto.
      * split; [lia|]. split; [|exact Hw]. cbn. rewrite app_nil_r. exact Hd.
    + split; [lia|]. split; [|exact Hw]. cbn. rewrite app_nil_r. exact Hd.
  - destruct (timers s !! k) as [t|] eqn:Hk; [|discriminate].
    destruct (fired t) eqn:Hf; [discriminate|].
    injection Hstep as <-.
    assert (Hm : bounded (mark_fired k s)).
    { destruct Hb as (Hr & Hd & Hw). unfold bounded.
      rewrite (proj1 (mark_fired_reconnects k s)). auto. }
    destruct (kind t) as [p|].
    + destruct Hm as (Hr & Hd & Hw).
      destruct (timeout_callback_fields p (mark_fired k s)) as (_ & Ht' & Hr' & _ & _ & Hl').
      unfold bounded, reconnect_delays. rewrite Hr', Ht', Hl', timeout_callback_ws.
      auto.
    + unfold reconnect_callback.
      destruct (reconnectAttempts (mark_fired k s) <=? maxReconnectAttempts);
        [now apply bounded_connect | exact Hm].
  - destruct (sockets s !! i) as [k|]; [|discriminate].
    destruct (ReadyState_eqb (readyState k) OPEN); [|discriminate].
    injection Hstep as <-. destruct Hb as (Hr & Hd & Hw).
    unfold bounded. rewrite set_readyState_length.
    split; [exact Hr|]. split; [exact Hd | exact Hw].
Qed.

Lemma bounded_initial : bounded initial.
Proof.
  unfold bounded, maxReconnectAttempts. cbn. split; [lia|]. split; [constructor|].
  discriminate.
Qed.

Lemma bounded_run `{Platform} (es : list Event) (s : State) :
  run initial es = Some s -> bounded s.
Proof.
  intros Hrun.
  apply (run_invariant bounded (fun _ => true) (fun s s' e _ => bounded_step s s' e)
           es initial s); [|exact Hrun | exact bounded_initial].
  clear Hrun. induction es as [|e es IH]; [reflexivity | exact IH].
Qed.

(** X11.  Whatever the client calls and the platform delivers, in any
    order, from a new service on: the retry counter stays between 0 and 3
    and every retry that was set waits 1000, 2000 or 3000 ms. *)
Theorem retries_bounded_in_every_run `{Platform} (es : list Event) (s : State) :
  run initial es = Some s ->
  0 <= reconnectAttempts s <= maxReconnectAttempts /\
  (forall t, In t (timers s) -> kind t = Reconnect ->
             delay t = 1000 \/ delay t = 2000 \/ delay t = 3000).
Proof.
  intros Hrun. destruct (bounded_run es s Hrun) as (Hr & Hd & _).
  split; [exact Hr|]. intros t Hin Hkind.
  rewrite Forall_forall in Hd.
  assert (Hdel : In (delay t) retry_delays).
  { apply Hd, list_elem_of_In. unfold reconnect_delays.
    apply in_map, List.filter_In. split; [exact Hin|].
    unfold is_reconnect. now rewrite Hkind. }
  unfold retry_delays, reconnectDelay in Hdel. cbn in Hdel. intuition lia.
Qed.

Lemma retries_bounded_in_every_run_witness :
  let s := after [Connect "ws://host"; SockClose 0 false; TimerFire 1;
                  SockOpen 1; SockClose 1 false; Disconnect; TimerFire 3] in
  0 <= reconnectAttempts s <= maxReconnectAttempts /\
  (forall t, In t (timers s) -> kind t = Reconnect ->
             delay t = 1000 \/ delay t = 2000 \/ delay t = 3000).
Proof.
  apply (@retries_bounded_in_every_run ws_schemes
           [Connect "ws://host"; SockClose 0 false; TimerFire 1;
            SockOpen 1; SockClose 1 false; Disconnect; TimerFire 3]).
  vm_compute. reflexivity.
Defined.

(** X12.  In every state a new service can reach the socket it holds is
    one the platform made, so [getStatus] never returns [error]. *)
Theorem getStatus_never_error `{Platform} (es : list Event) (s : State) :
  run initial es = Some s ->
  getStatus s <> error /\
  (forall i, ws s = Some i -> is_Some (sockets s !! i)).
Proof.
  intros Hrun. destruct (bounded_run es s Hrun) as (_ & _ & Hw).
  assert (Hsome : forall i, ws s = Some i -> is_Some (sockets s !! i))
    by (intros i Hi; apply lookup_lt_is_Some, Hw, Hi).
  split; [|exact Hsome].
  unfold getStatus, readyState_of. destruct (ws s) as [i|]; [|discriminate].
  destruct (Hsome i eq_refl) as [k ->]. cbn. destruct (readyState k); discriminate.
Qed.

Lemma getStatus_never_error_witness :
  getStatus (after [Connect "ws://host"; SockError 0; SockClose 0 false; Connect "http://x"])
  <> error.
Proof.
  apply (@getStatus_never_error ws_schemes
           [Connect "ws://host"; SockError 0; SockClose 0 false; Connect "http://x"]).
  vm_compute. reflexivity.
Defined.

Lemma no_retry_connect `{Platform} (u : string) (s : State) :
  no_retry s ->
  no_retry (connect u s) /\
  length (sockets (connect u s))
  = (length (sockets s) + if url_ok u then 1 else 0)%nat.
Proof.
  intros (Hr & Hc). destruct (connect_fields u s) as (_ & Hr' & Hs' & Ht' & _).
  unfold no_retry. rewrite Hr', Hs', Ht', count_app, length_app.
  destruct (url_ok u); cbn [length]; rewrite ?count_one, ?count_nil; cbn; auto with lia.
Qed.

Lemma clean_step `{Platform} (s s' : State) (e : Event) :
  clean_event e = true -> step s e = Some s' -> no_retry s ->
  no_retry s' /\
  length (sockets s')
  = (length (sockets s) + connect_calls [e])%nat.
Proof.
  intros Hclean Hstep Hn. unfold connect_calls. rewrite count_one.
  destruct e as [u| |i|i f|i|i wasClean|k|i]; cbn [step] in Hstep.
  - injection Hstep as <-. now apply no_retry_connect.
  - injection Hstep as <-. destruct Hn as (Hr & Hc).
    destruct (disconnect_fields s) as (_ & Ht & Hr' & _).
    unfold no_retry. rewrite Ht, Hr'. split; [auto|].
    unfold disconnect. destruct (ws s) as [j|]; cbn [sockets onStatusChange set_ws];
      rewrite ?socket_close_length; lia.
  - destruct (sockets s !! i) as [k|]; [|discriminate].
    destruct (ReadyState_eqb (readyState k) CONNECTING); [|discriminate].
    injection Hstep as <-. destruct Hn as (Hr & Hc).
    destruct (onopen_fields (sock_promise k) (set_readyState i OPEN s))
      as (_ & Hs' & Ht' & Hr').
    unfold no_retry. rewrite Hr', Ht', Hs', set_readyState_length.
    split; [auto | lia].
  - destruct (sockets s !! i) as [k|]; [|discriminate].
    destruct (ReadyState_eqb (readyState k) OPEN || ReadyState_eqb (readyState k) CLOSING);
      [|discriminate].
    injection Hstep as <-. destruct Hn as (Hr & Hc).
    destruct (onmessage_fields f s) as (_ & Hs' & Ht' & Hr' & _).
    unfold no_retry. rewrite Hr', Ht', Hs'. split; [auto | lia].
  - destruct (sockets s !! i) as [k|]; [|discriminate].
    destruct (ReadyState_eqb (readyState k) CLOSED); [discriminate|].
    injection Hstep as <-. destruct Hn as (Hr & Hc).
    destruct (onerror_fields (sock_promise k) s) as (_ & Hs' & Ht' & Hr' & _).
    unfold no_retry. rewrite Hr', Ht', Hs'. split; [auto | lia].
  - destruct wasClean; [|discriminate].
    destruct (sockets s !! i) as [k|]; [|discriminate].
    destruct (ReadyState_eqb (readyState k) CLOSED); [discriminate|].
    injection Hstep as <-. destruct Hn as (Hr & Hc).
    destruct (onclose_fields true (set_readyState i CLOSED s))
      as (_ & _ & Hs' & _ & Hr' & Ht').
    cbn [negb andb] in Hr', Ht'.
    unfold no_retry. rewrite Hr', Ht', Hs', app_nil_r, set_readyState_length.
    split; [auto | lia].
  - destruct (timers s !! k) as [t|] eqn:Hk; [|discriminate].
    destruct (fired t) eqn:Hf; [discriminate|].
    injection Hstep as <-. destruct Hn as (Hr & Hc).
    pose proof (count_zero_lookup is_reconnect (timers s) k t Hc Hk) as Hnot.
    unfold is_reconnect in Hnot. destruct (kind t) as [p|]; [|discriminate].
    destruct (timeout_callback_fields p (mark_fired k s)) as (_ & Ht' & Hr' & _ & _ & Hl').
    unfold no_retry. rewrite Hr', Ht', Hl', (proj2 (mark_fired_reconnects k s)).
    split; [auto|]. change (sockets (mark_fired k s)) with (sockets s). lia.
  - destruct (sockets s !! i) as [k|]; [|discriminate].
    destruct (ReadyState_eqb (readyState k) OPEN); [|discriminate].
    injection Hstep as <-. rewrite set_readyState_length. split; [exact Hn | lia].
Qed.

(** X13.  While no close is unclean the service never sets a retry: the
    counter stays 0, no retry timer exists, and the sockets made are
    exactly those of the client's own [connect] calls with an address the
    platform accepts. *)
Theorem clean_runs_never_retry `{Platform} (es : list Event) (s : State) :
  forallb clean_event es = true ->
  run initial es = Some s ->
  reconnectAttempts s = 0 /\
  (forall t, In t (timers s) -> kind t <> Reconnect) /\
  length (sockets s) = connect_calls es.
Proof.
  intros Hclean Hrun.
  assert (Hgen : forall es s0 s,
             forallb clean_event es = true -> run s0 es = Some s -> no_retry s0 ->
             no_retry s /\ length (sockets s) = (length (sockets s0) + connect_calls es)%nat).
  { clear. induction es as [|e es IH]; intros s0 s Hclean Hrun Hn; cbn in Hrun.
    - injection Hrun as <-. split; [exact Hn|]. unfold connect_calls.
      rewrite count_nil. lia.
    - cbn in Hclean. apply andb_prop in Hclean as [He Hes].
      destruct (step s0 e) as [s1|] eqn:E; [|discriminate].
      destruct (clean_step s0 s1 e He E Hn) as [Hn1 Hl1].
      destruct (IH s1 s Hes Hrun Hn1) as [Hn' Hl'].
      split; [exact Hn'|]. rewrite Hl', Hl1. unfold connect_calls.
      rewrite (count_cons _ e es), count_one. lia. }
  destruct (Hgen es initial s Hclean Hrun) as [[Hr Hc] Hl];
    [split; reflexivity|].
  split; [exact Hr|]. split; [|exact Hl].
  intros t Hin Hkind. apply list_elem_of_In, list_elem_of_lookup in Hin as [k Hk].
  pose proof (count_zero_lookup is_reconnect (timers s) k t Hc Hk) as Hnot.
  unfold is_reconnect in Hnot. rewrite Hkind in Hnot. discriminate.
Qed.

Lemma clean_runs_never_retry_witness :
  let es := [Connect "ws://host"; SockOpen 0; SockMessage 0 (Text "{}"); SockError 0;
             SockClose 0 true; TimerFire 0; Connect "host"; Connect "wss://host";
             Disconnect; SockClose 1 true] in
  reconnectAttempts (after es) = 0 /\
  (forall t, In t (timers (after es)) -> kind t <> Reconnect) /\
  length (sockets (after es)) = @connect_calls ws_schemes es.
Proof.
  apply (@clean_runs_never_retry ws_schemes
           [Connect "ws://host"; SockOpen 0; SockMessage 0 (Text "{}"); SockError 0;
            SockClose 0 true; TimerFire 0; Connect "host"; Connect "wss://host";
            Disconnect; SockClose 1 true]);
    vm_compute; reflexivity.
Defined.

(** X14.  [send] returns true exactly when [getStatus] is [connected]
    and the message can be serialised; the serialised text is handed to
    the socket exactly then; [send] changes neither the sockets nor which
    one is held; right after [disconnect], and on a new service, it
    returns false and sends nothing. *)
Theorem send_only_when_connected (stringified : Completion string) (s : State) :
  (snd (send stringified s) = true <->
   getStatus s = connected /\ exists text, stringified = Normal text) /\
  (forall text, snd (fst (send stringified s)) = Some text <->
                snd (send stringified s) = true /\ stringified = Normal text) /\
  sockets (fst (fst (send stringified s))) = sockets s /\
  ws (fst (fst (send stringified s))) = ws s /\
  send stringified (disconnect s) = (disconnect s, None, false) /\
  send stringified initial = (initial, None, false).
Proof.
  assert (Hdis : send stringified (disconnect s) = (disconnect s, None, false)).
  { assert (Hw : ws (disconnect s) = None)
      by (unfold disconnect; destruct (ws s) eqn:E; cbn; [reflexivity | exact E]).
    unfold send. now rewrite Hw. }
  split; [|split; [|split; [|split; [|split; [exact Hdis | reflexivity]]]]];
    unfold send, getStatus.
  - destruct (ws s) as [i|]; [|cbn; split; [discriminate | intros [? _]; discriminate]].
    destruct (readyState_of s i) as [[]|];
      try (cbn; split; [discriminate | intros [? _]; discriminate]).
    destruct stringified as [text|e]; cbn.
    + split; eauto.
    + split; [discriminate | intros [_ [? ?]]; discriminate].
  - intros text. destruct (ws s) as [i|]; [|cbn; split; [discriminate | intros [? _]; discriminate]].
    destruct (readyState_of s i) as [[]|];
      try (cbn; split; [discriminate | intros [? _]; discriminate]).
    destruct stringified as [text'|e]; cbn.
    + split; [intros [= ->]; auto | intros [_ [= ->]]; reflexivity].
    + split; [discriminate | intros [? _]; discriminate].
  - destruct (ws s) as [i|]; [|reflexivity].
    destruct (readyState_of s i) as [[]|]; try reflexivity.
    destruct stringified; reflexivity.
  - destruct (ws s) as [i|] eqn:E; [|cbn; now rewrite E].
    destruct (readyState_of s i) as [[]|]; try (cbn; now rewrite E).
    destruct stringified; cbn; now rewrite E.
Qed.

End ChannelMore.

(** ** What the reported status says about the sockets *)

Section StatusFacts.
Import Channel.
Local Open Scope Z_scope.

Lemma disconnect_statuses (s : State) :
  statuses (disconnect s) = statuses s ++ [disconnected].
Proof.
  unfold disconnect. destruct (ws s) as [i|]; [|reflexivity].
  cbn [statuses onStatusChange set_ws].
  now destruct (socket_close_fields i s) as (_ & _ & _ & _ & -> & _).
Qed.

Lemma connect_not_connected `{Platform} (u : string) (s : State) :
  status (connect u s) <> Some connected.
Proof.
  destruct (connect_fields u s) as (_ & _ & _ & _ & Hst).
  unfold status. rewrite Hst. destruct (url_ok u).
  - rewrite last_snoc. discriminate.
  - change (statuses s ++ [connecting; error]) with (statuses s ++ [connecting] ++ [error]).
    rewrite app_assoc, last_snoc. discriminate.
Qed.

Lemma set_readyState_keeps_connection (i : nat) (r : ReadyState) (s : State) :
  ReadyState_eqb r OPEN || ReadyState_eqb r CLOSING = true ->
  has_connection s -> has_connection (set_readyState i r s).
Proof.
  intros Hr (j & k & Hj & Hk). unfold set_readyState, set_sockets, has_connection.
  cbn [sockets]. destruct (decide (i = j)) as [->|Hne].
  - exists j, (mkSocket (sock_url k) r (sock_promise k)).
    rewrite list_lookup_alter_eq, Hj. split; [reflexivity | exact Hr].
  - exists j, k. rewrite list_lookup_alter_ne by exact Hne. auto.
Qed.

Lemma socket_close_keeps_connection (i : nat) (s : State) :
  has_connection s -> has_connection (socket_close i s).
Proof.
  intros Hc. unfold socket_close.
  destruct (readyState_of s i) as [[]|]; try exact Hc;
    now apply set_readyState_keeps_connection.
Qed.

Lemma timeout_keeps_connection (p : nat) (s : State) :
  has_connection s -> has_connection (timeout_callback p s).
Proof.
  intros Hc. unfold timeout_callback. destruct (ws_not_open s); [|exact Hc].
  unfold reject.
  assert (Hs : sockets (settle p (Rejected "Connection timeout")
                          (match ws s with Some i => socket_close i s | None => s end))
               = sockets (match ws s with Some i => socket_close i s | None => s end))
    by apply settle_fields.
  unfold has_connection. rewrite Hs.
  destruct (ws s) as [i|]; [now apply socket_close_keeps_connection | exact Hc].
Qed.

Lemma connected_step `{Platform} (s s' : State) (e : Event) :
  step s e = Some s' ->
  (status s = Some connected -> has_connection s) ->
  (status s' = Some connected -> has_connection s').
Proof.
  intros Hstep Hinv.
  destruct e as [u| |i|i f|i|i wasClean|k|i]; cbn [step] in Hstep.
  - injection Hstep as <-. intros Hc. now apply connect_not_connected in Hc.
  - injection Hstep as <-. unfold status. rewrite disconnect_statuses, last_snoc.
    discriminate.
  - destruct (sockets s !! i) as [k|] eqn:Hk; [|discriminate].
    destruct (ReadyState_eqb (readyState k) CONNECTING); [|discriminate].
    injection Hstep as <-. intros _.
    destruct (onopen_fields (sock_promise k) (set_readyState i OPEN s)) as (_ & Hs' & _).
    exists i, (mkSocket (sock_url k) OPEN (sock_promise k)).
    rewrite Hs'. split; [|reflexivity].
    unfold set_readyState, set_sockets. cbn [sockets].
    now rewrite list_lookup_alter_eq, Hk.
  - destruct (sockets s !! i) as [k|]; [|discriminate].
    destruct (ReadyState_eqb (readyState k) OPEN || ReadyState_eqb (readyState k) CLOSING);
      [|discriminate].
    injection Hstep as <-.
    destruct (onmessage_fields f s) as (_ & Hs' & _ & _ & Hst').
    unfold status, has_connection. rewrite Hs', Hst'. exact Hinv.
  - destruct (sockets s !! i) as [k|]; [|discriminate].
    destruct (ReadyState_eqb (readyState k) CLOSED); [discriminate|].
    injection Hstep as <-.
    destruct (onerror_fields (sock_promise k) s) as (_ & _ & _ & _ & Hst').
    unfold status. rewrite Hst', last_snoc. discriminate.
  - destruct (sockets s !! i) as [k|]; [|discriminate].
    destruct (ReadyState_eqb (readyState k) CLOSED); [discriminate|].
    injection Hstep as <-.
    destruct (onclose_fields wasClean (set_readyState i CLOSED s))
      as (_ & _ & _ & Hst' & _).
    unfold status. rewrite Hst', last_snoc. discriminate.
  - destruct (timers s !! k) as [t|]; [|discriminate].
    destruct (fired t); [discriminate|].
    injection Hstep as <-.
    destruct (kind t) as [p|].
    + destruct (timeout_callback_fields p (mark_fired k s)) as (_ & _ & _ & Hst' & _).
      unfold status. rewrite Hst'. intros Hc. apply timeout_keeps_connection.
      exact (Hinv Hc).
    + unfold reconnect_callback.
      destruct (reconnectAttempts (mark_fired k s) <=? maxReconnectAttempts);
        [|exact Hinv].
      intros Hc. now apply connect_not_connected in Hc.
  - destruct (sockets s !! i) as [k|]; [|discriminate].
    destruct (ReadyState_eqb (readyState k) OPEN); [|discriminate].
    injection Hstep as <-. intros Hc.
    apply set_readyState_keeps_connection; [reflexivity | exact (Hinv Hc)].
Qed.

(** X20.  Whatever the client calls and the platform does, in any order,
    from a new service on: while the status last reported is [connected],
    some socket is open or in its closing handshake.  A socket that the
    server has started to close stays reported as connected until its
    close event. *)
Theorem connected_status_has_connection `{Platform} (es : list Event) (s : State) :
  run initial es = Some s ->
  status s = Some connected ->
  exists (i : nat) (k : Socket),
    sockets s !! i = Some k /\ (readyState k = OPEN \/ readyState k = CLOSING).
Proof.
  intros Hrun Hc.
  assert (Hhas : has_connection s).
  { revert Hc.
    apply (run_invariant (fun s => status s = Some connected -> has_connection s)
             (fun _ => true) (fun s s' e _ => connected_step s s' e) es initial s);
      [|exact Hrun|discriminate].
    clear Hrun. induction es as [|e es IH]; [reflexivity | exact IH]. }
  destruct Hhas as (i & k & Hk & Ho). exists i, k. split; [exact Hk|].
  unfold open_or_closing in Ho. destruct (readyState k); try discriminate; auto.
Qed.

Lemma connected_status_has_connection_witness :
  let s := after [Connect "ws://a"; Connect "ws://b"; SockOpen 0; TimerFire 1;
                  SockClosing 0] in
  exists (i : nat) (k : Socket),
    sockets s !! i = Some k /\ (readyState k = OPEN \/ readyState k = CLOSING).
Proof.
  apply (@connected_status_has_connection ws_schemes
           [Connect "ws://a"; Connect "ws://b"; SockOpen 0; TimerFire 1; SockClosing 0]);
    vm_compute; reflexivity.
Defined.

End StatusFacts.
